(** * changelog-gen-ai: the changelog document model, parser, formatter and writer

    A shallow embedding of [src/changelog/parser.ts], [src/changelog/formatter.ts]
    and [src/changelog/writer.ts], followed by the properties of the merge and
    of the parser that the specification states about them; then of the pure
    parts of [src/git/commits.ts] and of [getRepoUrl] in [src/git/analyzer.ts],
    with further properties of all of them.

    Conventions of the embedding:
    - a JavaScript string is the list of its UTF-16 code units ([N]);
    - the built-ins the code calls ([split], [join], [trim], [startsWith],
      [substring], [toLowerCase], [RegExp] matching, [Date.toISOString]) are
      written out as ECMAScript defines them;
    - a [for] loop over the lines is a recursive function that carries the
      loop variables; [-1] stays the "not found" index, as in the code;
    - an expression that can throw ([undefined.trim()]) yields
      [ThrowsTypeError];
    - a file is held as the string that reading it as UTF-8 returns, so
      writing a string stores it with every lone surrogate replaced by
      U+FFFD;
    - [new Date(text)] is written out for the date-only texts the parser
      passes, with the Invalid Date and the roll-over of the runtime. *)

From stdpp Require Import base option list gmap strings.
From Stdlib Require Import ZArith NArith Lia.
From Stdlib Require Ascii String.

Local Open Scope N_scope.

(** ** JavaScript strings *)

Module Js.

Definition jsstring := list N.

(** A string literal of the source: the code units of an ASCII text. *)
Definition lit (s : string) : jsstring :=
  map Ascii.N_of_ascii (String.list_ascii_of_string s).

Definition jsstring_eqb (a b : jsstring) : bool := bool_decide (a = b).

(** [WhiteSpace] and [LineTerminator] of ECMAScript: what [\s] matches and
    what [trim] strips. *)
Definition isWhiteSpace (c : N) : bool :=
  (c =? 9) || (c =? 10) || (c =? 11) || (c =? 12) || (c =? 13) || (c =? 32)
  || (c =? 160) || (c =? 5760) || ((8192 <=? c) && (c <=? 8202))
  || (c =? 8232) || (c =? 8233) || (c =? 8239) || (c =? 8287)
  || (c =? 12288) || (c =? 65279).

(** [LineTerminator]: the code units that [.] refuses. *)
Definition isLineTerminator (c : N) : bool :=
  (c =? 10) || (c =? 13) || (c =? 8232) || (c =? 8233).

Definition isDigit (c : N) : bool := (48 <=? c) && (c <=? 57).

(** [s.startsWith(p)] *)
Fixpoint startsWith (p s : jsstring) : bool :=
  match p, s with
  | [], _ => true
  | a :: p', b :: s' => (a =? b) && startsWith p' s'
  | _ :: _, [] => false
  end.

(** [s.substring(n)] and [s.substring(0, n)] *)
Definition substringFrom (n : nat) (s : jsstring) : jsstring := drop n s.
Definition substringTo (n : nat) (s : jsstring) : jsstring := take n s.

Fixpoint trimStart (s : jsstring) : jsstring :=
  match s with
  | c :: s' => if isWhiteSpace c then trimStart s' else s
  | [] => []
  end.

Definition trimEnd (s : jsstring) : jsstring := rev (trimStart (rev s)).

(** [s.trim()] *)
Definition trim (s : jsstring) : jsstring := trimEnd (trimStart s).

(** [s.split(sep)] for a one-code-unit separator; the empty string splits
    into one empty piece. *)
Fixpoint split (sep : N) (s : jsstring) : list jsstring :=
  match s with
  | [] => [[]]
  | c :: s' =>
      if c =? sep then [] :: split sep s'
      else match split sep s' with
           | piece :: pieces => (c :: piece) :: pieces
           | [] => [[c]]
           end
  end.

(** [pieces.join(sep)] *)
Fixpoint join (sep : jsstring) (pieces : list jsstring) : jsstring :=
  match pieces with
  | [] => []
  | [piece] => piece
  | piece :: rest => piece ++ sep ++ join sep rest
  end.

(** [s.toLowerCase()]. The ASCII letters, and the two code units above ASCII
    whose lower case contains an ASCII letter (U+212A KELVIN SIGN, U+0130),
    are mapped as Unicode says. Every other code unit above ASCII is left in
    place: the runtime maps it to code units above ASCII again, and the code
    only ever compares the result with the lower case of an ASCII name. *)
Definition lowerUnit (c : N) : jsstring :=
  if (65 <=? c) && (c <=? 90) then [c + 32]
  else if c =? 8490 then [107]
  else if c =? 304 then [105; 775]
  else [c].

Definition toLowerCase (s : jsstring) : jsstring := flat_map lowerUnit s.

(** Canonicalisation of a code unit under the [i] flag (no [u] flag): upper
    case, except that a code unit above ASCII never folds onto an ASCII one.
    The patterns only hold ASCII literals, so a code unit above ASCII is left
    in place here: it matches none of them either way. *)
Definition canonicalize (c : N) : N :=
  if (97 <=? c) && (c <=? 122) then c - 32 else c.

Definition LF : N := 10.
Definition nl : jsstring := [LF].

(** Surrogate code units. *)
Definition isHighSurrogate (c : N) : bool := (55296 <=? c) && (c <=? 56319).
Definition isLowSurrogate (c : N) : bool := (56320 <=? c) && (c <=? 57343).

(** [s.isWellFormed()]: every high surrogate is followed by a low one, and
    every low surrogate follows a high one. *)
Fixpoint isWellFormed (s : jsstring) : bool :=
  match s with
  | [] => true
  | c :: s' =>
      if isHighSurrogate c then
        match s' with
        | d :: s'' => isLowSurrogate d && isWellFormed s''
        | [] => false
        end
      else negb (isLowSurrogate c) && isWellFormed s'
  end.

(** [s.toWellFormed()]: every lone surrogate becomes U+FFFD. This is also
    what a string comes back as once it has been encoded as UTF-8 and decoded
    again: the encoder writes a lone surrogate as the bytes of U+FFFD. *)
Fixpoint toWellFormed (s : jsstring) : jsstring :=
  match s with
  | [] => []
  | c :: s' =>
      if isHighSurrogate c then
        match s' with
        | d :: s'' =>
            if isLowSurrogate d then c :: d :: toWellFormed s''
            else 65533 :: toWellFormed s'
        | [] => [65533]
        end
      else if isLowSurrogate c then 65533 :: toWellFormed s'
      else c :: toWellFormed s'
  end.

End Js.
Export Js.

(** ** Regular expressions

    The five patterns of the source use a small fragment: literals, classes,
    greedy [?], [+] and [*] over a class, alternation, capture groups and
    [$]. Each of them starts with [^] and has no [m] or [g] flag, so a match
    can only begin at offset 0 and [exec] runs the body there. The matcher is
    the backtracking one of ECMAScript: alternatives are tried left to right,
    quantifiers are greedy, and the first complete match wins. *)

Module Regex.

Inductive regex : Type :=
| Eps
| Chr (p : N -> bool)
| Seq (r1 r2 : regex)
| Alt (r1 r2 : regex)
| Opt (r : regex)
| Star (p : N -> bool)
| Plus (p : N -> bool)
| Group (n : nat) (r : regex)
| EndOfInput.

(** The capture groups that took part in the match; an absent key is
    [undefined]. *)
Abbreviation captures := (gmap nat jsstring).

Section Matcher.
Context {A : Type}.

(** Greedy repetition of a class: the longest run first, then shorter. *)
Fixpoint star (p : N -> bool) (s : jsstring) (caps : captures)
    (k : jsstring -> captures -> option A) : option A :=
  match s with
  | c :: s' =>
      if p c then
        match star p s' caps k with
        | Some a => Some a
        | None => k s caps
        end
      else k s caps
  | [] => k [] caps
  end.

Fixpoint run (r : regex) (s : jsstring) (caps : captures)
    (k : jsstring -> captures -> option A) : option A :=
  match r with
  | Eps => k s caps
  | Chr p =>
      match s with
      | c :: s' => if p c then k s' caps else None
      | [] => None
      end
  | Seq r1 r2 => run r1 s caps (fun s' caps' => run r2 s' caps' k)
  | Alt r1 r2 =>
      match run r1 s caps k with
      | Some a => Some a
      | None => run r2 s caps k
      end
  | Opt r1 =>
      match run r1 s caps k with
      | Some a => Some a
      | None => k s caps
      end
  | Star p => star p s caps k
  | Plus p =>
      match s with
      | c :: s' => if p c then star p s' caps k else None
      | [] => None
      end
  | Group n r1 =>
      run r1 s caps
        (fun s' caps' => k s' (<[n := take (length s - length s') s]> caps'))
  | EndOfInput =>
      match s with
      | [] => k [] caps
      | _ :: _ => None
      end
  end.

End Matcher.

(** [s.match(re)]: the captures of the first match, or [None] for [null]. *)
Definition exec (r : regex) (s : jsstring) : option captures :=
  run r s ∅ (fun _ caps => Some caps).

(** [re.test(s)], the truth value of [s.match(re)]. *)
Definition test (r : regex) (s : jsstring) : bool :=
  match exec r s with Some _ => true | None => false end.

(** The groups that take part in every match of a pattern. *)
Fixpoint defines (r : regex) (n : nat) : bool :=
  match r with
  | Group m r1 => (n =? m)%nat || defines r1 n
  | Seq r1 r2 => defines r1 n || defines r2 n
  | Alt r1 r2 => defines r1 n && defines r2 n
  | _ => false
  end.

(** A greedy run of the class [p] cannot go on into [rest]. *)
Definition stopsAt (p : N -> bool) (rest : jsstring) : Prop :=
  match rest with
  | c :: _ => p c = false
  | [] => True
  end.

(** Pattern syntax: a literal code unit, a literal under the [i] flag, a
    sequence, a literal text. *)
Definition chr (c : N) : regex := Chr (N.eqb c).
Definition chrI (c : N) : regex :=
  Chr (fun x => canonicalize x =? canonicalize c).
Definition seqs (rs : list regex) : regex := foldr Seq Eps rs.
Definition str (s : string) : regex := seqs (map chr (lit s)).
Definition strI (s : string) : regex := seqs (map chrI (lit s)).

(** The classes [[^\]]], [.] and [[-*]], and [\d{n}]. *)
Definition notRBracket (c : N) : bool := negb (c =? 93).
Definition dot (c : N) : bool := negb (isLineTerminator c).
Definition dashOrStar (c : N) : bool := (c =? 45) || (c =? 42).
Definition digits (n : nat) : regex := seqs (replicate n (Chr isDigit)).

End Regex.
Export Regex.

(** ** The data model ([src/types.ts]) *)

Module Types.

Inductive ChangelogCategory : Type :=
| Added | Changed | Deprecated | Removed | Fixed | Security.

#[global] Instance ChangelogCategory_eq_dec : EqDecision ChangelogCategory.
Proof. solve_decision. Defined.

Definition categoryIndex (c : ChangelogCategory) : nat :=
  match c with
  | Added => 0 | Changed => 1 | Deprecated => 2
  | Removed => 3 | Fixed => 4 | Security => 5
  end%nat.

Definition categoryOfIndex (n : nat) : ChangelogCategory :=
  match n with
  | 0 => Added | 1 => Changed | 2 => Deprecated
  | 3 => Removed | 4 => Fixed | _ => Security
  end%nat.

#[global] Instance ChangelogCategory_countable : Countable ChangelogCategory.
Proof.
  refine (inj_countable' categoryIndex categoryOfIndex _).
  intros c. destruct c; reflexivity.
Defined.

(** The string each member of the union type stands for. *)
Definition categoryName (c : ChangelogCategory) : jsstring :=
  match c with
  | Added => lit "Added"
  | Changed => lit "Changed"
  | Deprecated => lit "Deprecated"
  | Removed => lit "Removed"
  | Fixed => lit "Fixed"
  | Security => lit "Security"
  end.

(** A valid [Date], held as the UTC fields [toISOString] prints ([month] is
    the calendar month, 1 to 12). The command line only ever passes
    [new Date()]. *)
Record Date : Type := mkDate {
  year : Z;
  month : N;
  day : N;
  hours : N;
  minutes : N;
  seconds : N;
  milliseconds : N
}.

Record ChangelogEntry : Type := mkEntry {
  category : ChangelogCategory;
  entryDescription : jsstring;
  commits : list jsstring
}.

(** A [Date] object as [new Date(text)] yields it: one that holds a date, or
    the Invalid Date the runtime makes of a text that names none. *)
Inductive DateObject : Type :=
| ValidDate (d : Date)
| InvalidDate.

Record ChangelogVersion : Type := mkVersion {
  version : jsstring;
  date : option DateObject;
  entries : list ChangelogEntry
}.

Record ParsedChangelog : Type := mkParsed {
  title : jsstring;
  description : jsstring;
  versions : list ChangelogVersion
}.

(** [Record<ChangelogCategory, string[]>]: a key the object lacks reads as
    [undefined], which the formatter guards against. *)
Record AICategorizedChanges : Type := mkChanges {
  categories : gmap ChangelogCategory (list jsstring)
}.

End Types.
Export Types.

(** ** [Date] built-ins *)

Module JsDate.

(** [n] as exactly [w] decimal digits, zero padded. *)
Fixpoint pad (w : nat) (n : N) : jsstring :=
  match w with
  | O => []
  | S w' => pad w' (n / 10) ++ [48 + n mod 10]
  end.

(** [date.toISOString()]: [YYYY-MM-DDTHH:mm:ss.sssZ], the year with a sign and
    six digits outside 0..9999. *)
Definition toISOString (d : Date) : jsstring :=
  (if ((0 <=? year d) && (year d <=? 9999))%Z then pad 4 (Z.to_N (year d))
   else (if (year d <? 0)%Z then lit "-" else lit "+")
          ++ pad 6 (Z.to_N (Z.abs (year d))))
  ++ lit "-" ++ pad 2 (month d) ++ lit "-" ++ pad 2 (day d)
  ++ lit "T" ++ pad 2 (hours d) ++ lit ":" ++ pad 2 (minutes d)
  ++ lit ":" ++ pad 2 (seconds d) ++ lit "." ++ pad 3 (milliseconds d)
  ++ lit "Z".

(** The number a run of decimal digits denotes. *)
Definition digitsValue (s : jsstring) : N :=
  foldl (fun acc c => 10 * acc + (c - 48)) 0 s.

(** The Gregorian calendar, as [MakeDay] counts it. *)
Definition isLeapYear (y : N) : bool :=
  (y mod 4 =? 0) && (negb (y mod 100 =? 0) || (y mod 400 =? 0)).

Definition daysInMonth (y m : N) : N :=
  if m =? 2 then (if isLeapYear y then 29 else 28)
  else if (m =? 4) || (m =? 6) || (m =? 9) || (m =? 11) then 30
  else 31.

(** [new Date(text)] for a date-only text [YYYY-MM-DD] of digits, the only
    form the parser passes, as the runtime of the repository (Node) reads it:
    a month outside 01..12 or a day outside 01..31 gives an Invalid Date;
    otherwise the text names midnight UTC of that day, and a day past the end
    of its month is counted on into the next month ([2024-02-30] is the
    first of March). *)
Definition newDate (text : jsstring) : DateObject :=
  let y := digitsValue (take 4 text) in
  let m := digitsValue (take 2 (drop 5 text)) in
  let d := digitsValue (take 2 (drop 8 text)) in
  if (1 <=? m) && (m <=? 12) && (1 <=? d) && (d <=? 31) then
    let days := daysInMonth y m in
    if d <=? days then
      ValidDate {| year := Z.of_N y; month := m; day := d;
                   hours := 0; minutes := 0; seconds := 0; milliseconds := 0 |}
    else
      ValidDate {| year := Z.of_N y; month := m + 1; day := d - days;
                   hours := 0; minutes := 0; seconds := 0; milliseconds := 0 |}
  else InvalidDate.

(** The same day at midnight UTC: the date [new Date(formatDate(d))] names. *)
Definition utcMidnight (d : Date) : Date :=
  {| year := year d; month := month d; day := day d;
     hours := 0; minutes := 0; seconds := 0; milliseconds := 0 |}.

End JsDate.
Export JsDate.

(** ** The formatter ([src/changelog/formatter.ts]) *)

Module Formatter.

Definition CATEGORY_ORDER : list ChangelogCategory :=
  [Added; Changed; Deprecated; Removed; Fixed; Security].

(** [date.toISOString().split('T')[0]] *)
Definition formatDate (d : Date) : jsstring :=
  match split 84 (toISOString d) with
  | piece :: _ => piece
  | [] => []
  end.

(** An optional string argument is truthy when present and not empty. *)
Definition truthy (o : option jsstring) : bool :=
  match o with
  | Some (_ :: _) => true
  | _ => false
  end.

Definition formatEntry (entry : ChangelogEntry) (repoUrl : option jsstring)
  : jsstring :=
  let line := lit "- " ++ entryDescription entry in
  if (0 <? length (commits entry))%nat && truthy repoUrl then
    let links :=
      map (fun hash =>
             let shortHash := substringTo 7 hash in
             lit "[" ++ shortHash ++ lit "](" ++ default [] repoUrl
               ++ lit "/commit/" ++ hash ++ lit ")")
          (commits entry) in
    line ++ lit " (" ++ join (lit ", ") links ++ lit ")"
  else line.

(** The pieces one category pushes onto [sections]. *)
Definition categorySections (changes : AICategorizedChanges)
    (repoUrl : option jsstring) (cat : ChangelogCategory) : list jsstring :=
  match categories changes !! cat with
  | Some ((_ :: _) as descriptions) =>
      [lit "### " ++ categoryName cat ++ nl]
      ++ map (fun description =>
                formatEntry {| category := cat;
                               entryDescription := description;
                               commits := [] |} repoUrl)
             descriptions
      ++ [[]]
  | _ => []
  end.

Definition formatAIEntries (changes : AICategorizedChanges)
    (repoUrl : option jsstring) : jsstring :=
  let sections := flat_map (categorySections changes repoUrl) CATEGORY_ORDER in
  join nl sections.

Definition formatVersion (version : jsstring) (date : option Date)
    (changes : AICategorizedChanges) (repoUrl : option jsstring) : jsstring :=
  let header :=
    lit "## [" ++ version ++ lit "]"
    ++ match date with
       | Some d => lit " - " ++ formatDate d
       | None => []
       end in
  let entriesContent := formatAIEntries changes repoUrl in
  let lines :=
    [header; []]
    ++ (match trim entriesContent with
        | _ :: _ => [entriesContent]
        | [] => []
        end) in
  join nl lines.

Definition formatUnreleasedHeader : jsstring := lit "## [Unreleased]" ++ nl.

Definition createNewChangelog (version : jsstring) (date : Date)
    (changes : AICategorizedChanges) (repoUrl : option jsstring) : jsstring :=
  join nl
    [ lit "# Changelog";
      [];
      lit "All notable changes to this project will be documented in this file.";
      [];
      lit "The format is based on [Keep a Changelog](https://keepachangelog.com/en/1.1.0/),";
      lit "and this project adheres to [Semantic Versioning](https://semver.org/spec/v2.0.0.html).";
      [];
      formatUnreleasedHeader;
      [];
      formatVersion version (Some date) changes repoUrl ].

End Formatter.
Export Formatter.

(** ** The parser ([src/changelog/parser.ts]) *)

Module Parser.

(** [/^##\s+\[?([^\]]+)\]?(?:\s*-\s*|\s+)(\d{4}-\d{2}-\d{2})?/] *)
Definition VERSION_HEADER_REGEX : regex :=
  seqs [ str "##"; Plus isWhiteSpace; Opt (chr 91);
         Group 1 (Plus notRBracket); Opt (chr 93);
         Alt (seqs [Star isWhiteSpace; chr 45; Star isWhiteSpace])
             (Plus isWhiteSpace);
         Opt (Group 2 (seqs [digits 4; chr 45; digits 2; chr 45; digits 2])) ].

(** The part of the version pattern that follows the label. *)
Definition afterLabel : regex :=
  seqs [ Opt (chr 93);
         Alt (seqs [Star isWhiteSpace; chr 45; Star isWhiteSpace])
             (Plus isWhiteSpace);
         Opt (Group 2 (seqs [digits 4; chr 45; digits 2; chr 45; digits 2])) ].

(** Text with no white space and no [-]: nothing the separator of the
    version pattern can start on. *)
Definition inert (s : jsstring) : Prop :=
  Forall (fun c => isWhiteSpace c = false /\ c <> 45) s.

(** [/^###\s+(.+)$/] *)
Definition CATEGORY_HEADER_REGEX : regex :=
  seqs [ str "###"; Plus isWhiteSpace; Group 1 (Plus dot); EndOfInput ].

(** [/^[-*]\s+(.+)$/] *)
Definition ENTRY_REGEX : regex :=
  seqs [ Chr dashOrStar; Plus isWhiteSpace; Group 1 (Plus dot); EndOfInput ].

Definition VALID_CATEGORIES : list ChangelogCategory :=
  [Added; Changed; Deprecated; Removed; Fixed; Security].

(** What evaluating an expression yields: a value, or a thrown [TypeError]
    (a method called on [undefined]). *)
Inductive outcome (A : Type) : Type :=
| Returns (a : A)
| ThrowsTypeError.
Arguments Returns {A} a.
Arguments ThrowsTypeError {A}.

Definition bind {A B : Type} (m : outcome A) (f : A -> outcome B) : outcome B :=
  match m with
  | Returns a => f a
  | ThrowsTypeError => ThrowsTypeError
  end.

Notation "'let*' x ':=' m 'in' f" := (bind m (fun x => f))
  (at level 10, x name, m at level 100, f at level 200).

(** [match[n].trim()]: throws when group [n] took no part in the match. *)
Definition groupTrim (m : captures) (n : nat) : outcome jsstring :=
  match m !! n with
  | Some text => Returns (trim text)
  | None => ThrowsTypeError
  end.

(** [VALID_CATEGORIES.find(cat => cat.toLowerCase() === raw.toLowerCase())] *)
Definition findCategory (rawCategoryName : jsstring) : option ChangelogCategory :=
  List.find
    (fun cat =>
       jsstring_eqb (toLowerCase (categoryName cat)) (toLowerCase rawCategoryName))
    VALID_CATEGORIES.

(** The variables the loop of [parseChangelog] mutates. *)
Record ParseState : Type := mkState {
  st_title : jsstring;
  st_description : jsstring;
  st_versions : list ChangelogVersion;
  currentVersion : option ChangelogVersion;
  currentCategory : option ChangelogCategory;
  inPreamble : bool;
  preambleLines : list jsstring
}.

Definition initialState : ParseState :=
  {| st_title := lit "Changelog";
     st_description := [];
     st_versions := [];
     currentVersion := None;
     currentCategory := None;
     inPreamble := true;
     preambleLines := [] |}.

(** [versionMatch[2] ? new Date(versionMatch[2]) : null] *)
Definition matchedDate (m : captures) : option DateObject :=
  match m !! 2%nat with
  | Some ((_ :: _) as text) => Some (newDate text)
  | _ => None
  end.

(** [title = ...; inPreamble = true] *)
Definition setTitle (text : jsstring) (st : ParseState) : ParseState :=
  {| st_title := text;
     st_description := st_description st;
     st_versions := st_versions st;
     currentVersion := currentVersion st;
     currentCategory := currentCategory st;
     inPreamble := true;
     preambleLines := preambleLines st |}.

(** The version-header rule: push the open version, settle the description
    on leaving the preamble, open a fresh version, forget the category. *)
Definition openVersion (label : jsstring) (date : option DateObject)
    (st : ParseState)
  : ParseState :=
  {| st_title := st_title st;
     st_description :=
       if inPreamble st then trim (join nl (preambleLines st))
       else st_description st;
     st_versions :=
       match currentVersion st with
       | Some v => st_versions st ++ [v]
       | None => st_versions st
       end;
     currentVersion :=
       Some {| version := label; date := date; entries := [] |};
     currentCategory := None;
     inPreamble := false;
     preambleLines := preambleLines st |}.

(** [currentCategory = matchedCategory] *)
Definition setCurrentCategory (cat : ChangelogCategory) (st : ParseState)
  : ParseState :=
  {| st_title := st_title st;
     st_description := st_description st;
     st_versions := st_versions st;
     currentVersion := currentVersion st;
     currentCategory := Some cat;
     inPreamble := inPreamble st;
     preambleLines := preambleLines st |}.

(** [currentVersion.entries.push(entry)], [v] being the open version. *)
Definition pushEntry (v : ChangelogVersion) (entry : ChangelogEntry)
    (st : ParseState) : ParseState :=
  {| st_title := st_title st;
     st_description := st_description st;
     st_versions := st_versions st;
     currentVersion :=
       Some {| version := version v;
               date := date v;
               entries := entries v ++ [entry] |};
     currentCategory := currentCategory st;
     inPreamble := inPreamble st;
     preambleLines := preambleLines st |}.

(** The last rule of the loop body: collect preamble text. *)
Definition collectPreamble (line : jsstring) (st : ParseState) : ParseState :=
  match inPreamble st, trim line with
  | true, _ :: _ =>
      {| st_title := st_title st;
         st_description := st_description st;
         st_versions := st_versions st;
         currentVersion := currentVersion st;
         currentCategory := currentCategory st;
         inPreamble := inPreamble st;
         preambleLines := preambleLines st ++ [line] |}
  | _, _ => st
  end.

(** One iteration of the loop, on line [i]. *)
Definition parseLine (i : nat) (line : jsstring) (st : ParseState)
  : outcome ParseState :=
  if startsWith (lit "# ") line && (i <? 5)%nat then
    Returns (setTitle (trim (substringFrom 2 line)) st)
  else
    match exec VERSION_HEADER_REGEX line with
    | Some versionMatch =>
        let* label := groupTrim versionMatch 1 in
        Returns (openVersion label (matchedDate versionMatch) st)
    | None =>
        match exec CATEGORY_HEADER_REGEX line, currentVersion st with
        | Some categoryMatch, Some _ =>
            let* rawCategoryName := groupTrim categoryMatch 1 in
            match findCategory rawCategoryName with
            | Some matchedCategory =>
                Returns (setCurrentCategory matchedCategory st)
            | None => Returns st
            end
        | _, _ =>
            match exec ENTRY_REGEX line, currentVersion st, currentCategory st with
            | Some entryMatch, Some v, Some cat =>
                let* text := groupTrim entryMatch 1 in
                Returns (pushEntry v {| category := cat;
                                        entryDescription := text;
                                        commits := [] |} st)
            | _, _, _ => Returns (collectPreamble line st)
            end
        end
    end.

(** The loop from index [i] on. *)
Fixpoint parseLines (lines : list jsstring) (i : nat) (st : ParseState)
  : outcome ParseState :=
  match lines with
  | [] => Returns st
  | line :: rest =>
      let* st' := parseLine i line st in
      parseLines rest (S i) st'
  end.

Definition parseChangelog (content : jsstring) : outcome ParsedChangelog :=
  let lines := split LF content in
  let* st := parseLines lines 0 initialState in
  Returns {| title := st_title st;
             description := st_description st;
             versions :=
               match currentVersion st with
               | Some v => st_versions st ++ [v]
               | None => st_versions st
               end |}.

End Parser.
Export Parser.

(** ** The writer ([src/changelog/writer.ts]) *)

Module Writer.

(** [/^##\s+\[?Unreleased\]?/i] *)
Definition UNRELEASED_REGEX : regex :=
  seqs [ str "##"; Plus isWhiteSpace; Opt (chr 91); strI "Unreleased";
         Opt (chr 93) ].

(** [/^##\s+\[?[^\]]+\]?/] *)
Definition NEXT_VERSION_REGEX : regex :=
  seqs [ str "##"; Plus isWhiteSpace; Opt (chr 91); Plus notRBracket;
         Opt (chr 93) ].

(** Names for the three tests the scans apply to a line. *)
Definition isUnreleasedHeader (line : jsstring) : bool :=
  test UNRELEASED_REGEX line.
Definition isVersionHeader (line : jsstring) : bool :=
  test NEXT_VERSION_REGEX line.
Definition isSecondLevel (line : jsstring) : bool :=
  startsWith (lit "## ") line.

(** The first loop of [insertVersion], from index [i] on: the value
    [insertIndex] has when the loop ends. *)
Fixpoint scanInsertIndex (lines : list jsstring) (i : Z) (foundUnreleased : bool)
  : Z :=
  match lines with
  | [] => -1
  | line :: rest =>
      if test UNRELEASED_REGEX line then scanInsertIndex rest (i + 1) true
      else if foundUnreleased && test NEXT_VERSION_REGEX line then i
      else if startsWith (lit "## ") line && negb foundUnreleased then i
      else scanInsertIndex rest (i + 1) foundUnreleased
  end%Z.

(** The second loop: the first line that starts with ["## "]. *)
Fixpoint scanPreambleEnd (lines : list jsstring) (i : Z) : Z :=
  match lines with
  | [] => -1
  | line :: rest =>
      if startsWith (lit "## ") line then i else scanPreambleEnd rest (i + 1)
  end%Z.

(** The insertion point [insertVersion] settles on. *)
Definition insertIndex (lines : list jsstring) : Z :=
  let found := scanInsertIndex lines 0 false in
  if (found =? -1)%Z then
    let fallback := scanPreambleEnd lines 0 in
    if (fallback =? -1)%Z then Z.of_nat (length lines) else fallback
  else found.

(** [lines.slice(0, n)] and [lines.slice(n)] for [0 <= n]. *)
Definition sliceTo {A : Type} (n : Z) (l : list A) : list A := take (Z.to_nat n) l.
Definition sliceFrom {A : Type} (n : Z) (l : list A) : list A := drop (Z.to_nat n) l.

Definition insertVersion (existingContent version : jsstring) (date : Date)
    (changes : AICategorizedChanges) (repoUrl : option jsstring) : jsstring :=
  let lines := split LF existingContent in
  let newVersionContent := formatVersion version (Some date) changes repoUrl in
  let idx := insertIndex lines in
  let resultLines :=
    sliceTo idx lines ++ [newVersionContent; []] ++ sliceFrom idx lines in
  join nl resultLines.

(** The loop of [updateUnreleasedSection]: the final
    [(unreleasedStart, unreleasedEnd)]. *)
Fixpoint scanUnreleased (lines : list jsstring) (i unreleasedStart : Z) : Z * Z :=
  match lines with
  | [] => (unreleasedStart, -1)
  | line :: rest =>
      if test UNRELEASED_REGEX line then scanUnreleased rest (i + 1) i
      else if negb (unreleasedStart =? -1) && test NEXT_VERSION_REGEX line
           then (unreleasedStart, i)
      else scanUnreleased rest (i + 1) unreleasedStart
  end%Z.

Definition updateUnreleasedSection (existingContent : jsstring)
    (changes : AICategorizedChanges) : jsstring :=
  let lines := split LF existingContent in
  let '(unreleasedStart, unreleasedEnd0) := scanUnreleased lines 0 (-1) in
  if (unreleasedStart =? -1)%Z then existingContent
  else
    let unreleasedEnd :=
      if (unreleasedEnd0 =? -1)%Z then Z.of_nat (length lines)
      else unreleasedEnd0 in
    let newUnreleasedContent :=
      formatVersion (lit "Unreleased") None changes None in
    join nl
      (sliceTo unreleasedStart lines ++ [newUnreleasedContent; []]
       ++ sliceFrom unreleasedEnd lines).

(** The files the writer sees: a path either names a text file or nothing
    ([existsSync]). A file is held as the string [readFileSync(path, 'utf-8')]
    returns for it. *)
Abbreviation fileSystem := (gmap jsstring jsstring).

(** [writeFileSync(filePath, content, 'utf-8')]: the file holds the UTF-8
    encoding of [content], which reads back as [content] with every lone
    surrogate replaced by U+FFFD. *)
Definition writeFileSync (fs : fileSystem) (filePath content : jsstring)
  : fileSystem :=
  <[filePath := toWellFormed content]> fs.

Definition writeChangelog (fs : fileSystem) (filePath version : jsstring)
    (date : Date) (changes : AICategorizedChanges) (repoUrl : option jsstring)
  : fileSystem :=
  let content :=
    match fs !! filePath with
    | Some existingContent =>
        insertVersion existingContent version date changes repoUrl
    | None => createNewChangelog version date changes repoUrl
    end in
  writeFileSync fs filePath content.

Definition previewChangelog (fs : fileSystem) (filePath version : jsstring)
    (date : Date) (changes : AICategorizedChanges) (repoUrl : option jsstring)
  : jsstring :=
  match fs !! filePath with
  | Some existingContent =>
      insertVersion existingContent version date changes repoUrl
  | None => createNewChangelog version date changes repoUrl
  end.

End Writer.
Export Writer.

(** ** Vocabulary of the round trip

    The inputs on which rendering a version and parsing it again is compared,
    and the parser state inside the one version section of a rendered block. *)

Module RoundTrip.

(** No white space at either end. *)
Definition isTrimmed (s : jsstring) : bool := jsstring_eqb (trim s) s.

(** A label the header pattern reads back whole: not empty, no [\]], no
    line feed, no white space at the ends. *)
Definition labelOk (label : jsstring) : bool :=
  match label with
  | [] => false
  | _ :: _ =>
      forallb (fun c => notRBracket c && negb (c =? LF)) label
      && isTrimmed label
  end.

(** A description the bullet pattern reads back whole: not empty, on one
    line, no white space at the ends. *)
Definition descriptionOk (text : jsstring) : bool :=
  match text with
  | [] => false
  | _ :: _ => forallb dot text && isTrimmed text
  end.

(** The descriptions listed under a category; none for a missing key. *)
Definition listed (changes : AICategorizedChanges) (cat : ChangelogCategory)
  : list jsstring :=
  default [] (categories changes !! cat).

Definition changesOk (changes : AICategorizedChanges) : bool :=
  forallb (fun cat => forallb descriptionOk (listed changes cat))
          CATEGORY_ORDER.

(** A date [toISOString] prints with a four-digit year: a day of the
    calendar, in a year from 0 to 9999. *)
Definition dateOk (d : Date) : bool :=
  (0 <=? year d)%Z && (year d <=? 9999)%Z
  && (1 <=? month d) && (month d <=? 12)
  && (1 <=? day d) && (day d <=? daysInMonth (Z.to_N (year d)) (month d)).

(** The input's descriptions as entries, category by category. *)
Definition groupedEntries (changes : AICategorizedChanges)
    (cats : list ChangelogCategory) : list ChangelogEntry :=
  flat_map
    (fun cat =>
       map (fun text => {| category := cat;
                           entryDescription := text;
                           commits := [] |})
           (listed changes cat))
    cats.

(** The loop variables inside the version section of a rendered block. *)
Definition inVersion (label : jsstring) (date : option DateObject)
    (es : list ChangelogEntry) (cat : option ChangelogCategory) : ParseState :=
  {| st_title := lit "Changelog";
     st_description := [];
     st_versions := [];
     currentVersion := Some {| version := label; date := date; entries := es |};
     currentCategory := cat;
     inPreamble := false;
     preambleLines := [] |}.

End RoundTrip.
Export RoundTrip.

(** ** Sample inputs *)

Module Samples.

Definition jan15 : Date :=
  {| year := 2024; month := 1; day := 15;
     hours := 9; minutes := 30; seconds := 0; milliseconds := 0 |}.

Definition changes1 : AICategorizedChanges :=
  {| categories :=
       <[Added := [lit "Add login"; lit "Add dark mode"]]>
       (<[Changed := []]> (<[Fixed := [lit "Fix crash on start"]]> ∅)) |}.

(** A second-level heading above the Unreleased header. *)
Definition docHeadingAboveUnreleased : jsstring :=
  lit "# Changelog" ++ nl
  ++ lit "## Notes" ++ nl
  ++ lit "## [Unreleased]" ++ nl
  ++ lit "## [1.0.0] - 2024-01-01".

(** An Unreleased section with no version below it. *)
Definition docUnreleasedOnly : jsstring :=
  lit "# Changelog" ++ nl
  ++ [] ++ nl
  ++ lit "## [Unreleased]" ++ nl
  ++ lit "- pending change".

(** An Unreleased header written with a tab, and no other heading. *)
Definition docUnreleasedTab : jsstring :=
  lit "# Changelog" ++ nl
  ++ lit "##	[Unreleased]" ++ nl
  ++ lit "- pending change".

(** An Unreleased header written with a tab, above one written with a
    space. *)
Definition docTwoUnreleased : jsstring :=
  lit "##	[Unreleased]" ++ nl
  ++ lit "- pending change" ++ nl
  ++ lit "## [Unreleased]" ++ nl
  ++ lit "- more".

(** The usual shape: title, Unreleased, one release, reference links. *)
Definition docWithRelease : jsstring :=
  lit "# Changelog" ++ nl
  ++ [] ++ nl
  ++ lit "## [Unreleased]" ++ nl
  ++ [] ++ nl
  ++ lit "## [1.0.0] - 2024-01-01" ++ nl
  ++ [] ++ nl
  ++ lit "[1.0.0]: https://example.com/releases/tag/1.0.0".

(** A document with one release and no Unreleased header. *)
Definition docReleaseOnly : jsstring :=
  lit "# Changelog" ++ nl
  ++ [] ++ nl
  ++ lit "## [1.0.0] - 2024-01-01" ++ nl
  ++ lit "### Added" ++ nl
  ++ lit "- First release".

(** A top-level heading below a version header, on the fourth line. *)
Definition docLateTitle : jsstring :=
  lit "## [1.0.0] - 2024-01-01" ++ nl
  ++ lit "### Added" ++ nl
  ++ lit "- First release" ++ nl
  ++ lit "# Late title".

(** A heading outside the six categories between two recognised ones. *)
Definition docMiscHeading : jsstring :=
  lit "## [1.0.0] - 2024-01-01" ++ nl
  ++ lit "### Added" ++ nl
  ++ lit "- Add login" ++ nl
  ++ lit "### Miscellaneous" ++ nl
  ++ lit "- Tidy the build" ++ nl
  ++ lit "### fixed" ++ nl
  ++ lit "- Fix crash".

(** A release heading as the formatter writes it when there is no date. *)
Definition docBareHeader : jsstring := lit "## [1.0.0]".

Definition jan01 : Date :=
  {| year := 2024; month := 1; day := 1;
     hours := 0; minutes := 0; seconds := 0; milliseconds := 0 |}.

(** The parser state inside version 1.0.0, under "Added", one entry in. *)
Definition stateUnderAdded : ParseState :=
  {| st_title := lit "Changelog";
     st_description := [];
     st_versions := [];
     currentVersion :=
       Some {| version := lit "1.0.0";
               date := Some (ValidDate jan01);
               entries := [ {| category := Added;
                               entryDescription := lit "Add login";
                               commits := [] |} ] |};
     currentCategory := Some Added;
     inPreamble := false;
     preambleLines := [] |}.

(** A description with a space at its end. *)
Definition changesPadded : AICategorizedChanges :=
  {| categories := <[Added := [lit "Add login "]]> ∅ |}.

Definition block110 : jsstring :=
  formatVersion (lit "1.1.0") (Some jan15) changes1 None.

End Samples.

(** ** The rest of the parser module ([src/changelog/parser.ts]) *)

Module Reader.

(** [loadChangelog]: [null] for an absent file, and for a parse that throws
    (the [catch]). The files are the finite map the writer uses. *)
Definition loadChangelog (fs : gmap jsstring jsstring) (filePath : jsstring)
  : option ParsedChangelog :=
  match fs !! filePath with
  | None => None
  | Some content =>
      match parseChangelog content with
      | Returns changelog => Some changelog
      | ThrowsTypeError => None
      end
  end.

(** [v.version.toLowerCase() !== 'unreleased'] *)
Definition isReleased (v : ChangelogVersion) : bool :=
  negb (jsstring_eqb (toLowerCase (version v)) (lit "unreleased")).

(** [releasedVersions[0] || null] *)
Definition getLatestVersion (changelog : ParsedChangelog)
  : option ChangelogVersion :=
  let releasedVersions := List.filter isReleased (versions changelog) in
  head releasedVersions.

(** [latest?.date || null] *)
Definition getLatestVersionDate (changelog : ParsedChangelog)
  : option DateObject :=
  match getLatestVersion changelog with
  | Some latest => date latest
  | None => None
  end.

End Reader.
Export Reader.

(** ** The rest of the formatter module ([src/changelog/formatter.ts]) *)

Module Links.

(** The loop of [generateCompareLinks]: one line per pair of neighbours. *)
Fixpoint compareLines (versions : list jsstring) (repoUrl : jsstring)
  : list jsstring :=
  match versions with
  | current :: ((previous :: _) as rest) =>
      (lit "[" ++ current ++ lit "]: " ++ repoUrl ++ lit "/compare/"
         ++ previous ++ lit "..." ++ current)
      :: compareLines rest repoUrl
  | _ => []
  end.

Definition generateCompareLinks (versions : list jsstring) (repoUrl : jsstring)
  : jsstring :=
  if negb (truthy (Some repoUrl)) || (length versions <? 2)%nat then []
  else
    let lastVersion := default [] (last versions) in
    join nl
      (compareLines versions repoUrl
       ++ [lit "[" ++ lastVersion ++ lit "]: " ++ repoUrl
             ++ lit "/releases/tag/" ++ lastVersion]).

End Links.
Export Links.

(** ** Commits ([src/git/commits.ts]) *)

Module Commits.

(** [CommitInfo], over the type [D] of what [new Date(text)] yields for the
    date text git prints: the runtime's date parser is a parameter. *)
Record CommitInfo (D : Type) : Type := mkCommit {
  hash : jsstring;
  shortHash : jsstring;
  author : jsstring;
  commitDate : D;
  subject : jsstring;
  body : jsstring;
  files : list jsstring;
  diff : jsstring
}.
Arguments mkCommit {D}.
Arguments hash {D}.
Arguments shortHash {D}.
Arguments author {D}.
Arguments commitDate {D}.
Arguments subject {D}.
Arguments body {D}.
Arguments files {D}.
Arguments diff {D}.

Definition parseCommitLog {D : Type} (newDateOf : jsstring -> D)
    (hash author date message : jsstring) (files : list jsstring)
    (diff : jsstring) : CommitInfo D :=
  let lines := split LF message in
  let subject :=
    match lines with
    | (_ :: _) as first :: _ => first
    | _ => []
    end in
  let body := trim (join nl (drop 1 lines)) in
  {| hash := hash;
     shortHash := substringTo 7 hash;
     author := author;
     commitDate := newDateOf date;
     subject := subject;
     body := body;
     files := files;
     diff := diff |}.

Definition diffTruncatedMarker : jsstring := lit "... (diff truncated for length)".
Definition hunkTruncatedMarker : jsstring := lit "... (hunk truncated)".

(** The lines [truncateDiff] always tries to keep. *)
Definition isDiffHeader (line : jsstring) : bool :=
  startsWith (lit "diff --git") line
  || startsWith (lit "---") line
  || startsWith (lit "+++") line
  || startsWith (lit "@@") line.

(** The loop of [truncateDiff] over the remaining lines, carrying [result],
    [currentLength], [inHunk] and [hunkLines]; [maxHunkLines] is 20. *)
Fixpoint truncateLoop (maxLength : Z) (lines result : list jsstring)
    (currentLength : Z) (inHunk : bool) (hunkLines : Z) : list jsstring :=
  match lines with
  | [] => result
  | line :: rest =>
      if isDiffHeader line then
        if (currentLength + Z.of_nat (length line) + 1 >? maxLength - 100)%Z
        then result ++ [diffTruncatedMarker]
        else
          truncateLoop maxLength rest (result ++ [line])
            (currentLength + Z.of_nat (length line) + 1)
            (startsWith (lit "@@") line) 0
      else if inHunk then
        let hunkLines' := (hunkLines + 1)%Z in
        if (hunkLines' <=? 20)%Z then
          if (currentLength + Z.of_nat (length line) + 1 >? maxLength - 100)%Z
          then result ++ [diffTruncatedMarker]
          else
            truncateLoop maxLength rest (result ++ [line])
              (currentLength + Z.of_nat (length line) + 1) inHunk hunkLines'
        else if (hunkLines' =? 20 + 1)%Z then
          truncateLoop maxLength rest (result ++ [hunkTruncatedMarker])
            (currentLength + 20) inHunk hunkLines'
        else truncateLoop maxLength rest result currentLength inHunk hunkLines'
      else truncateLoop maxLength rest result currentLength inHunk hunkLines
  end.

(** The array [result] when the loop of [truncateDiff] ends. *)
Definition truncatedLines (diff : jsstring) (maxLength : Z) : list jsstring :=
  truncateLoop maxLength (split LF diff) [] 0 false 0.

(** [truncateDiff(diff, maxLength)] for an integer [maxLength]; the one call
    in the repository leaves it at its default, 4000. *)
Definition truncateDiff (diff : jsstring) (maxLength : Z) : jsstring :=
  if (Z.of_nat (length diff) <=? maxLength)%Z then diff
  else join nl (truncatedLines diff maxLength).

End Commits.
Export Commits.

(** ** The remote URL ([src/git/analyzer.ts]) *)

Module Remote.

(** An entry of what [git.getRemotes(true)] resolves to. *)
Record RemoteWithRefs : Type := mkRemote {
  remoteName : jsstring;
  refsFetch : jsstring;
  refsPush : jsstring
}.

(** [s.replace(pattern, replacement)] for a string pattern and a replacement
    without [$]: the first occurrence only. *)
Fixpoint replaceFirst (pattern replacement s : jsstring) : jsstring :=
  if startsWith pattern s then replacement ++ drop (length pattern) s
  else match s with
       | [] => []
       | c :: s' => c :: replaceFirst pattern replacement s'
       end.

(** [url.replace(/\.git$/, '')] *)
Definition stripGitSuffix (url : jsstring) : jsstring :=
  match rev url with
  | 116 :: 105 :: 103 :: 46 :: front => rev front
  | _ => url
  end.

(** [getRepoUrl], given what [getRemotes] yields: [None] when the call
    rejects, which the [catch] turns into [null]. *)
Definition getRepoUrl (remotes : option (list RemoteWithRefs))
  : option jsstring :=
  match remotes with
  | None => None
  | Some remotes =>
      match List.find (fun r => jsstring_eqb (remoteName r) (lit "origin"))
                      remotes with
      | None => None
      | Some origin =>
          match refsFetch origin with
          | [] => None
          | _ :: _ =>
              let url := refsFetch origin in
              let url :=
                if startsWith (lit "git@") url
                then replaceFirst (lit ":") (lit "/")
                       (replaceFirst (lit "git@") (lit "https://") url)
                else url in
              Some (stripGitSuffix url)
          end
      end
  end.

End Remote.
Export Remote.

(** ** Vocabulary of the further properties

    The shapes the further properties speak of: the lines of a rendered
    block, the lines the scans pass over, what the header pattern reads off a
    line, and the cost of a line in a joined text. *)

Module Shapes.

(** A text without a line feed. *)
Definition oneLine (text : jsstring) : bool :=
  forallb (fun c => negb (c =? LF)) text.

(** The first line of a rendered block. *)
Definition headerLine (label : jsstring) (date : option Date) : jsstring :=
  lit "## [" ++ label ++ lit "]"
  ++ match date with
     | Some d => lit " - " ++ formatDate d
     | None => []
     end.

(** The lines a category takes in a rendered block: none without a
    description. *)
Definition categoryLines (changes : AICategorizedChanges)
    (cat : ChangelogCategory) : list jsstring :=
  match listed changes cat with
  | [] => []
  | _ :: _ =>
      [lit "### " ++ categoryName cat; []]
      ++ map (fun text => lit "- " ++ text) (listed changes cat)
      ++ [[]]
  end.

Definition changesOneLine (changes : AICategorizedChanges) : bool :=
  forallb (fun cat => forallb oneLine (listed changes cat)) CATEGORY_ORDER.

(** A line the scan of [updateUnreleasedSection] passes over once an
    Unreleased header is found, and a line it stops at. *)
Definition isSectionLine (line : jsstring) : bool :=
  negb (isUnreleasedHeader line) && negb (isVersionHeader line).
Definition isNextVersion (line : jsstring) : bool :=
  negb (isUnreleasedHeader line) && isVersionHeader line.
Definition startsWithNextVersion (lines : list jsstring) : bool :=
  match lines with
  | [] => true
  | line :: _ => isNextVersion line
  end.

(** What the version-header rule reads off a line: label and date. *)
Definition isParsedHeader (line : jsstring) : bool :=
  test VERSION_HEADER_REGEX line.

Definition headerOf (line : jsstring) : jsstring * option DateObject :=
  match exec VERSION_HEADER_REGEX line with
  | Some m =>
      (match groupTrim m 1 with
       | Returns label => label
       | ThrowsTypeError => []
       end,
       matchedDate m)
  | None => ([], None)
  end.

(** Label and date of a parsed version. *)
Definition versionKey (v : ChangelogVersion)
  : jsstring * option DateObject :=
  (version v, date v).

(** The versions the loop has opened so far, the open one last. *)
Definition openedVersions (st : ParseState) : list ChangelogVersion :=
  match currentVersion st with
  | Some v => st_versions st ++ [v]
  | None => st_versions st
  end.

(** No white space at the ends of the strings of a version, or of those the
    loop holds. *)
Definition versionTrimmed (v : ChangelogVersion) : Prop :=
  trim (version v) = version v
  /\ Forall (fun e => trim (entryDescription e) = entryDescription e)
            (entries v).

Definition stateTrimmed (st : ParseState) : Prop :=
  trim (st_title st) = st_title st
  /\ trim (st_description st) = st_description st
  /\ Forall versionTrimmed (openedVersions st).

(** The loop variables inside an open version section, the rest as in
    [base]. *)
Definition inVersionOf (base : ParseState) (label : jsstring)
    (date : option DateObject) (es : list ChangelogEntry)
    (cat : option ChangelogCategory) : ParseState :=
  {| st_title := st_title base;
     st_description := st_description base;
     st_versions := st_versions base;
     currentVersion := Some {| version := label; date := date; entries := es |};
     currentCategory := cat;
     inPreamble := inPreamble base;
     preambleLines := preambleLines base |}.

(** The text [createNewChangelog] writes above the version block. *)
Definition newChangelogHead : list jsstring :=
  [ lit "# Changelog";
    [];
    lit "All notable changes to this project will be documented in this file.";
    [];
    lit "The format is based on [Keep a Changelog](https://keepachangelog.com/en/1.1.0/),";
    lit "and this project adheres to [Semantic Versioning](https://semver.org/spec/v2.0.0.html).";
    [];
    lit "## [Unreleased]";
    [];
    [] ].

(** The loop variables once the parser has read those lines. *)
Definition newChangelogPreamble : ParseState :=
  {| st_title := lit "Changelog";
     st_description := [];
     st_versions := [];
     currentVersion := None;
     currentCategory := None;
     inPreamble := true;
     preambleLines :=
       [ lit "All notable changes to this project will be documented in this file.";
         lit "The format is based on [Keep a Changelog](https://keepachangelog.com/en/1.1.0/),";
         lit "and this project adheres to [Semantic Versioning](https://semver.org/spec/v2.0.0.html).";
         lit "## [Unreleased]" ] |}.

(** The description the parser reads from it. *)
Definition newChangelogDescription : jsstring :=
  lit "All notable changes to this project will be documented in this file."
  ++ nl
  ++ lit "The format is based on [Keep a Changelog](https://keepachangelog.com/en/1.1.0/),"
  ++ nl
  ++ lit "and this project adheres to [Semantic Versioning](https://semver.org/spec/v2.0.0.html)."
  ++ nl
  ++ lit "## [Unreleased]".

(** What a line adds to the length of the joined text: itself and one line
    feed. *)
Definition joinedCost (lines : list jsstring) : Z :=
  foldr (fun line total => (Z.of_nat (length line) + 1 + total)%Z) 0%Z lines.

(** One of the two lines [truncateDiff] writes itself. *)
Definition isTruncationMarker (line : jsstring) : bool :=
  jsstring_eqb line diffTruncatedMarker || jsstring_eqb line hunkTruncatedMarker.

(** Descriptions without a lone surrogate. *)
Definition changesWellFormed (changes : AICategorizedChanges) : bool :=
  forallb (fun cat => forallb isWellFormed (listed changes cat)) CATEGORY_ORDER.

(** The lines of [result] that are not one of the two markers. *)
Definition keptLines (result : list jsstring) : list jsstring :=
  List.filter (fun line => negb (isTruncationMarker line)) result.

End Shapes.
Export Shapes.

(** ** Further sample inputs *)

Module Scenarios.

Import Samples.

Definition feb01 : Date :=
  {| year := 2024; month := 2; day := 1;
     hours := 0; minutes := 0; seconds := 0; milliseconds := 0 |}.

Definition changes2 : AICategorizedChanges :=
  {| categories := <[Fixed := [lit "Fix typo"]]> ∅ |}.

(** A document without any second-level heading. *)
Definition docNotes : jsstring :=
  lit "# Changelog" ++ nl
  ++ [] ++ nl
  ++ lit "Release notes live here.".

Definition changelogPath : jsstring := lit "CHANGELOG.md".

Definition release110 : ChangelogVersion :=
  {| version := lit "1.1.0"; date := Some (ValidDate (utcMidnight jan15)); entries := [] |}.

(** A parsed document whose first two sections are Unreleased ones. *)
Definition parsedWithUnreleased : ParsedChangelog :=
  {| title := lit "Changelog";
     description := [];
     versions :=
       [ {| version := lit "Unreleased"; date := None; entries := [] |};
         {| version := lit "UNRELEASED"; date := None; entries := [] |};
         release110;
         {| version := lit "1.0.0"; date := None; entries := [] |} ] |}.

Definition diffSample : jsstring :=
  lit "diff --git a/x b/x" ++ nl
  ++ lit "--- a/x" ++ nl
  ++ lit "+++ b/x" ++ nl
  ++ lit "@@ -1 +1 @@" ++ nl
  ++ lit "-old" ++ nl
  ++ lit "+new".

(** Text without any header line of a diff. *)
Definition proseSample : jsstring :=
  lit "just some text" ++ nl ++ lit "and some more".

(** Ninety-five hunks of twenty-one empty lines and one long line. *)
Definition manyHunks : jsstring :=
  concat
    (replicate 95
       (lit "@@" ++ nl ++ replicate 21 LF
        ++ lit "xxxxxxxxxxxxxxxxxxxxxxxxxxxxxxxxxxxxxxxx" ++ nl)).

(** A description cut in the middle of a surrogate pair. *)
Definition changesLoneSurrogate : AICategorizedChanges :=
  {| categories := <[Added := [lit "Add emoji " ++ [55357]]]> ∅ |}.

(** The same description with U+FFFD in place of the lone surrogate. *)
Definition changesReplaced : AICategorizedChanges :=
  {| categories := <[Added := [lit "Add emoji " ++ [65533]]]> ∅ |}.

(** A header whose date text names the thirtieth of February, and one whose
    month is 13. *)
Definition docFebruary30 : jsstring := lit "## [1.0.0] - 2024-02-30".
Definition docMonth13 : jsstring := lit "## [1.0.0] - 2024-13-01".

Definition sshOrigin : RemoteWithRefs :=
  {| remoteName := lit "origin";
     refsFetch := lit "git@github.com:owner/repo.git";
     refsPush := lit "git@github.com:owner/repo.git" |}.

Definition httpsOrigin : RemoteWithRefs :=
  {| remoteName := lit "origin";
     refsFetch := lit "https://github.com/owner/repo.git";
     refsPush := lit "https://github.com/owner/repo.git" |}.

Definition upstream : RemoteWithRefs :=
  {| remoteName := lit "upstream";
     refsFetch := lit "https://github.com/other/repo.git";
     refsPush := lit "https://github.com/other/repo.git" |}.

End Scenarios.

(** * Properties *)

(** ** Lines: [split] and [join] *)

Section Lines.

Lemma split_nonempty sep s : split sep s <> [].
Proof.
  destruct s as [|c s]; simpl; [discriminate|].
  destruct (c =? sep); [discriminate|].
  destruct (split sep s); discriminate.
Qed.

(** Splitting around a separator splits both sides. *)
Lemma split_app_sep sep a b :
  split sep (a ++ sep :: b) = split sep a ++ split sep b.
Proof.
  induction a as [|c a IH]; simpl.
  - rewrite N.eqb_refl. reflexivity.
  - destruct (c =? sep); [now rewrite IH|].
    rewrite IH. pose proof (split_nonempty sep a) as Hne.
    destruct (split sep a); [contradiction|reflexivity].
Qed.

Lemma split_no_sep sep s : sep ∉ s -> split sep s = [s].
Proof.
  induction s as [|c s IH]; intros Hnot; simpl; [reflexivity|].
  destruct (N.eqb_spec c sep) as [->|Hne].
  - exfalso. apply Hnot. left.
  - rewrite IH; [reflexivity|]. intros Hin. apply Hnot. now right.
Qed.

(** No piece of a split holds the separator. *)
Lemma split_pieces_no_sep sep s piece :
  piece ∈ split sep s -> sep ∉ piece.
Proof.
  revert piece. induction s as [|c s IH]; simpl; intros piece Hin.
  - apply list_elem_of_singleton in Hin. subst. apply not_elem_of_nil.
  - destruct (N.eqb_spec c sep) as [->|Hne].
    + apply elem_of_cons in Hin as [->|Hin]; [apply not_elem_of_nil|auto].
    + pose proof (split_nonempty sep s) as Hnil.
      destruct (split sep s) as [|p ps] eqn:E; [contradiction|].
      apply elem_of_cons in Hin as [->|Hin].
      * intros Hc. apply elem_of_cons in Hc as [->|Hc]; [congruence|].
        eapply IH; [left|exact Hc].
      * apply IH. now right.
Qed.

Lemma join_cons sep piece rest :
  rest <> [] -> join sep (piece :: rest) = piece ++ sep ++ join sep rest.
Proof. destruct rest; [contradiction|reflexivity]. Qed.

(** Joining and splitting again yields the pieces, each split in turn. *)
Lemma split_join (pieces : list jsstring) :
  pieces <> [] -> split LF (join nl pieces) = flat_map (split LF) pieces.
Proof.
  induction pieces as [|p ps IH]; intros Hne; [contradiction|].
  destruct ps as [|q ps].
  - simpl. now rewrite app_nil_r.
  - rewrite join_cons by discriminate.
    change (p ++ nl ++ join nl (q :: ps)) with (p ++ LF :: join nl (q :: ps)).
    rewrite split_app_sep, IH by discriminate. reflexivity.
Qed.

Lemma flat_map_split_lines (lines : list jsstring) :
  Forall (fun l => LF ∉ l) lines -> flat_map (split LF) lines = lines.
Proof.
  induction 1 as [|l ls Hl _ IH]; simpl; [reflexivity|].
  now rewrite split_no_sep, IH.
Qed.

Lemma split_lines_no_LF content :
  Forall (fun l => LF ∉ l) (split LF content).
Proof. apply Forall_forall. intros l. apply split_pieces_no_sep. Qed.

(** [join] undoes [split]. *)
Lemma join_split content : join nl (split LF content) = content.
Proof.
  induction content as [|c s IH]; simpl; [reflexivity|].
  destruct (N.eqb_spec c LF) as [->|Hne].
  - pose proof (split_nonempty LF s) as Hnil.
    destruct (split LF s) eqn:E; [contradiction|].
    rewrite <- IH. reflexivity.
  - pose proof (split_nonempty LF s) as Hnil.
    destruct (split LF s) as [|p ps] eqn:E; [contradiction|].
    rewrite <- IH. destruct ps; reflexivity.
Qed.

End Lines.

(** ** The insertion point of [insertVersion] *)

Section InsertionPoint.

Example unreleased_bracketed : isUnreleasedHeader (lit "## [Unreleased]") = true.
Proof. reflexivity. Qed.
Example unreleased_bare_lowercase : isUnreleasedHeader (lit "##  unreleased") = true.
Proof. reflexivity. Qed.
Example unreleased_not_a_version : isUnreleasedHeader (lit "## [1.0.0]") = false.
Proof. reflexivity. Qed.
Example version_header_tab : isVersionHeader (lit "##	1.0.0") = true.
Proof. reflexivity. Qed.
Example version_header_needs_text : isVersionHeader (lit "## ") = false.
Proof. reflexivity. Qed.
Example second_level_tab : isSecondLevel (lit "##	1.0.0") = false.
Proof. reflexivity. Qed.

Lemma scanInsertIndex_range lines : forall i found,
  scanInsertIndex lines i found = (-1)%Z
  \/ (i <= scanInsertIndex lines i found < i + Z.of_nat (length lines))%Z.
Proof.
  induction lines as [|line rest IH]; intros i found;
    cbn [scanInsertIndex length]; [now left|].
  assert (Hstep : forall f,
    scanInsertIndex rest (i + 1) f = (-1)%Z
    \/ (i <= scanInsertIndex rest (i + 1) f
        < i + Z.of_nat (S (length rest)))%Z).
  { intros f. destruct (IH (i + 1)%Z f) as [->|H]; [now left|right; lia]. }
  destruct (test UNRELEASED_REGEX line); [apply Hstep|].
  destruct (found && test NEXT_VERSION_REGEX line); [right; lia|].
  destruct (startsWith (lit "## ") line && negb found); [right; lia|].
  apply Hstep.
Qed.

Lemma scanPreambleEnd_range lines : forall i,
  scanPreambleEnd lines i = (-1)%Z
  \/ (i <= scanPreambleEnd lines i < i + Z.of_nat (length lines))%Z.
Proof.
  induction lines as [|line rest IH]; intros i;
    cbn [scanPreambleEnd length]; [now left|].
  destruct (startsWith (lit "## ") line); [right; lia|].
  destruct (IH (i + 1)%Z) as [->|H]; [now left|right; lia].
Qed.

(** The insertion point is an index into the lines, or one past the last. *)
Lemma insertIndex_range lines :
  (0 <= insertIndex lines <= Z.of_nat (length lines))%Z.
Proof.
  unfold insertIndex.
  destruct (scanInsertIndex_range lines 0 false) as [->|H].
  - simpl. destruct (scanPreambleEnd_range lines 0) as [->|H]; simpl; [lia|].
    destruct (Z.eqb_spec (scanPreambleEnd lines 0) (-1)); lia.
  - destruct (Z.eqb_spec (scanInsertIndex lines 0 false) (-1)); lia.
Qed.

(** Before an Unreleased header is found, the scan passes over every line
    that is neither such a header nor starts with ["## "]. *)
Lemma scanInsertIndex_skip_before before rest : forall i,
  forallb (fun l => negb (isUnreleasedHeader l) && negb (isSecondLevel l))
          before = true ->
  scanInsertIndex (before ++ rest) i false
  = scanInsertIndex rest (i + Z.of_nat (length before)) false.
Proof.
  induction before as [|l ls IH]; intros i H;
    cbn [app scanInsertIndex scanPreambleEnd length].
  - f_equal. lia.
  - cbn [forallb] in H. apply andb_prop in H as [Hl Hls].
    apply andb_prop in Hl as [Hu Hh].
    unfold isUnreleasedHeader, isSecondLevel in Hu, Hh.
    apply negb_true_iff in Hu, Hh. rewrite Hu, Hh. cbn [andb negb].
    rewrite IH by assumption. f_equal. lia.
Qed.

(** After it, the scan passes over every further Unreleased header and every
    line that is no version header. *)
Lemma scanInsertIndex_skip_after between rest : forall i,
  forallb (fun l => isUnreleasedHeader l || negb (isVersionHeader l))
          between = true ->
  scanInsertIndex (between ++ rest) i true
  = scanInsertIndex rest (i + Z.of_nat (length between)) true.
Proof.
  induction between as [|l ls IH]; intros i H;
    cbn [app scanInsertIndex scanPreambleEnd length].
  - f_equal. lia.
  - cbn [forallb] in H. apply andb_prop in H as [Hl Hls].
    unfold isUnreleasedHeader, isVersionHeader in Hl.
    destruct (test UNRELEASED_REGEX l).
    + rewrite IH by assumption. f_equal. lia.
    + cbn [orb] in Hl. apply negb_true_iff in Hl. rewrite Hl. rewrite andb_false_r. cbn [negb]. rewrite andb_false_r.
      try (destruct (startsWith (lit "## ") l));
        rewrite IH by assumption; f_equal; lia.
Qed.

Lemma scanInsertIndex_none_after lines : forall i,
  forallb (fun l => isUnreleasedHeader l || negb (isVersionHeader l))
          lines = true ->
  scanInsertIndex lines i true = (-1)%Z.
Proof.
  intros i H. rewrite <- (app_nil_r lines).
  now rewrite scanInsertIndex_skip_after.
Qed.

Lemma scanPreambleEnd_skip before rest : forall i,
  forallb (fun l => negb (isSecondLevel l)) before = true ->
  scanPreambleEnd (before ++ rest) i
  = scanPreambleEnd rest (i + Z.of_nat (length before)).
Proof.
  induction before as [|l ls IH]; intros i H;
    cbn [app scanInsertIndex scanPreambleEnd length].
  - f_equal. lia.
  - cbn [forallb] in H. apply andb_prop in H as [Hl Hls].
    unfold isSecondLevel in Hl. apply negb_true_iff in Hl. rewrite Hl.
    rewrite IH by assumption. f_equal. lia.
Qed.

Lemma forallb_weaken {A} (f g : A -> bool) l :
  (forall x, f x = true -> g x = true) ->
  forallb f l = true -> forallb g l = true.
Proof.
  intros Hfg. induction l as [|x l IH]; simpl; [reflexivity|].
  intros H. apply andb_prop in H as [Hx Hl].
  now rewrite (Hfg _ Hx), IH.
Qed.

(** Splicing at the end of a known prefix. *)
Lemma splice_at {A} (before after inserted : list A) :
  sliceTo (Z.of_nat (length before)) (before ++ after) ++ inserted
    ++ sliceFrom (Z.of_nat (length before)) (before ++ after)
  = before ++ inserted ++ after.
Proof.
  unfold sliceTo, sliceFrom. rewrite Nat2Z.id.
  now rewrite take_app_length, drop_app_length.
Qed.

Lemma insertVersion_at content version date changes repoUrl before after :
  split LF content = before ++ after ->
  insertIndex (before ++ after) = Z.of_nat (length before) ->
  insertVersion content version date changes repoUrl
  = join nl (before
             ++ [formatVersion version (Some date) changes repoUrl; []]
             ++ after).
Proof.
  intros Hsplit Hidx. unfold insertVersion. rewrite Hsplit, Hidx.
  now rewrite splice_at.
Qed.

End InsertionPoint.

(** ** The merge *)

Section Merge.

Import Samples.

(** C1 (amended). Insertion precedence of the merge. When the first
    Unreleased header of the text is preceded by no line that starts with
    ["## "], and a line [v] after it is the first one that matches the
    version-header pattern without being an Unreleased header itself, the
    rendered block and one blank line are spliced immediately before [v]. When
    the text has no Unreleased header and [v] is its first line starting with
    ["## "], they are spliced immediately before [v]. *)
Theorem insertVersion_precedence :
  (forall content version date changes repoUrl before u between v after,
      split LF content = before ++ u :: between ++ v :: after ->
      forallb (fun l => negb (isUnreleasedHeader l) && negb (isSecondLevel l))
              before = true ->
      isUnreleasedHeader u = true ->
      forallb (fun l => isUnreleasedHeader l || negb (isVersionHeader l))
              between = true ->
      isUnreleasedHeader v = false ->
      isVersionHeader v = true ->
      insertVersion content version date changes repoUrl
      = join nl (before ++ u :: between
                 ++ [formatVersion version (Some date) changes repoUrl; []]
                 ++ v :: after))
  /\
  (forall content version date changes repoUrl before v after,
      split LF content = before ++ v :: after ->
      forallb (fun l => negb (isUnreleasedHeader l)) (before ++ v :: after)
      = true ->
      forallb (fun l => negb (isSecondLevel l)) before = true ->
      isSecondLevel v = true ->
      insertVersion content version date changes repoUrl
      = join nl (before
                 ++ [formatVersion version (Some date) changes repoUrl; []]
                 ++ v :: after)).
Proof.
  split.
  - intros content version date changes repoUrl before u between v after
      Hsplit Hbefore Hu Hbetween Hv Hver.
    pose proof (insertVersion_at content version date changes repoUrl
                  (before ++ u :: between) (v :: after)) as Hat.
    rewrite <- !app_assoc in Hat. cbn [app] in Hat.
    apply Hat; [exact Hsplit|].
    unfold insertIndex.
    rewrite scanInsertIndex_skip_before by exact Hbefore.
    cbn [scanInsertIndex]. unfold isUnreleasedHeader in Hu. rewrite Hu.
    rewrite scanInsertIndex_skip_after by exact Hbetween.
    cbn [scanInsertIndex]. unfold isUnreleasedHeader in Hv. rewrite Hv.
    unfold isVersionHeader in Hver. rewrite Hver. cbn [andb].
    rewrite !length_app. cbn [length].
    destruct (Z.eqb_spec
                (0 + Z.of_nat (length before) + 1 + Z.of_nat (length between))
                (-1)); lia.
  - intros content version date changes repoUrl before v after
      Hsplit Hno Hbefore Hv.
    apply insertVersion_at; [exact Hsplit|].
    unfold insertIndex.
    rewrite forallb_app in Hno. apply andb_prop in Hno as [Hno1 Hno2].
    cbn [forallb] in Hno2. apply andb_prop in Hno2 as [Hnov _].
    apply negb_true_iff in Hnov. unfold isUnreleasedHeader in Hnov.
    rewrite scanInsertIndex_skip_before.
    + cbn [scanInsertIndex]. rewrite Hnov.
      unfold isSecondLevel in Hv. rewrite Hv. cbn [andb negb].
      destruct (Z.eqb_spec (0 + Z.of_nat (length before)) (-1)); lia.
    + clear -Hno1 Hbefore. induction before as [|l ls IH]; [reflexivity|].
      cbn [forallb] in *. apply andb_prop in Hno1 as [H1 H2].
      apply andb_prop in Hbefore as [H3 H4].
      rewrite H1, H3, IH by assumption. reflexivity.
Qed.

Lemma insertVersion_precedence_witness :
  insertVersion docWithRelease (lit "1.1.0") jan15 changes1 None
  = join nl [ lit "# Changelog"; []; lit "## [Unreleased]"; [];
              block110; [];
              lit "## [1.0.0] - 2024-01-01"; [];
              lit "[1.0.0]: https://example.com/releases/tag/1.0.0" ]
  /\ insertVersion docReleaseOnly (lit "1.1.0") jan15 changes1 None
     = join nl [ lit "# Changelog"; [];
                 block110; [];
                 lit "## [1.0.0] - 2024-01-01"; lit "### Added";
                 lit "- First release" ].
Proof.
  destruct insertVersion_precedence as [Hafter Hnone]. split.
  - apply (Hafter docWithRelease (lit "1.1.0") jan15 changes1 None
             [lit "# Changelog"; []] (lit "## [Unreleased]") [[]]
             (lit "## [1.0.0] - 2024-01-01")
             [[]; lit "[1.0.0]: https://example.com/releases/tag/1.0.0"]);
      reflexivity.
  - apply (Hnone docReleaseOnly (lit "1.1.0") jan15 changes1 None
             [lit "# Changelog"; []] (lit "## [1.0.0] - 2024-01-01")
             [lit "### Added"; lit "- First release"]);
      reflexivity.
Defined.

(** C1 as stated fails: with a second-level heading above the Unreleased
    header the block lands before that heading, and not between Unreleased
    and 1.0.0. *)
Lemma insertVersion_precedence_counterexample :
  split LF docHeadingAboveUnreleased
  = [ lit "# Changelog"; lit "## Notes"; lit "## [Unreleased]";
      lit "## [1.0.0] - 2024-01-01" ]
  /\ isUnreleasedHeader (lit "## [Unreleased]") = true
  /\ isVersionHeader (lit "## [1.0.0] - 2024-01-01") = true
  /\ insertVersion docHeadingAboveUnreleased (lit "1.1.0") jan15 changes1 None
     = join nl [ lit "# Changelog";
                 block110; [];
                 lit "## Notes"; lit "## [Unreleased]";
                 lit "## [1.0.0] - 2024-01-01" ]
  /\ insertVersion docHeadingAboveUnreleased (lit "1.1.0") jan15 changes1 None
     <> join nl [ lit "# Changelog"; lit "## Notes"; lit "## [Unreleased]";
                  block110; [];
                  lit "## [1.0.0] - 2024-01-01" ].
Proof.
  repeat split; try reflexivity.
  apply (bool_decide_eq_false_1 (_ = _)). vm_compute. reflexivity.
Qed.

(** The fallback loop stops at the first line that starts with ["## "]; the
    index it settles on is the number of lines it passed. *)
Lemma scanPreambleEnd_cut lines : forall i,
  (0 <= i)%Z ->
  exists skipped rest,
    lines = skipped ++ rest
    /\ forallb (fun l => negb (isSecondLevel l)) skipped = true
    /\ match rest with [] => true | l :: _ => isSecondLevel l end = true
    /\ (if (scanPreambleEnd lines i =? -1)%Z
        then (i + Z.of_nat (length lines))%Z
        else scanPreambleEnd lines i)
       = (i + Z.of_nat (length skipped))%Z.
Proof.
  induction lines as [|l ls IH]; intros i Hi.
  - exists [], []. now repeat split.
  - cbn [scanPreambleEnd]. destruct (startsWith (lit "## ") l) eqn:El.
    + exists [], (l :: ls). split; [reflexivity|]. split; [reflexivity|].
      split; [exact El|].
      destruct (Z.eqb_spec i (-1)); cbn [length]; lia.
    + destruct (IH (i + 1)%Z ltac:(lia))
        as (skipped & rest & -> & Hskipped & Hrest & Hidx).
      exists (l :: skipped), rest. split; [reflexivity|].
      split; [cbn [forallb]; unfold isSecondLevel at 1; now rewrite El|].
      split; [exact Hrest|].
      revert Hidx. cbn [length app].
      destruct (scanPreambleEnd (skipped ++ rest) (i + 1) =? -1)%Z; lia.
Qed.

(** C5 (amended). Unreleased-tail fallback. When the first Unreleased header
    [u] is preceded by no line that starts with ["## "] and no later line is a
    version header other than a further Unreleased header, the first scan
    finds nothing and the fallback takes the first line that starts with
    ["## "]: the lines from [u] on split into the lines the fallback passes,
    none of which starts with ["## "], and the rest, which is empty or begins
    with such a line, and the block is spliced between the two. So the block
    stands immediately before [u] itself when [u] starts with ["## "], before
    the first later line that does otherwise, and at the end of the document
    exactly when no line starts with ["## "]. *)
Theorem insertVersion_unreleased_tail
    content version date changes repoUrl before u after :
  split LF content = before ++ u :: after ->
  forallb (fun l => negb (isUnreleasedHeader l) && negb (isSecondLevel l))
          before = true ->
  isUnreleasedHeader u = true ->
  forallb (fun l => isUnreleasedHeader l || negb (isVersionHeader l))
          after = true ->
  (exists skipped rest,
     u :: after = skipped ++ rest
     /\ forallb (fun l => negb (isSecondLevel l)) skipped = true
     /\ match rest with [] => true | l :: _ => isSecondLevel l end = true
     /\ (rest = []
         <-> forallb (fun l => negb (isSecondLevel l)) (u :: after) = true)
     /\ insertIndex (split LF content)
        = Z.of_nat (length before + length skipped)
     /\ insertVersion content version date changes repoUrl
        = join nl (before ++ skipped
                   ++ [formatVersion version (Some date) changes repoUrl; []]
                   ++ rest))
  /\ (isSecondLevel u = true ->
      insertVersion content version date changes repoUrl
      = join nl (before
                 ++ [formatVersion version (Some date) changes repoUrl; []]
                 ++ u :: after))
  /\ (forallb (fun l => negb (isSecondLevel l)) (u :: after) = true ->
      insertVersion content version date changes repoUrl
      = join nl (before ++ u :: after
                 ++ [formatVersion version (Some date) changes repoUrl; []])).
Proof.
  intros Hsplit Hbefore Hu Hafter.
  assert (Hscan : scanInsertIndex (before ++ u :: after) 0 false = (-1)%Z).
  { rewrite scanInsertIndex_skip_before by exact Hbefore.
    cbn [scanInsertIndex]. unfold isUnreleasedHeader in Hu. rewrite Hu.
    now apply scanInsertIndex_none_after. }
  assert (Hpre : forallb (fun l => negb (isSecondLevel l)) before = true).
  { revert Hbefore. apply forallb_weaken. intros l H.
    now apply andb_prop in H as [_ H]. }
  split; [|split].
  - destruct (scanPreambleEnd_cut (u :: after) (0 + Z.of_nat (length before)))
      as (skipped & rest & Hcut & Hskipped & Hrest & Hidx); [lia|].
    assert (Hindex :
      insertIndex (before ++ skipped ++ rest)
      = Z.of_nat (length (before ++ skipped))).
    { rewrite <- Hcut. unfold insertIndex. rewrite Hscan, Z.eqb_refl.
      rewrite scanPreambleEnd_skip by exact Hpre.
      rewrite !length_app.
      destruct (scanPreambleEnd (u :: after) (0 + Z.of_nat (length before))
                =? -1)%Z; lia. }
    exists skipped, rest. split; [exact Hcut|]. split; [exact Hskipped|].
    split; [exact Hrest|]. split; [|split].
    + rewrite Hcut. split.
      * intros ->. now rewrite app_nil_r.
      * rewrite forallb_app. intros H. apply andb_prop in H as [_ H].
        destruct rest as [|l rest]; [reflexivity|].
        cbn [forallb] in H. apply andb_prop in H as [H _].
        rewrite Hrest in H. discriminate H.
    + rewrite Hsplit, Hcut, Hindex. now rewrite length_app.
    + rewrite (insertVersion_at content version date changes repoUrl
                 (before ++ skipped) rest).
      * now rewrite <- !app_assoc.
      * rewrite Hsplit, Hcut. now rewrite <- app_assoc.
      * rewrite <- app_assoc. exact Hindex.
  - intros Hh. apply insertVersion_at; [exact Hsplit|].
    unfold insertIndex. rewrite Hscan, Z.eqb_refl.
    rewrite scanPreambleEnd_skip by exact Hpre.
    cbn [scanPreambleEnd]. unfold isSecondLevel in Hh. rewrite Hh.
    destruct (Z.eqb_spec (0 + Z.of_nat (length before)) (-1)); lia.
  - intros Hnone.
    pose proof (insertVersion_at content version date changes repoUrl
                  (before ++ u :: after) []) as Hat.
    rewrite !app_nil_r in Hat. rewrite <- !app_assoc in Hat.
    cbn [app] in Hat. apply Hat; [exact Hsplit|].
    unfold insertIndex. rewrite Hscan, Z.eqb_refl.
    replace (scanPreambleEnd (before ++ u :: after) 0) with (-1)%Z; [reflexivity|].
    symmetry. rewrite scanPreambleEnd_skip by exact Hpre.
    rewrite <- (app_nil_r (u :: after)).
    now rewrite scanPreambleEnd_skip.
Qed.

Lemma insertVersion_unreleased_tail_witness :
  insertVersion docUnreleasedOnly (lit "1.1.0") jan15 changes1 None
  = join nl [ lit "# Changelog"; [];
              block110; [];
              lit "## [Unreleased]"; lit "- pending change" ]
  /\ insertVersion docUnreleasedTab (lit "1.1.0") jan15 changes1 None
     = join nl [ lit "# Changelog"; lit "##	[Unreleased]";
                 lit "- pending change";
                 block110; [] ]
  /\ exists skipped rest,
       [ lit "##	[Unreleased]"; lit "- pending change";
         lit "## [Unreleased]"; lit "- more" ]
       = skipped ++ rest
       /\ forallb (fun l => negb (isSecondLevel l)) skipped = true
       /\ match rest with [] => true | l :: _ => isSecondLevel l end = true
       /\ (rest = []
           <-> forallb (fun l => negb (isSecondLevel l))
                 [ lit "##	[Unreleased]"; lit "- pending change";
                   lit "## [Unreleased]"; lit "- more" ] = true)
       /\ insertIndex (split LF docTwoUnreleased)
          = Z.of_nat (length (@nil jsstring) + length skipped)
       /\ insertVersion docTwoUnreleased (lit "1.1.0") jan15 changes1 None
          = join nl ([] ++ skipped ++ [block110; []] ++ rest).
Proof.
  split; [|split].
  - destruct (insertVersion_unreleased_tail docUnreleasedOnly (lit "1.1.0")
                jan15 changes1 None [lit "# Changelog"; []]
                (lit "## [Unreleased]") [lit "- pending change"]
                eq_refl eq_refl eq_refl eq_refl) as (_ & H & _).
    apply H. reflexivity.
  - destruct (insertVersion_unreleased_tail docUnreleasedTab (lit "1.1.0")
                jan15 changes1 None [lit "# Changelog"]
                (lit "##	[Unreleased]") [lit "- pending change"]
                eq_refl eq_refl eq_refl eq_refl) as (_ & _ & H).
    apply H. reflexivity.
  - destruct (insertVersion_unreleased_tail docTwoUnreleased (lit "1.1.0")
                jan15 changes1 None [] (lit "##	[Unreleased]")
                [lit "- pending change"; lit "## [Unreleased]"; lit "- more"]
                eq_refl eq_refl eq_refl eq_refl) as (H & _).
    exact H.
Defined.

(** With a tabbed Unreleased header above a spaced one, the block goes
    before the spaced one: neither before the first header nor at the end. *)
Example insertVersion_between_unreleased_headers :
  insertVersion docTwoUnreleased (lit "1.1.0") jan15 changes1 None
  = join nl [ lit "##	[Unreleased]"; lit "- pending change";
              block110; [];
              lit "## [Unreleased]"; lit "- more" ].
Proof. vm_compute. reflexivity. Qed.

(** C5 as stated fails: the Unreleased header has no version header after
    it, yet the block is placed before the header and not at the end. *)
Lemma insertVersion_unreleased_tail_counterexample :
  split LF docUnreleasedOnly
  = [ lit "# Changelog"; []; lit "## [Unreleased]"; lit "- pending change" ]
  /\ isUnreleasedHeader (lit "## [Unreleased]") = true
  /\ isVersionHeader (lit "- pending change") = false
  /\ insertVersion docUnreleasedOnly (lit "1.1.0") jan15 changes1 None
     = join nl [ lit "# Changelog"; [];
                 block110; [];
                 lit "## [Unreleased]"; lit "- pending change" ]
  /\ insertVersion docUnreleasedOnly (lit "1.1.0") jan15 changes1 None
     <> join nl [ lit "# Changelog"; []; lit "## [Unreleased]";
                  lit "- pending change";
                  block110; [] ].
Proof.
  repeat split; try reflexivity.
  apply (bool_decide_eq_false_1 (_ = _)). vm_compute. reflexivity.
Qed.

End Merge.

(** ** Text without lone surrogates *)

Section WellFormedText.

(** One step of the two functions. *)
Lemma isWellFormed_pair c d s :
  isHighSurrogate c = true ->
  isWellFormed (c :: d :: s) = isLowSurrogate d && isWellFormed s.
Proof. intros H. cbn [isWellFormed]. now rewrite H. Qed.

Lemma isWellFormed_other c s :
  isHighSurrogate c = false ->
  isWellFormed (c :: s) = negb (isLowSurrogate c) && isWellFormed s.
Proof. intros H. cbn [isWellFormed]. now rewrite H. Qed.

Lemma isWellFormed_high_last c :
  isHighSurrogate c = true -> isWellFormed [c] = false.
Proof. intros H. cbn [isWellFormed]. now rewrite H. Qed.

Lemma toWellFormed_pair c d s :
  isHighSurrogate c = true ->
  toWellFormed (c :: d :: s)
  = if isLowSurrogate d then c :: d :: toWellFormed s
    else 65533 :: toWellFormed (d :: s).
Proof. intros H. cbn [toWellFormed]. now rewrite H. Qed.

Lemma toWellFormed_other c s :
  isHighSurrogate c = false ->
  toWellFormed (c :: s)
  = if isLowSurrogate c then 65533 :: toWellFormed s else c :: toWellFormed s.
Proof. intros H. cbn [toWellFormed]. now rewrite H. Qed.

Lemma toWellFormed_high_last c :
  isHighSurrogate c = true -> toWellFormed [c] = [65533].
Proof. intros H. cbn [toWellFormed]. now rewrite H. Qed.

(** [toWellFormed] leaves a string alone exactly when it is well formed. *)
Lemma toWellFormed_fixed_step s :
  (isWellFormed s = true -> toWellFormed s = s)
  /\ (forall c, isWellFormed (c :: s) = true -> toWellFormed (c :: s) = c :: s).
Proof.
  induction s as [|d s [IH1 IH2]].
  - split; [reflexivity|]. intros c.
    destruct (isHighSurrogate c) eqn:Eh.
    + now rewrite isWellFormed_high_last.
    + rewrite isWellFormed_other, toWellFormed_other by exact Eh.
      now destruct (isLowSurrogate c).
  - split; [apply IH2|]. intros c.
    destruct (isHighSurrogate c) eqn:Eh.
    + rewrite isWellFormed_pair, toWellFormed_pair by exact Eh.
      destruct (isLowSurrogate d); [|discriminate]. cbn [andb].
      intros H. now rewrite IH1.
    + rewrite isWellFormed_other, toWellFormed_other by exact Eh.
      destruct (isLowSurrogate c); [discriminate|]. cbn [negb andb].
      intros H. now rewrite IH2.
Qed.

Lemma toWellFormed_fixed s :
  isWellFormed s = true -> toWellFormed s = s.
Proof. apply toWellFormed_fixed_step. Qed.

Lemma toWellFormed_changes_step s :
  (toWellFormed s = s -> isWellFormed s = true)
  /\ (forall c, toWellFormed (c :: s) = c :: s -> isWellFormed (c :: s) = true).
Proof.
  assert (Hhigh : forall c, isHighSurrogate c = true -> 65533 <> c).
  { intros c H <-. discriminate H. }
  assert (Hlow : forall c, isLowSurrogate c = true -> 65533 <> c).
  { intros c H <-. discriminate H. }
  induction s as [|d s [IH1 IH2]].
  - split; [reflexivity|]. intros c.
    destruct (isHighSurrogate c) eqn:Eh.
    + rewrite toWellFormed_high_last by exact Eh.
      intros [= E]. now apply Hhigh in Eh.
    + rewrite isWellFormed_other, toWellFormed_other by exact Eh.
      destruct (isLowSurrogate c) eqn:El; [|reflexivity].
      intros [= E]. now apply Hlow in El.
  - split; [apply IH2|]. intros c.
    destruct (isHighSurrogate c) eqn:Eh.
    + rewrite isWellFormed_pair, toWellFormed_pair by exact Eh.
      destruct (isLowSurrogate d).
      * intros [= E]. cbn [andb]. now apply IH1.
      * intros [= E _]. now apply Hhigh in Eh.
    + rewrite isWellFormed_other, toWellFormed_other by exact Eh.
      destruct (isLowSurrogate c) eqn:El.
      * intros [= E _]. now apply Hlow in El.
      * intros [= E]. cbn [negb andb]. now apply IH2.
Qed.

Lemma toWellFormed_fixed_iff s :
  toWellFormed s = s <-> isWellFormed s = true.
Proof.
  split; [apply toWellFormed_changes_step|apply toWellFormed_fixed].
Qed.

(** A code unit that is no surrogate. *)
Lemma isWellFormed_cons_plain c s :
  c < 55296 -> isWellFormed (c :: s) = isWellFormed s.
Proof.
  intros Hc.
  assert (Eh : isHighSurrogate c = false)
    by (apply andb_false_intro1, N.leb_gt; lia).
  assert (El : isLowSurrogate c = false)
    by (apply andb_false_intro1, N.leb_gt; lia).
  rewrite isWellFormed_other by exact Eh. now rewrite El.
Qed.

Lemma isWellFormed_plain s :
  Forall (fun c => c < 55296) s -> isWellFormed s = true.
Proof.
  induction 1 as [|c s Hc _ IH]; [reflexivity|].
  now rewrite isWellFormed_cons_plain.
Qed.

Lemma isWellFormed_app_step a b :
  isWellFormed b = true ->
  (isWellFormed a = true -> isWellFormed (a ++ b) = true)
  /\ (forall c, isWellFormed (c :: a) = true ->
                isWellFormed (c :: a ++ b) = true).
Proof.
  intros Hb. induction a as [|d a [IH1 IH2]].
  - split; [intros _; exact Hb|]. intros c. cbn [app].
    destruct (isHighSurrogate c) eqn:Eh.
    + now rewrite isWellFormed_high_last.
    + rewrite (isWellFormed_other c []), (isWellFormed_other c b) by exact Eh.
      now rewrite Hb.
  - split; [apply IH2|]. intros c. cbn [app].
    destruct (isHighSurrogate c) eqn:Eh.
    + rewrite (isWellFormed_pair c d a), (isWellFormed_pair c d (a ++ b))
        by exact Eh.
      intros H. apply andb_prop in H as [-> H]. cbn [andb]. now apply IH1.
    + rewrite (isWellFormed_other c (d :: a)),
        (isWellFormed_other c (d :: a ++ b)) by exact Eh.
      intros H. apply andb_prop in H as [-> H]. cbn [andb]. now apply IH2.
Qed.

Lemma isWellFormed_app a b :
  isWellFormed a = true -> isWellFormed b = true ->
  isWellFormed (a ++ b) = true.
Proof. intros Ha Hb. now apply (isWellFormed_app_step a b Hb). Qed.

Lemma isWellFormed_join pieces :
  Forall (fun piece => isWellFormed piece = true) pieces ->
  isWellFormed (join nl pieces) = true.
Proof.
  induction 1 as [|piece rest Hp Hrest IH]; [reflexivity|].
  destruct rest as [|next rest]; [exact Hp|].
  change (join nl (piece :: next :: rest))
    with (piece ++ nl ++ join nl (next :: rest)).
  apply isWellFormed_app; [exact Hp|].
  now apply isWellFormed_app.
Qed.

(** The lines of a well-formed text are well formed: a line feed is no
    surrogate, so no pair is cut. *)
Lemma isWellFormed_split_step s :
  (isWellFormed s = true ->
   Forall (fun piece => isWellFormed piece = true) (split LF s))
  /\ (forall c, isWellFormed (c :: s) = true ->
        Forall (fun piece => isWellFormed piece = true) (split LF (c :: s))).
Proof.
  assert (Hsur : forall c, isHighSurrogate c = true -> (c =? LF) = false).
  { intros c H. apply N.eqb_neq. intros ->. discriminate H. }
  assert (Hsur' : forall c, isLowSurrogate c = true -> (c =? LF) = false).
  { intros c H. apply N.eqb_neq. intros ->. discriminate H. }
  assert (Hsplit : forall c rest,
    split LF (c :: rest)
    = if c =? LF then [] :: split LF rest
      else match split LF rest with
           | piece :: pieces => (c :: piece) :: pieces
           | [] => [[c]]
           end) by reflexivity.
  induction s as [|d s [IH1 IH2]].
  - split; [repeat constructor|]. intros c Hc. rewrite Hsplit.
    change (split LF []) with [@nil N].
    destruct (c =? LF); repeat constructor. exact Hc.
  - split; [apply IH2|]. intros c.
    destruct (isHighSurrogate c) eqn:Eh.
    + rewrite isWellFormed_pair by exact Eh.
      intros H. apply andb_prop in H as [Hd Hs].
      specialize (IH1 Hs).
      rewrite (Hsplit c), (Hsur c Eh), (Hsplit d), (Hsur' d Hd).
      pose proof (split_nonempty LF s) as Hne.
      destruct (split LF s) as [|piece pieces]; [contradiction|].
      apply Forall_cons in IH1 as [Hp Hps].
      constructor; [|exact Hps].
      rewrite isWellFormed_pair by exact Eh. now rewrite Hd.
    + rewrite isWellFormed_other by exact Eh.
      intros H. apply andb_prop in H as [Hc Hs].
      specialize (IH2 d Hs). rewrite (Hsplit c).
      destruct (c =? LF); [now constructor|].
      pose proof (split_nonempty LF (d :: s)) as Hne.
      destruct (split LF (d :: s)) as [|piece pieces]; [contradiction|].
      apply Forall_cons in IH2 as [Hp Hps].
      constructor; [|exact Hps].
      rewrite isWellFormed_other by exact Eh. now rewrite Hc.
Qed.

Lemma isWellFormed_split s :
  isWellFormed s = true ->
  Forall (fun piece => isWellFormed piece = true) (split LF s).
Proof. apply isWellFormed_split_step. Qed.

Lemma split_piece_elem sep s : forall piece c,
  piece ∈ split sep s -> c ∈ piece -> c ∈ s.
Proof.
  induction s as [|a s IH]; cbn [split]; intros piece c Hp Hc.
  - apply list_elem_of_singleton in Hp. subst. now apply not_elem_of_nil in Hc.
  - destruct (a =? sep).
    + apply elem_of_cons in Hp as [->|Hp]; [now apply not_elem_of_nil in Hc|].
      right. eapply IH; eauto.
    + pose proof (split_nonempty sep s) as Hne.
      destruct (split sep s) as [|p ps] eqn:E; [contradiction|].
      apply elem_of_cons in Hp as [->|Hp].
      * apply elem_of_cons in Hc as [->|Hc]; [left|].
        right. apply (IH p); [left|exact Hc].
      * right. apply (IH piece); [now right|exact Hc].
Qed.

(** What the formatter writes of its own is ASCII. *)
Lemma pad_ascii w : forall n, Forall (fun c => c < 55296) (pad w n).
Proof.
  induction w as [|w IH]; intros n; cbn [pad]; [constructor|].
  apply Forall_app. split; [apply IH|]. repeat constructor.
  pose proof (N.mod_upper_bound n 10 ltac:(lia)) as H.
  revert H. generalize (n mod 10). intros; lia.
Qed.

Lemma lit_ascii_digits_sign :
  Forall (fun c => c < 55296) (lit "-") /\ Forall (fun c => c < 55296) (lit "+")
  /\ Forall (fun c => c < 55296) (lit "T") /\ Forall (fun c => c < 55296) (lit ":")
  /\ Forall (fun c => c < 55296) (lit ".") /\ Forall (fun c => c < 55296) (lit "Z").
Proof. repeat split; repeat constructor. Qed.

#[local] Opaque pad.

Lemma formatDate_wellFormed d : isWellFormed (formatDate d) = true.
Proof.
  apply isWellFormed_plain.
  assert (Hiso : Forall (fun c => c < 55296) (toISOString d)).
  { destruct lit_ascii_digits_sign as (Hm & Hp & HT & Hc & Hd & HZ).
    unfold toISOString.
    repeat (apply Forall_app; split); try apply pad_ascii; try assumption.
    destruct ((0 <=? year d)%Z && (year d <=? 9999)%Z); [apply pad_ascii|].
    apply Forall_app. split; [|apply pad_ascii].
    destruct (year d <? 0)%Z; assumption. }
  unfold formatDate.
  pose proof (split_piece_elem 84 (toISOString d)) as Helem.
  destruct (split 84 (toISOString d)) as [|piece pieces]; [constructor|].
  apply Forall_forall. intros c Hc.
  rewrite Forall_forall in Hiso. apply Hiso.
  apply (Helem piece c); [left|exact Hc].
Qed.

#[local] Transparent pad.

Lemma categorySections_wellFormed changes repoUrl cat :
  forallb isWellFormed (listed changes cat) = true ->
  Forall (fun piece => isWellFormed piece = true)
    (categorySections changes repoUrl cat).
Proof.
  unfold categorySections, listed. intros Hall.
  destruct (categories changes !! cat) as [[|t ts]|]; cbn [default] in Hall;
    [constructor| |constructor].
  apply Forall_app. split.
  { constructor; [now destruct cat|constructor]. }
  apply Forall_app. split; [|repeat constructor].
  apply Forall_forall. intros line Hline.
  apply list_elem_of_fmap in Hline as (text & -> & Htext).
  rewrite forallb_forall in Hall.
  change (formatEntry _ repoUrl) with (lit "- " ++ text).
  apply isWellFormed_app; [reflexivity|].
  apply Hall. now apply list_elem_of_In.
Qed.

Lemma formatVersion_wellFormed version date changes repoUrl :
  isWellFormed version = true -> changesWellFormed changes = true ->
  isWellFormed (formatVersion version date changes repoUrl) = true.
Proof.
  intros Hversion Hchanges. unfold formatVersion, formatAIEntries.
  assert (Hsections : forall cats,
    forallb (fun cat => forallb isWellFormed (listed changes cat)) cats = true ->
    Forall (fun piece => isWellFormed piece = true)
      (flat_map (categorySections changes repoUrl) cats)).
  { induction cats as [|cat cats IH]; [constructor|]. cbn [forallb flat_map].
    intros H. apply andb_prop in H as [Hcat Hcats].
    apply Forall_app. split; [now apply categorySections_wellFormed|].
    now apply IH. }
  apply isWellFormed_join. apply Forall_app. split.
  - constructor; [|repeat constructor].
    apply isWellFormed_app; [reflexivity|].
    apply isWellFormed_app; [exact Hversion|].
    apply isWellFormed_app; [reflexivity|].
    destruct date as [d|]; [|reflexivity].
    apply isWellFormed_app; [reflexivity|apply formatDate_wellFormed].
  - destruct (trim _); constructor; [|constructor].
    apply isWellFormed_join. now apply Hsections.
Qed.

Lemma createNewChangelog_wellFormed version date changes repoUrl :
  isWellFormed version = true -> changesWellFormed changes = true ->
  isWellFormed (createNewChangelog version date changes repoUrl) = true.
Proof.
  intros Hversion Hchanges. unfold createNewChangelog.
  apply isWellFormed_join.
  repeat (constructor; [reflexivity|]).
  constructor; [|constructor]. now apply formatVersion_wellFormed.
Qed.

Lemma insertVersion_wellFormed content version date changes repoUrl :
  isWellFormed content = true ->
  isWellFormed version = true -> changesWellFormed changes = true ->
  isWellFormed (insertVersion content version date changes repoUrl) = true.
Proof.
  intros Hcontent Hversion Hchanges. unfold insertVersion.
  pose proof (isWellFormed_split content Hcontent) as Hlines.
  apply isWellFormed_join. apply Forall_app. split.
  { now apply Forall_take. }
  apply Forall_app. split; [|now apply Forall_drop].
  constructor; [now apply formatVersion_wellFormed|repeat constructor].
Qed.

(** What [previewChangelog] returns is well formed when what goes in is. *)
Lemma previewChangelog_wellFormed
    (fs : fileSystem) filePath version date changes repoUrl :
  match fs !! filePath with
  | Some existingContent => isWellFormed existingContent
  | None => true
  end = true ->
  isWellFormed version = true -> changesWellFormed changes = true ->
  isWellFormed (previewChangelog fs filePath version date changes repoUrl)
  = true.
Proof.
  intros Hfile Hversion Hchanges. unfold previewChangelog.
  destruct (fs !! filePath) as [existingContent|].
  - now apply insertVersion_wellFormed.
  - now apply createNewChangelog_wellFormed.
Qed.

End WellFormedText.

(** ** What the splice leaves alone *)

Section Frame.

Import Samples.

(** C6. Frame preservation of the splice. The output of [insertVersion] is
    the lines before the insertion point, the rendered block, one empty line,
    and the lines from the insertion point on; read back line by line it still
    shows every original line untouched around the lines of the block, and
    taking the two inserted pieces out gives the original text back. *)
Theorem insertVersion_frame content version date changes repoUrl :
  exists n : nat,
    (n <= length (split LF content))%nat
    /\ insertIndex (split LF content) = Z.of_nat n
    /\ insertVersion content version date changes repoUrl
       = join nl (take n (split LF content)
                  ++ [formatVersion version (Some date) changes repoUrl; []]
                  ++ drop n (split LF content))
    /\ split LF (insertVersion content version date changes repoUrl)
       = take n (split LF content)
         ++ split LF (formatVersion version (Some date) changes repoUrl)
         ++ [[]]
         ++ drop n (split LF content)
    /\ join nl (take n (split LF content) ++ drop n (split LF content))
       = content.
Proof.
  pose proof (insertIndex_range (split LF content)) as Hrange.
  exists (Z.to_nat (insertIndex (split LF content))).
  assert (Hout :
    insertVersion content version date changes repoUrl
    = join nl (take (Z.to_nat (insertIndex (split LF content))) (split LF content)
               ++ [formatVersion version (Some date) changes repoUrl; []]
               ++ drop (Z.to_nat (insertIndex (split LF content)))
                    (split LF content))) by reflexivity.
  split; [lia|]. split; [lia|]. split; [exact Hout|]. split.
  - rewrite Hout. rewrite split_join.
    + rewrite !flat_map_app. cbn [flat_map split app].
      pose proof (split_lines_no_LF content) as Hno.
      rewrite !flat_map_split_lines.
      * now rewrite <- app_assoc.
      * now apply Forall_drop.
      * now apply Forall_take.
    + intros Hnil. apply app_eq_nil in Hnil as [_ Hnil]. discriminate.
  - rewrite take_drop. apply join_split.
Qed.

(** Reference links below the last version come out byte for byte. *)
Example insertVersion_keeps_reference_links :
  split LF (insertVersion docWithRelease (lit "1.1.0") jan15 changes1 None)
  = [ lit "# Changelog"; []; lit "## [Unreleased]"; [] ]
    ++ split LF block110
    ++ [ []; lit "## [1.0.0] - 2024-01-01"; [];
         lit "[1.0.0]: https://example.com/releases/tag/1.0.0" ].
Proof. reflexivity. Qed.

(** C9 (amended). Preview and write. What [writeChangelog] leaves in the
    file, read back as UTF-8, is the text [previewChangelog] returns with
    every lone surrogate replaced by U+FFFD. The two are equal exactly when
    the preview is well formed; they are equal in particular when the text
    already in the file, if there is one, the version label and every
    description are well formed. *)
Theorem preview_equals_written
    (fs : fileSystem) filePath version date changes repoUrl :
  writeChangelog fs filePath version date changes repoUrl !! filePath
  = Some (toWellFormed
            (previewChangelog fs filePath version date changes repoUrl))
  /\ (writeChangelog fs filePath version date changes repoUrl !! filePath
      = Some (previewChangelog fs filePath version date changes repoUrl)
      <-> isWellFormed
            (previewChangelog fs filePath version date changes repoUrl)
          = true)
  /\ (match fs !! filePath with
      | Some existingContent => isWellFormed existingContent
      | None => true
      end = true ->
      isWellFormed version = true ->
      changesWellFormed changes = true ->
      writeChangelog fs filePath version date changes repoUrl !! filePath
      = Some (previewChangelog fs filePath version date changes repoUrl)).
Proof.
  assert (Hwritten :
    writeChangelog fs filePath version date changes repoUrl !! filePath
    = Some (toWellFormed
              (previewChangelog fs filePath version date changes repoUrl))).
  { unfold writeChangelog, writeFileSync, previewChangelog.
    now rewrite lookup_insert_eq. }
  split; [exact Hwritten|]. rewrite Hwritten. split.
  - rewrite <- toWellFormed_fixed_iff. split; [now intros [= ->]|].
    now intros ->.
  - intros Hfile Hversion Hchanges. f_equal. apply toWellFormed_fixed.
    now apply previewChangelog_wellFormed.
Qed.

Lemma preview_equals_written_witness :
  writeChangelog {[ lit "CHANGELOG.md" := docWithRelease ]}
    (lit "CHANGELOG.md") (lit "1.1.0") jan15 changes1 None
  !! lit "CHANGELOG.md"
  = Some (previewChangelog {[ lit "CHANGELOG.md" := docWithRelease ]}
            (lit "CHANGELOG.md") (lit "1.1.0") jan15 changes1 None).
Proof.
  destruct (preview_equals_written {[ lit "CHANGELOG.md" := docWithRelease ]}
              (lit "CHANGELOG.md") (lit "1.1.0") jan15 changes1 None)
    as (_ & _ & H).
  apply H; vm_compute; reflexivity.
Defined.

(** C9 as stated fails: a description that ends in the first half of a
    surrogate pair is previewed as it is, and comes back from the file with
    U+FFFD in its place. *)
Lemma preview_equals_written_counterexample :
  listed Scenarios.changesLoneSurrogate Added = [lit "Add emoji " ++ [55357]]
  /\ previewChangelog ∅ (lit "CHANGELOG.md") (lit "1.1.0") jan15
       Scenarios.changesLoneSurrogate None
     = createNewChangelog (lit "1.1.0") jan15
         Scenarios.changesLoneSurrogate None
  /\ writeChangelog ∅ (lit "CHANGELOG.md") (lit "1.1.0") jan15
       Scenarios.changesLoneSurrogate None
     !! lit "CHANGELOG.md"
     = Some (createNewChangelog (lit "1.1.0") jan15
               Scenarios.changesReplaced None)
  /\ writeChangelog ∅ (lit "CHANGELOG.md") (lit "1.1.0") jan15
       Scenarios.changesLoneSurrogate None
     !! lit "CHANGELOG.md"
     <> Some (previewChangelog ∅ (lit "CHANGELOG.md") (lit "1.1.0") jan15
                Scenarios.changesLoneSurrogate None).
Proof.
  repeat split; try (vm_compute; reflexivity).
  apply (bool_decide_eq_false_1 (_ = _)). vm_compute. reflexivity.
Qed.

(** Writing touches no other file. *)
Lemma writeChangelog_other_files
    (fs : fileSystem) filePath other version date changes repoUrl :
  other <> filePath ->
  writeChangelog fs filePath version date changes repoUrl !! other = fs !! other.
Proof.
  intros Hne. unfold writeChangelog, writeFileSync.
  now rewrite lookup_insert_ne.
Qed.

Lemma scanUnreleased_none lines : forall i,
  forallb (fun l => negb (isUnreleasedHeader l)) lines = true ->
  scanUnreleased lines i (-1) = ((-1)%Z, (-1)%Z).
Proof.
  induction lines as [|l ls IH]; intros i H; cbn [scanUnreleased];
    [reflexivity|].
  cbn [forallb] in H. apply andb_prop in H as [Hl Hls].
  apply negb_true_iff in Hl. unfold isUnreleasedHeader in Hl. rewrite Hl.
  rewrite Z.eqb_refl. cbn [negb andb]. now apply IH.
Qed.

(** C10. Without an Unreleased header [updateUnreleasedSection] returns its
    input: it adds no section and changes no line. *)
Theorem updateUnreleasedSection_without_unreleased content changes :
  forallb (fun l => negb (isUnreleasedHeader l)) (split LF content) = true ->
  updateUnreleasedSection content changes = content.
Proof.
  intros H. unfold updateUnreleasedSection.
  rewrite scanUnreleased_none by exact H. reflexivity.
Qed.

Lemma updateUnreleasedSection_without_unreleased_witness :
  updateUnreleasedSection docReleaseOnly changes1 = docReleaseOnly.
Proof.
  apply (updateUnreleasedSection_without_unreleased docReleaseOnly changes1).
  reflexivity.
Defined.

(** With an Unreleased header the section is replaced. *)
Example updateUnreleasedSection_replaces :
  updateUnreleasedSection docWithRelease changes1
  = join nl [ lit "# Changelog"; [];
              formatVersion (lit "Unreleased") None changes1 None; [];
              lit "## [1.0.0] - 2024-01-01"; [];
              lit "[1.0.0]: https://example.com/releases/tag/1.0.0" ].
Proof. reflexivity. Qed.

End Frame.

(** ** The matcher *)

Section MatcherFacts.

Context {A : Type}.
Implicit Types (k : jsstring -> captures -> option A) (caps : captures).

(** A repetition that succeeds hands some suffix to its continuation. *)
Lemma star_Some_inv p s caps k a :
  star p s caps k = Some a -> exists s', k s' caps = Some a.
Proof.
  induction s as [|c s IH]; cbn [star]; intros H; [eauto|].
  destruct (p c); [|eauto].
  destruct (star p s caps k) eqn:E; [|eauto].
  injection H as ->. now apply IH.
Qed.

(** Greedy: when the whole run satisfies the class and the continuation
    accepts what follows it, that is the match. *)
Lemma star_greedy p run_ rest caps k a :
  Forall (fun c => p c = true) run_ ->
  stopsAt p rest ->
  k rest caps = Some a ->
  star p (run_ ++ rest) caps k = Some a.
Proof.
  intros Hrun Hstop Hk. induction Hrun as [|c cs Hc _ IH]; cbn [app star].
  - destruct rest as [|c rest]; cbn [star stopsAt] in *; [exact Hk|].
    now rewrite Hstop.
  - now rewrite Hc, IH.
Qed.

(** A repetition fails when the continuation refuses every suffix. *)
Lemma star_None p s caps k :
  (forall s', s' `suffix_of` s -> k s' caps = None) ->
  star p s caps k = None.
Proof.
  induction s as [|c s IH]; cbn [star]; intros H.
  - now apply H.
  - rewrite IH.
    + destruct (p c); now apply H.
    + intros s' Hs'. apply H. now apply suffix_cons_r.
Qed.

(** Captures only grow along a match, and the groups a pattern [defines]
    are set when its continuation runs. *)
Lemma run_defines r : forall s caps k a,
  run r s caps k = Some a ->
  exists s' caps',
    k s' caps' = Some a
    /\ (forall n, is_Some (caps !! n) -> is_Some (caps' !! n))
    /\ (forall n, defines r n = true -> is_Some (caps' !! n)).
Proof.
  induction r as [|p|r1 IH1 r2 IH2|r1 IH1 r2 IH2|r1 IH1|p|p|m r1 IH1|];
    intros s caps k a H; cbn [run defines] in *.
  - exists s, caps. repeat split; [exact H|auto|discriminate].
  - destruct s as [|c s]; [discriminate|]. destruct (p c); [|discriminate].
    exists s, caps. repeat split; [exact H|auto|discriminate].
  - apply IH1 in H as (s1 & caps1 & H & Hmono1 & Hdef1).
    apply IH2 in H as (s2 & caps2 & H & Hmono2 & Hdef2).
    exists s2, caps2. repeat split; [exact H|auto|].
    intros n Hn. apply orb_prop in Hn as [Hn|Hn]; auto.
  - destruct (run r1 s caps k) eqn:E.
    + injection H as ->. apply IH1 in E as (s1 & caps1 & H & Hmono & Hdef).
      exists s1, caps1. repeat split; [exact H|auto|].
      intros n Hn. apply andb_prop in Hn as [Hn _]. auto.
    + apply IH2 in H as (s1 & caps1 & H & Hmono & Hdef).
      exists s1, caps1. repeat split; [exact H|auto|].
      intros n Hn. apply andb_prop in Hn as [_ Hn]. auto.
  - destruct (run r1 s caps k) eqn:E.
    + injection H as ->. apply IH1 in E as (s1 & caps1 & H & Hmono & _).
      exists s1, caps1. repeat split; [exact H|auto|discriminate].
    + exists s, caps. repeat split; [exact H|auto|discriminate].
  - apply star_Some_inv in H as [s' H].
    exists s', caps. repeat split; [exact H|auto|discriminate].
  - destruct s as [|c s]; [discriminate|]. destruct (p c); [|discriminate].
    apply star_Some_inv in H as [s' H].
    exists s', caps. repeat split; [exact H|auto|discriminate].
  - apply IH1 in H as (s1 & caps1 & H & Hmono & Hdef).
    eexists s1, _. split; [exact H|]. split.
    + intros n Hn. destruct (decide (m = n)) as [->|Hne].
      * rewrite lookup_insert_eq. eauto.
      * rewrite lookup_insert_ne by exact Hne. auto.
    + intros n Hn. destruct (decide (m = n)) as [->|Hne].
      * rewrite lookup_insert_eq. eauto.
      * rewrite lookup_insert_ne by exact Hne.
        apply orb_prop in Hn as [Hn|Hn]; [|auto].
        apply Nat.eqb_eq in Hn. congruence.
  - destruct s as [|c s]; [|discriminate].
    exists [], caps. repeat split; [exact H|auto|discriminate].
Qed.

End MatcherFacts.


(** *** One step of the matcher at a time *)

Section Steps.

Context {A : Type}.
Implicit Types (k : jsstring -> captures -> option A) (caps : captures).

Lemma run_Seq r1 r2 s caps k :
  run (Seq r1 r2) s caps k = run r1 s caps (fun s' caps' => run r2 s' caps' k).
Proof. reflexivity. Qed.

Lemma run_Eps s caps k : run Eps s caps k = k s caps.
Proof. reflexivity. Qed.

Lemma run_Star p s caps k : run (Star p) s caps k = star p s caps k.
Proof. reflexivity. Qed.

Lemma run_Group n r s caps k :
  run (Group n r) s caps k
  = run r s caps
      (fun s' caps' => k s' (<[n := take (length s - length s') s]> caps')).
Proof. reflexivity. Qed.

Lemma run_Chr_cons p c s caps k :
  run (Chr p) (c :: s) caps k = if p c then k s caps else None.
Proof. reflexivity. Qed.

Lemma run_Plus_cons p c s caps k :
  run (Plus p) (c :: s) caps k = if p c then star p s caps k else None.
Proof. reflexivity. Qed.

Lemma run_Chr_hit p c s caps k :
  p c = true -> run (Chr p) (c :: s) caps k = k s caps.
Proof. intros H. now rewrite run_Chr_cons, H. Qed.

Lemma run_Chr_miss p s caps k :
  stopsAt p s -> run (Chr p) s caps k = None.
Proof.
  destruct s as [|c s]; [reflexivity|].
  cbn [stopsAt]. intros H. now rewrite run_Chr_cons, H.
Qed.

Lemma run_Opt_hit r s caps k a :
  run r s caps k = Some a -> run (Opt r) s caps k = Some a.
Proof. intros H. cbn [run]. now rewrite H. Qed.

Lemma run_Opt_None r s caps k :
  run r s caps k = None -> k s caps = None -> run (Opt r) s caps k = None.
Proof. intros H1 H2. cbn [run]. now rewrite H1. Qed.

Lemma run_Alt_left r1 r2 s caps k a :
  run r1 s caps k = Some a -> run (Alt r1 r2) s caps k = Some a.
Proof. intros H. cbn [run]. now rewrite H. Qed.

Lemma run_Alt_None r1 r2 s caps k :
  run r1 s caps k = None -> run r2 s caps k = None ->
  run (Alt r1 r2) s caps k = None.
Proof. intros H1 H2. cbn [run]. now rewrite H1. Qed.

Lemma star_stop p rest caps k :
  stopsAt p rest -> star p rest caps k = k rest caps.
Proof.
  destruct rest as [|c rest]; cbn [star stopsAt]; [reflexivity|].
  now intros ->.
Qed.

Lemma run_Star_greedy p run_ rest caps k a :
  Forall (fun c => p c = true) run_ -> stopsAt p rest ->
  k rest caps = Some a ->
  run (Star p) (run_ ++ rest) caps k = Some a.
Proof. intros. rewrite run_Star. now apply star_greedy. Qed.

Lemma run_Plus_greedy p run_ rest caps k a :
  run_ <> [] ->
  Forall (fun c => p c = true) run_ -> stopsAt p rest ->
  k rest caps = Some a ->
  run (Plus p) (run_ ++ rest) caps k = Some a.
Proof.
  intros Hne Hrun Hstop Hk. destruct run_ as [|c cs]; [contradiction|].
  apply Forall_cons in Hrun as [Hc Hcs]. cbn [app].
  rewrite run_Plus_cons, Hc. now apply star_greedy.
Qed.

Lemma run_Plus_None p s caps k :
  (forall s', s' `suffix_of` s -> k s' caps = None) ->
  run (Plus p) s caps k = None.
Proof.
  intros H. destruct s as [|c s]; [reflexivity|].
  rewrite run_Plus_cons. destruct (p c); [|reflexivity].
  apply star_None. intros s' Hs'. apply H. now apply suffix_cons_r.
Qed.

End Steps.

(** Follow the matcher through the steps that leave it no choice. *)
Ltac rx :=
  repeat (cbv beta;
          lazymatch goal with
          | |- run (Seq _ _) _ _ _ = _ => rewrite run_Seq
          | |- run Eps _ _ _ = _ => rewrite run_Eps
          | |- run (Group _ _) _ _ _ = _ => rewrite run_Group
          | |- run (Chr _) (_ :: _) _ _ = _ =>
              rewrite run_Chr_hit
                by (first [assumption | vm_compute; reflexivity])
          end).

Lemma take_matched {X} (a b : list X) :
  take (length (a ++ b) - length b) (a ++ b) = a.
Proof.
  rewrite length_app.
  replace (length a + length b - length b)%nat with (length a) by lia.
  apply take_app_length.
Qed.

Lemma exec_defines r s m n :
  exec r s = Some m -> defines r n = true -> is_Some (m !! n).
Proof.
  unfold exec. intros H Hn.
  apply run_defines in H as (s' & caps' & H & _ & Hdef).
  injection H as <-. auto.
Qed.

(** ** The parser never throws *)

Section ParserTotal.

Lemma groupTrim_defined r line m n :
  exec r line = Some m -> defines r n = true ->
  exists text, m !! n = Some text /\ groupTrim m n = Returns (trim text).
Proof.
  intros H Hn. destruct (exec_defines r line m n H Hn) as [text Htext].
  exists text. split; [exact Htext|]. unfold groupTrim. now rewrite Htext.
Qed.

Lemma parseLine_total i line st : exists st', parseLine i line st = Returns st'.
Proof.
  unfold parseLine.
  destruct (startsWith (lit "# ") line && (i <? 5)%nat); [eauto|].
  destruct (exec VERSION_HEADER_REGEX line) as [vm|] eqn:Ev.
  { destruct (groupTrim_defined _ _ _ 1%nat Ev) as (text & _ & ->);
      [reflexivity|]. cbn [bind]. eauto. }
  destruct (exec CATEGORY_HEADER_REGEX line) as [cm|] eqn:Ec.
  { destruct (currentVersion st) as [v|].
    - destruct (groupTrim_defined _ _ _ 1%nat Ec) as (text & _ & ->);
        [reflexivity|]. cbn [bind].
      destruct (findCategory _); eauto.
    - destruct (exec ENTRY_REGEX line); eauto. }
  destruct (exec ENTRY_REGEX line) as [em|] eqn:Ee; [|eauto].
  destruct (currentVersion st) as [v|]; [|eauto].
  destruct (currentCategory st) as [cat|]; [|eauto].
  destruct (groupTrim_defined _ _ _ 1%nat Ee) as (text & _ & ->);
    [reflexivity|]. cbn [bind]. eauto.
Qed.

Lemma parseLines_total lines : forall i st,
  exists st', parseLines lines i st = Returns st'.
Proof.
  induction lines as [|line rest IH]; intros i st; cbn [parseLines]; [eauto|].
  destruct (parseLine_total i line st) as [st' ->]. cbn [bind]. apply IH.
Qed.

(** C8. Parser totality. [parseChangelog] returns a document for every
    input: no line makes the loop throw. For the empty text the document has
    the title "Changelog", an empty description and no versions. *)
Theorem parseChangelog_total :
  (forall content, exists doc, parseChangelog content = Returns doc)
  /\ parseChangelog []
     = Returns {| title := lit "Changelog"; description := []; versions := [] |}.
Proof.
  split; [|reflexivity].
  intros content. unfold parseChangelog.
  destruct (parseLines_total (split LF content) 0 initialState) as [st ->].
  cbn [bind]. eauto.
Qed.

End ParserTotal.

(** ** The title *)

Section Title.

Import Samples.

Lemma parseLine_title i line st st' :
  parseLine i line st = Returns st' ->
  st_title st'
  = if startsWith (lit "# ") line && (i <? 5)%nat
    then trim (substringFrom 2 line) else st_title st.
Proof.
  unfold parseLine.
  destruct (startsWith (lit "# ") line && (i <? 5)%nat).
  { intros [= <-]. reflexivity. }
  unfold bind, groupTrim, collectPreamble.
  repeat case_match; intros [= <-]; reflexivity.
Qed.

(** The title after the loop: set by the last line among the first five
    that starts with ["# "], and kept otherwise. *)
Lemma parseLines_title lines : forall i st st',
  parseLines lines i st = Returns st' ->
  st_title st'
  = match last (List.filter (startsWith (lit "# ")) (take (5 - i) lines)) with
    | Some line => trim (substringFrom 2 line)
    | None => st_title st
    end.
Proof.
  induction lines as [|line rest IH]; intros i st st' H; cbn [parseLines] in H.
  - injection H as <-. now rewrite take_nil.
  - destruct (parseLine i line st) as [st1|] eqn:E; [|discriminate].
    cbn [bind] in H. apply IH in H. apply parseLine_title in E.
    destruct (Nat.ltb_spec i 5) as [Hlt|Hge].
    + replace (5 - i)%nat with (S (5 - S i)) by lia.
      cbn [take List.filter]. rewrite andb_true_r in E.
      destruct (startsWith (lit "# ") line).
      * rewrite last_cons. rewrite H.
        destruct (last _); [reflexivity|]. exact E.
      * rewrite H. destruct (last _); [reflexivity|]. exact E.
    + rewrite andb_false_r in E.
      replace (5 - i)%nat with 0%nat by lia.
      replace (5 - S i)%nat with 0%nat in H by lia.
      rewrite take_0 in *. cbn in *. congruence.
Qed.

(** C7 (amended). Title rule. The title of the parsed document is taken
    from the last line, among the first five lines of the input, that starts
    with ["# "], whether or not a version header came before it; without such
    a line it is "Changelog". A ["# "] line further down never sets it. *)
Theorem parseChangelog_title content :
  exists doc,
    parseChangelog content = Returns doc
    /\ title doc
       = match last (List.filter (startsWith (lit "# "))
                       (take 5 (split LF content))) with
         | Some line => trim (substringFrom 2 line)
         | None => lit "Changelog"
         end.
Proof.
  unfold parseChangelog.
  destruct (parseLines_total (split LF content) 0 initialState) as [st Hst].
  rewrite Hst. cbn [bind]. eexists. split; [reflexivity|].
  cbn [title]. now rewrite (parseLines_title _ _ _ _ Hst).
Qed.

(** C7 as stated fails: the ["# "] line comes after a version header and
    still sets the title. *)
Lemma parseChangelog_title_counterexample :
  split LF docLateTitle
  = [ lit "## [1.0.0] - 2024-01-01"; lit "### Added"; lit "- First release";
      lit "# Late title" ]
  /\ test VERSION_HEADER_REGEX (lit "## [1.0.0] - 2024-01-01") = true
  /\ parseChangelog docLateTitle
     = Returns
         {| title := lit "Late title";
            description := [];
            versions :=
              [ {| version := lit "1.0.0";
                   date := Some (ValidDate jan01);
                   entries := [ {| category := Added;
                                   entryDescription := lit "First release";
                                   commits := [] |} ] |} ] |}.
Proof. repeat split; vm_compute; reflexivity. Qed.

End Title.

(** ** Category headings and bullets *)

(** Replace every literal by its code units, and open up the patterns, so
    that the matcher can be run symbolically on a partly known line. *)
Ltac eval_lits :=
  repeat match goal with
         | |- context [lit ?s] =>
             let v := eval vm_compute in (lit s) in change (lit s) with v
         | H : context [lit ?s] |- _ =>
             let v := eval vm_compute in (lit s) in change (lit s) with v in H
         end.

Ltac open_patterns :=
  unfold exec, test, VERSION_HEADER_REGEX, CATEGORY_HEADER_REGEX, ENTRY_REGEX,
    UNRELEASED_REGEX, NEXT_VERSION_REGEX, str, strI, chr, chrI, digits in *;
  eval_lits.

(** Decide a test on a known code unit; fails on an unknown one. *)
Ltac eval_bool t :=
  let v := eval vm_compute in t in
  lazymatch v with
  | true => change t with true
  | false => change t with false
  end.

Ltac eval_tests :=
  repeat match goal with
         | |- context [N.eqb ?a ?b] => eval_bool (N.eqb a b)
         | |- context [isWhiteSpace ?a] => eval_bool (isWhiteSpace a)
         | |- context [isLineTerminator ?a] => eval_bool (isLineTerminator a)
         | |- context [isDigit ?a] => eval_bool (isDigit a)
         | |- context [notRBracket ?a] => eval_bool (notRBracket a)
         | |- context [dot ?a] => eval_bool (dot a)
         | |- context [dashOrStar ?a] => eval_bool (dashOrStar a)
         end.

(** Run the matcher as far as the known part of the line goes. *)
Ltac run_steps :=
  repeat (progress
            (cbn [run star seqs foldr map replicate startsWith
                  andb orb negb app];
             eval_tests)).

Section Categories.

Import Samples.

(** A line the category pattern matches starts with three hashes, so it is
    neither a title line nor a version header. *)
Lemma category_line_not_header line m :
  exec CATEGORY_HEADER_REGEX line = Some m ->
  startsWith (lit "# ") line = false
  /\ exec VERSION_HEADER_REGEX line = None.
Proof.
  open_patterns.
  destruct line as [|c1 [|c2 [|c3 rest]]]; run_steps; try discriminate.
  { destruct (35 =? c1); discriminate. }
  { destruct (35 =? c1); [|discriminate]. destruct (35 =? c2); discriminate. }
  destruct (N.eqb_spec 35 c1) as [<-|]; [|discriminate].
  destruct (N.eqb_spec 35 c2) as [<-|]; [|discriminate].
  destruct (N.eqb_spec 35 c3) as [<-|]; [|discriminate].
  intros _. run_steps. split; reflexivity.
Qed.

(** A line the bullet pattern matches starts with [-] or [*]: none of the
    earlier rules applies to it. *)
Lemma entry_line_not_header line m :
  exec ENTRY_REGEX line = Some m ->
  startsWith (lit "# ") line = false
  /\ exec VERSION_HEADER_REGEX line = None
  /\ exec CATEGORY_HEADER_REGEX line = None.
Proof.
  open_patterns.
  destruct line as [|c rest]; run_steps; [discriminate|].
  unfold dashOrStar at 1.
  destruct (N.eqb_spec c 45) as [->|H45].
  { intros _. run_steps. repeat split; reflexivity. }
  destruct (N.eqb_spec c 42) as [->|H42]; [|discriminate].
  intros _. run_steps. repeat split; reflexivity.
Qed.

Lemma parseLine_category i line st m raw v :
  exec CATEGORY_HEADER_REGEX line = Some m ->
  m !! 1%nat = Some raw ->
  currentVersion st = Some v ->
  parseLine i line st
  = Returns match findCategory (trim raw) with
            | Some cat => setCurrentCategory cat st
            | None => st
            end.
Proof.
  intros Hm Hraw Hv.
  destruct (category_line_not_header line m Hm) as [Htitle Hver].
  unfold parseLine. rewrite Htitle, Hver, Hm, Hv. cbn [andb].
  unfold groupTrim. rewrite Hraw. cbn [bind].
  destruct (findCategory (trim raw)); reflexivity.
Qed.

Lemma parseLine_entry i line st m text v cat :
  exec ENTRY_REGEX line = Some m ->
  m !! 1%nat = Some text ->
  currentVersion st = Some v ->
  currentCategory st = Some cat ->
  parseLine i line st
  = Returns (pushEntry v {| category := cat;
                            entryDescription := trim text;
                            commits := [] |} st).
Proof.
  intros Hm Htext Hv Hcat.
  destruct (entry_line_not_header line m Hm) as (Htitle & Hver & Hc).
  unfold parseLine. rewrite Htitle, Hver, Hc, Hm, Hv, Hcat. cbn [andb].
  unfold groupTrim. rewrite Htext. reflexivity.
Qed.

(** C4 (amended). Inside a version section, a third-level heading whose text
    matches one of the six categories case-insensitively sets that category;
    one that matches none leaves the parser state, and so the current
    category, as it is. A bullet line that follows such a heading is therefore
    attached to the category that was current before the heading. *)
Theorem unrecognized_heading_keeps_category
    i heading st m raw v :
  exec CATEGORY_HEADER_REGEX heading = Some m ->
  m !! 1%nat = Some raw ->
  currentVersion st = Some v ->
  (forall cat, findCategory (trim raw) = Some cat ->
     parseLine i heading st = Returns (setCurrentCategory cat st))
  /\ (findCategory (trim raw) = None ->
      parseLine i heading st = Returns st
      /\ forall bullet em text cat,
           exec ENTRY_REGEX bullet = Some em ->
           em !! 1%nat = Some text ->
           currentCategory st = Some cat ->
           parseLines [heading; bullet] i st
           = Returns (pushEntry v {| category := cat;
                                     entryDescription := trim text;
                                     commits := [] |} st)).
Proof.
  intros Hm Hraw Hv.
  pose proof (parseLine_category i heading st m raw v Hm Hraw Hv) as Hstep.
  split.
  - intros cat Hcat. now rewrite Hcat in Hstep.
  - intros Hnone. rewrite Hnone in Hstep. split; [exact Hstep|].
    intros bullet em text cat Hem Htext Hcat.
    cbn [parseLines]. rewrite Hstep. cbn [bind].
    rewrite (parseLine_entry (S i) bullet st em text v cat Hem Htext Hv Hcat).
    reflexivity.
Qed.

Lemma unrecognized_heading_keeps_category_witness :
  parseLine 5 (lit "### fixed") stateUnderAdded
  = Returns (setCurrentCategory Fixed stateUnderAdded)
  /\ parseLines [lit "### Miscellaneous"; lit "- Tidy the build"] 3
       stateUnderAdded
     = Returns
         (pushEntry
            {| version := lit "1.0.0";
               date := Some (ValidDate jan01);
               entries := [ {| category := Added;
                               entryDescription := lit "Add login";
                               commits := [] |} ] |}
            {| category := Added;
               entryDescription := trim (lit "Tidy the build");
               commits := [] |}
            stateUnderAdded).
Proof.
  split.
  - destruct (unrecognized_heading_keeps_category 5 (lit "### fixed")
                stateUnderAdded (<[1%nat := lit "fixed"]> ∅) (lit "fixed")
                {| version := lit "1.0.0";
                   date := Some (ValidDate jan01);
                   entries := [ {| category := Added;
                                   entryDescription := lit "Add login";
                                   commits := [] |} ] |}
                eq_refl eq_refl eq_refl) as [Hset _].
    apply Hset. reflexivity.
  - destruct (unrecognized_heading_keeps_category 3 (lit "### Miscellaneous")
                stateUnderAdded (<[1%nat := lit "Miscellaneous"]> ∅)
                (lit "Miscellaneous")
                {| version := lit "1.0.0";
                   date := Some (ValidDate jan01);
                   entries := [ {| category := Added;
                                   entryDescription := lit "Add login";
                                   commits := [] |} ] |}
                eq_refl eq_refl eq_refl) as [_ Hkeep].
    destruct (Hkeep eq_refl) as [_ Hbullet].
    apply (Hbullet (lit "- Tidy the build")
             (<[1%nat := lit "Tidy the build"]> ∅) (lit "Tidy the build") Added);
      reflexivity.
Defined.

(** C4 as stated fails: the bullet under "### Miscellaneous" is not dropped,
    it is filed under "Added", the category before that heading. *)
Lemma unrecognized_heading_counterexample :
  findCategory (lit "Miscellaneous") = None
  /\ findCategory (lit "fixed") = Some Fixed
  /\ parseChangelog docMiscHeading
     = Returns
         {| title := lit "Changelog";
            description := [];
            versions :=
              [ {| version := lit "1.0.0";
                   date := Some (ValidDate jan01);
                   entries :=
                     [ {| category := Added;
                          entryDescription := lit "Add login";
                          commits := [] |};
                       {| category := Added;
                          entryDescription := lit "Tidy the build";
                          commits := [] |};
                       {| category := Fixed;
                          entryDescription := lit "Fix crash";
                          commits := [] |} ] |} ] |}.
Proof. repeat split; vm_compute; reflexivity. Qed.

End Categories.

(** ** Lines the patterns are known to match, or not to match *)

Section KnownLines.

Import Samples.

Lemma digit_not_space c : isDigit c = true -> isWhiteSpace c = false.
Proof.
  unfold isDigit, isWhiteSpace. intros H. apply andb_prop in H as [H1 H2].
  apply N.leb_le in H1, H2.
  repeat match goal with
         | |- context [N.eqb c ?n] => destruct (N.eqb_spec c n); [lia|]
         end.
  destruct (N.leb_spec 8192 c); [lia|]. reflexivity.
Qed.

Example header_with_date :
  exec VERSION_HEADER_REGEX (lit "## [1.0.0] - 2024-01-01")
  = Some (<[2%nat := lit "2024-01-01"]> (<[1%nat := lit "1.0.0"]> ∅)).
Proof. reflexivity. Qed.

Example header_trailing_space :
  exec VERSION_HEADER_REGEX (lit "## [Unreleased] ")
  = Some (<[1%nat := lit "Unreleased"]> ∅).
Proof. reflexivity. Qed.

Example header_bare_label_swallows_date :
  exec VERSION_HEADER_REGEX (lit "## 1.0.0 2024-01-01")
  = Some (<[1%nat := lit "1.0.0 2024-01"]> ∅).
Proof. reflexivity. Qed.

Example category_heading_trailing_cr :
  exec CATEGORY_HEADER_REGEX (lit "### Added" ++ [13]) = None.
Proof. reflexivity. Qed.

(** The version header the formatter writes for a dated release. *)
Lemma header_match_digits v y1 y2 y3 y4 m1 m2 d1 d2 :
  v <> [] ->
  Forall (fun c => notRBracket c = true) v ->
  isDigit y1 = true -> isDigit y2 = true ->
  isDigit y3 = true -> isDigit y4 = true ->
  isDigit m1 = true -> isDigit m2 = true ->
  isDigit d1 = true -> isDigit d2 = true ->
  exec VERSION_HEADER_REGEX
    (lit "## [" ++ v ++ lit "] - " ++ [y1; y2; y3; y4; 45; m1; m2; 45; d1; d2])
  = Some (<[2%nat := [y1; y2; y3; y4; 45; m1; m2; 45; d1; d2]]>
            (<[1%nat := v]> ∅)).
Proof.
  intros Hne Hv Hy1 Hy2 Hy3 Hy4 Hm1 Hm2 Hd1 Hd2.
  open_patterns. cbn [seqs foldr map replicate app].
  rx.
  apply (run_Plus_greedy _ [32] (91 :: _));
    [discriminate|repeat constructor|reflexivity|].
  rx. apply run_Opt_hit. rx.
  apply (run_Plus_greedy _ v (93 :: _)); [exact Hne|exact Hv|reflexivity|].
  rx. rewrite take_matched.
  apply run_Opt_hit. rx.
  apply run_Alt_left. rx.
  apply (run_Star_greedy _ [32] (45 :: _)); [repeat constructor|reflexivity|].
  rx.
  apply (run_Star_greedy _ [32] (y1 :: _));
    [repeat constructor|now apply digit_not_space|].
  rx. apply run_Opt_hit. rx.
  reflexivity.
Qed.

(** A bullet line whose text starts on a visible code unit and stays on
    one line. *)
Lemma entry_match text :
  text <> [] ->
  stopsAt isWhiteSpace text ->
  Forall (fun c => dot c = true) text ->
  exec ENTRY_REGEX (lit "- " ++ text) = Some (<[1%nat := text]> ∅).
Proof.
  intros Hne Hstop Hdot.
  open_patterns. cbn [seqs foldr map replicate app].
  rx.
  apply (run_Plus_greedy _ [32] text);
    [discriminate|repeat constructor|exact Hstop|].
  rx. rewrite <- (app_nil_r text) at 1.
  apply run_Plus_greedy; [exact Hne|exact Hdot|exact I|].
  rx. cbn [run length]. rewrite Nat.sub_0_r, firstn_all. reflexivity.
Qed.

Lemma inert_suffix s s' : inert s -> s' `suffix_of` s -> inert s'.
Proof.
  intros Hs [pre ->]. unfold inert in *.
  now apply Forall_app in Hs as [_ Hs].
Qed.

(** The separator needs white space or a dash. *)
Lemma separator_fails {A} s caps (k : jsstring -> captures -> option A) :
  inert s ->
  run (Alt (Seq (Star isWhiteSpace)
                (Seq (Chr (N.eqb 45)) (Seq (Star isWhiteSpace) Eps)))
           (Plus isWhiteSpace)) s caps k = None.
Proof.
  intros Hs. apply run_Alt_None.
  - rewrite run_Seq, run_Star.
    destruct Hs as [|c s [Hws Hc] _]; cbn [star].
    + reflexivity.
    + rewrite Hws, run_Seq. apply run_Chr_miss. now apply N.eqb_neq.
  - destruct Hs as [|c s [Hws Hc] _]; [reflexivity|].
    now rewrite run_Plus_cons, Hws.
Qed.

Lemma afterLabel_fails {A} s caps (k : jsstring -> captures -> option A) :
  inert s -> run afterLabel s caps k = None.
Proof.
  intros Hs. unfold afterLabel, chr, digits. cbn [seqs foldr map replicate].
  rewrite run_Seq. apply run_Opt_None.
  - destruct s as [|c s]; [reflexivity|]. rewrite run_Chr_cons.
    destruct (93 =? c); [|reflexivity].
    rewrite run_Seq. apply separator_fails.
    apply (inert_suffix (c :: s)); [exact Hs|]. now apply suffix_cons_r.
  - rewrite run_Seq. now apply separator_fails.
Qed.

(** Wherever the label is cut, nothing the pattern needs can follow. *)
Lemma bare_header_no_match label :
  inert label ->
  exec VERSION_HEADER_REGEX (lit "## [" ++ label ++ lit "]") = None.
Proof.
  intros Hlabel.
  assert (Hall : inert (91 :: label ++ [93])).
  { constructor; [split; [reflexivity|discriminate]|].
    apply Forall_app. split; [exact Hlabel|].
    constructor; [split; [reflexivity|discriminate]|constructor]. }
  open_patterns. cbn [seqs foldr map replicate app].
  rx. rewrite run_Plus_cons. change (isWhiteSpace 32) with true. cbv iota.
  rewrite star_stop by reflexivity.
  rewrite run_Seq. apply run_Opt_None.
  - rx. apply run_Plus_None. intros s' Hs'. rewrite run_Seq.
    apply (afterLabel_fails s').
    apply (inert_suffix (91 :: label ++ [93])); [exact Hall|].
    now apply suffix_cons_r.
  - rx. apply run_Plus_None. intros s' Hs'. rewrite run_Seq.
    apply (afterLabel_fails s').
    now apply (inert_suffix (91 :: label ++ [93])).
Qed.

(** A line that starts with ["## "] is no category heading and no bullet. *)
Lemma second_level_not_category rest :
  exec CATEGORY_HEADER_REGEX (35 :: 35 :: 32 :: rest) = None.
Proof.
  open_patterns. cbn [seqs foldr map]. rx. now apply run_Chr_miss.
Qed.

Lemma hash_not_entry rest : exec ENTRY_REGEX (35 :: rest) = None.
Proof.
  open_patterns. cbn [seqs foldr map]. rx. now apply run_Chr_miss.
Qed.

(** Collecting preamble text touches nothing the result is built from. *)
Lemma collectPreamble_frame line st :
  st_title (collectPreamble line st) = st_title st
  /\ st_description (collectPreamble line st) = st_description st
  /\ st_versions (collectPreamble line st) = st_versions st
  /\ currentVersion (collectPreamble line st) = currentVersion st.
Proof.
  unfold collectPreamble.
  destruct (inPreamble st), (trim line); repeat split; reflexivity.
Qed.

Lemma inert_forallb label :
  forallb (fun c => negb (isWhiteSpace c) && negb (c =? 45)) label = true ->
  inert label.
Proof.
  induction label as [|c l IH]; cbn [forallb]; intros H; [constructor|].
  apply andb_prop in H as [Hc Hl]. apply andb_prop in Hc as [Hws H45].
  apply negb_true_iff in Hws, H45. apply N.eqb_neq in H45.
  constructor; [now split|now apply IH].
Qed.

(** C3 (the code at the claim's inputs). A heading [## [label]] with nothing
    after it is not recognised as a version header when the label holds no
    white space and no [-]: the pattern demands a separator after the label,
    so the parser opens no version section for such a line. *)
Theorem bare_version_header_not_recognized label :
  forallb (fun c => negb (isWhiteSpace c) && negb (c =? 45)) label = true ->
  test VERSION_HEADER_REGEX (lit "## [" ++ label ++ lit "]") = false
  /\ parseChangelog (lit "## [" ++ label ++ lit "]")
     = Returns {| title := lit "Changelog"; description := []; versions := [] |}.
Proof.
  intros Hlabel. apply inert_forallb in Hlabel.
  pose proof (bare_header_no_match label Hlabel) as Hno.
  split; [unfold test; now rewrite Hno|].
  unfold parseChangelog. rewrite split_no_sep.
  - cbn [parseLines]. unfold parseLine. rewrite Hno.
    eval_lits. cbn [app startsWith]. eval_tests. cbn [andb].
    rewrite second_level_not_category, hash_not_entry.
    cbn [bind].
    destruct (collectPreamble_frame (35 :: 35 :: 32 :: 91 :: label ++ [93])
                initialState) as (-> & -> & -> & ->).
    reflexivity.
  - eval_lits. cbn [app]. rewrite !elem_of_cons, elem_of_app.
    intros [H|[H|[H|[H|[H|H]]]]]; try discriminate.
    + unfold inert in Hlabel. rewrite Forall_forall in Hlabel.
      destruct (Hlabel _ H) as [Hws _]. discriminate.
    + apply list_elem_of_singleton in H. discriminate.
Qed.

Lemma bare_version_header_not_recognized_witness :
  test VERSION_HEADER_REGEX docBareHeader = false
  /\ parseChangelog docBareHeader
     = Returns {| title := lit "Changelog"; description := []; versions := [] |}.
Proof.
  apply (bare_version_header_not_recognized (lit "1.0.0")). reflexivity.
Defined.

(** A label with a dash is cut at the dash. *)
Example dashed_label_is_cut :
  parseChangelog (lit "## [1.0.0-beta]")
  = Returns {| title := lit "Changelog";
               description := [];
               versions := [ {| version := lit "1.0.0";
                                date := None;
                                entries := [] |} ] |}.
Proof. reflexivity. Qed.

(** The Unreleased section [createNewChangelog] writes is not read back. *)
Example new_changelog_unreleased_not_parsed :
  parseChangelog (createNewChangelog (lit "1.0.0") jan01 changes1 None)
  = Returns
      {| title := lit "Changelog";
         description :=
           lit "All notable changes to this project will be documented in this file."
           ++ nl
           ++ lit "The format is based on [Keep a Changelog](https://keepachangelog.com/en/1.1.0/),"
           ++ nl
           ++ lit "and this project adheres to [Semantic Versioning](https://semver.org/spec/v2.0.0.html)."
           ++ nl
           ++ lit "## [Unreleased]";
         versions :=
           [ {| version := lit "1.0.0";
                date := Some (ValidDate jan01);
                entries :=
                  [ {| category := Added;
                       entryDescription := lit "Add login";
                       commits := [] |};
                    {| category := Added;
                       entryDescription := lit "Add dark mode";
                       commits := [] |};
                    {| category := Fixed;
                       entryDescription := lit "Fix crash on start";
                       commits := [] |} ] |} ] |}.
Proof. vm_compute. reflexivity. Qed.

End KnownLines.

(** ** Rendering a version and parsing it again *)

Section RoundTripFacts.

Import Samples.

Lemma pad_length w : forall n, length (pad w n) = w.
Proof.
  induction w as [|w IH]; intros n; cbn [pad]; [reflexivity|].
  rewrite length_app, IH. cbn. lia.
Qed.

Lemma isDigit_digit n : isDigit (48 + n mod 10) = true.
Proof.
  unfold isDigit. pose proof (N.mod_upper_bound n 10 ltac:(lia)).
  apply andb_true_intro.
  split; apply N.leb_le; revert H; generalize (n mod 10); intros; lia.
Qed.

Lemma pad_isDigit w : forall n, Forall (fun c => isDigit c = true) (pad w n).
Proof.
  induction w as [|w IH]; intros n; cbn [pad]; [constructor|].
  apply Forall_app. split; [apply IH|]. repeat constructor. apply isDigit_digit.
Qed.

Lemma digitsValue_snoc s c : digitsValue (s ++ [c]) = 10 * digitsValue s + (c - 48).
Proof. unfold digitsValue. now rewrite foldl_app. Qed.

Lemma digitsValue_pad w : forall n, n < 10 ^ N.of_nat w -> digitsValue (pad w n) = n.
Proof.
  induction w as [|w IH]; intros n Hn; cbn [pad].
  - cbn in Hn. unfold digitsValue. cbn. lia.
  - rewrite digitsValue_snoc, IH.
    + pose proof (N.div_mod' n 10) as E.
      revert E. generalize (n / 10), (n mod 10). intros; lia.
    + rewrite Nat2N.inj_succ, N.pow_succ_r' in Hn.
      apply N.Div0.div_lt_upper_bound. exact Hn.
Qed.

Lemma formatDate_digits d :
  (0 <= year d <= 9999)%Z ->
  formatDate d
  = pad 4 (Z.to_N (year d)) ++ 45 :: pad 2 (month d) ++ 45 :: pad 2 (day d).
Proof.
  intros Hy. unfold formatDate, toISOString.
  replace ((0 <=? year d)%Z && (year d <=? 9999)%Z) with true
    by (symmetry; apply andb_true_intro; split; apply Z.leb_le; lia).
  eval_lits.
  set (Y := pad 4 _). set (M := pad 2 (month d)). set (D := pad 2 (day d)).
  set (rest := pad 2 (hours d) ++ _).
  replace (Y ++ [45] ++ M ++ [45] ++ D ++ [84] ++ rest)
    with ((Y ++ 45 :: M ++ 45 :: D) ++ 84 :: rest)
    by (now rewrite <- !app_assoc; cbn [app]; rewrite <- !app_assoc).
  rewrite split_app_sep, split_no_sep; [reflexivity|].
  assert (Hdig : forall w n, 84 ∉ pad w n).
  { intros w n H. pose proof (pad_isDigit w n) as Hall.
    rewrite Forall_forall in Hall. specialize (Hall _ H). discriminate. }
  rewrite elem_of_app, elem_of_cons, elem_of_app, elem_of_cons.
  intros [H|[H|[H|[H|H]]]]; try discriminate; eapply Hdig; exact H.
Qed.

Lemma daysInMonth_bounds y m : 28 <= daysInMonth y m <= 31.
Proof.
  unfold daysInMonth.
  destruct (m =? 2); [destruct (isLeapYear y); lia|].
  destruct ((m =? 4) || (m =? 6) || (m =? 9) || (m =? 11)); lia.
Qed.

Lemma dateOk_calendar d :
  dateOk d = true ->
  (0 <= year d <= 9999)%Z /\ 1 <= month d <= 12
  /\ 1 <= day d <= daysInMonth (Z.to_N (year d)) (month d).
Proof.
  unfold dateOk. intros H.
  apply andb_prop in H as [H Hd2]. apply andb_prop in H as [H Hd1].
  apply andb_prop in H as [H Hm2]. apply andb_prop in H as [H Hm1].
  apply andb_prop in H as [Hy1 Hy2].
  apply Z.leb_le in Hy1, Hy2. apply N.leb_le in Hm1, Hm2, Hd1, Hd2. lia.
Qed.

Lemma newDate_formatDate d :
  dateOk d = true -> newDate (formatDate d) = ValidDate (utcMidnight d).
Proof.
  intros Hdate. destruct (dateOk_calendar d Hdate) as (Hy & Hm & Hd).
  pose proof (daysInMonth_bounds (Z.to_N (year d)) (month d)) as Hdays.
  rewrite formatDate_digits by exact Hy.
  unfold newDate, utcMidnight.
  pose proof (pad_length 4 (Z.to_N (year d))) as HY.
  pose proof (pad_length 2 (month d)) as HM.
  pose proof (pad_length 2 (day d)) as HD.
  set (Y := pad 4 _) in *. set (M := pad 2 (month d)) in *. set (D := pad 2 (day d)) in *.
  assert (E1 : take 4 (Y ++ 45 :: M ++ 45 :: D) = Y).
  { rewrite <- HY at 1. apply take_app_length. }
  assert (E2 : take 2 (drop 5 (Y ++ 45 :: M ++ 45 :: D)) = M).
  { replace (Y ++ 45 :: M ++ 45 :: D) with ((Y ++ [45]) ++ M ++ 45 :: D)
      by (now rewrite <- app_assoc).
    rewrite drop_app_length' by (rewrite length_app, HY; reflexivity).
    rewrite <- HM at 1. apply take_app_length. }
  assert (E3 : take 2 (drop 8 (Y ++ 45 :: M ++ 45 :: D)) = D).
  { replace (Y ++ 45 :: M ++ 45 :: D) with ((Y ++ 45 :: M ++ [45]) ++ D)
      by (now rewrite <- !app_assoc; cbn [app]; rewrite <- !app_assoc).
    rewrite drop_app_length' by (rewrite length_app; cbn [length]; rewrite length_app, HY, HM; reflexivity).
    rewrite <- HD at 1. apply firstn_all. }
  rewrite E1, E2, E3. subst Y M D.
  rewrite !digitsValue_pad by (cbn; lia). cbv zeta.
  replace ((1 <=? month d) && (month d <=? 12) && (1 <=? day d)
           && (day d <=? 31)) with true
    by (symmetry; repeat (apply andb_true_intro; split); apply N.leb_le; lia).
  replace (day d <=? daysInMonth (Z.to_N (year d)) (month d)) with true
    by (symmetry; apply N.leb_le; lia).
  f_equal. f_equal. lia.
Qed.

(** *** White space at the ends *)

Lemma trimStart_length s : (length (trimStart s) <= length s)%nat.
Proof.
  induction s as [|c s IH]; cbn [trimStart length]; [lia|].
  destruct (isWhiteSpace c); cbn [length]; lia.
Qed.

Lemma trim_length s : (length (trim s) <= length s)%nat.
Proof.
  unfold trim, trimEnd. rewrite length_rev.
  pose proof (trimStart_length (rev (trimStart s))) as H1.
  rewrite length_rev in H1. pose proof (trimStart_length s). lia.
Qed.

(** A trimmed text starts on a visible code unit. *)
Lemma trimmed_head c s : trim (c :: s) = c :: s -> isWhiteSpace c = false.
Proof.
  intros H. destruct (isWhiteSpace c) eqn:E; [|reflexivity].
  exfalso. apply (f_equal length) in H. unfold trim in H. cbn [trimStart] in H.
  rewrite E in H. fold (trim s) in H. pose proof (trim_length s). cbn [length] in H. lia.
Qed.

Lemma trimStart_snoc_visible s c :
  isWhiteSpace c = false -> trimStart (s ++ [c]) <> [].
Proof.
  intros Hc. induction s as [|a s IH]; cbn [app trimStart].
  - now rewrite Hc.
  - destruct (isWhiteSpace a); [exact IH|discriminate].
Qed.

Lemma trim_visible_head c s : isWhiteSpace c = false -> trim (c :: s) <> [].
Proof.
  intros Hc. unfold trim, trimEnd. cbn [trimStart]. rewrite Hc.
  cbn [rev]. intros H. apply (f_equal (@rev N)) in H. rewrite rev_involutive in H.
  cbn [rev] in H. now apply (trimStart_snoc_visible (rev s) c).
Qed.

Lemma isTrimmed_eq s : isTrimmed s = true -> trim s = s.
Proof. unfold isTrimmed, jsstring_eqb. apply bool_decide_eq_true_1. Qed.

(** *** The parser on the lines of a rendered block *)

Lemma parseLines_app l1 : forall l2 i st,
  parseLines (l1 ++ l2) i st
  = bind (parseLines l1 i st) (fun st' => parseLines l2 (i + length l1) st').
Proof.
  induction l1 as [|l ls IH]; intros l2 i st; cbn [app parseLines length bind].
  - now rewrite Nat.add_0_r.
  - destruct (parseLine i l st) as [st1|]; cbn [bind]; [|reflexivity].
    rewrite IH. now rewrite Nat.add_succ_r.
Qed.

Lemma parseLine_blank i st : parseLine i [] st = Returns st.
Proof.
  unfold parseLine, collectPreamble. cbn [startsWith andb].
  change (exec VERSION_HEADER_REGEX []) with (@None captures).
  change (exec CATEGORY_HEADER_REGEX []) with (@None captures).
  change (exec ENTRY_REGEX []) with (@None captures).
  change (trim []) with (@nil N).
  now destruct (inPreamble st).
Qed.

Lemma parseLine_heading i cat label date es c :
  parseLine i (lit "### " ++ categoryName cat) (inVersion label date es c)
  = Returns (inVersion label date es (Some cat)).
Proof.
  rewrite (parseLine_category i _ _ (<[1%nat := categoryName cat]> ∅)
             (categoryName cat) {| version := label; date := date; entries := es |}).
  - replace (findCategory (trim (categoryName cat))) with (Some cat)
      by (now destruct cat). reflexivity.
  - destruct cat; reflexivity.
  - apply lookup_insert_eq.
  - reflexivity.
Qed.

Lemma parseLine_bullet i text label date es cat :
  descriptionOk text = true ->
  parseLine i (lit "- " ++ text) (inVersion label date es (Some cat))
  = Returns (inVersion label date
               (es ++ [ {| category := cat; entryDescription := text; commits := [] |} ])
               (Some cat)).
Proof.
  intros Hok. unfold descriptionOk in Hok. destruct text as [|c text']; [discriminate|].
  apply andb_prop in Hok as [Hdot Htrim]. apply isTrimmed_eq in Htrim.
  rewrite (parseLine_entry i _ _ (<[1%nat := c :: text']> ∅) (c :: text')
             {| version := label; date := date; entries := es |} cat).
  - rewrite Htrim. reflexivity.
  - apply entry_match; [discriminate|now apply (trimmed_head c text')|].
    apply Forall_forall. intros x Hx. rewrite forallb_forall in Hdot.
    apply Hdot. now apply list_elem_of_In.
  - apply lookup_insert_eq.
  - reflexivity.
  - reflexivity.
Qed.

Lemma parseLines_bullets texts : forall i label date es cat,
  forallb descriptionOk texts = true ->
  parseLines (map (fun text => lit "- " ++ text) texts) i
    (inVersion label date es (Some cat))
  = Returns (inVersion label date
               (es ++ map (fun text => {| category := cat; entryDescription := text; commits := [] |}) texts)
               (Some cat)).
Proof.
  induction texts as [|t ts IH]; intros i label date es cat Hok;
    cbn [map parseLines].
  - now rewrite app_nil_r.
  - cbn [forallb] in Hok. apply andb_prop in Hok as [Ht Hts].
    rewrite parseLine_bullet by exact Ht. cbn [bind].
    rewrite IH by exact Hts. now rewrite <- app_assoc.
Qed.

Lemma descriptionOk_no_LF text : descriptionOk text = true -> LF ∉ text.
Proof.
  unfold descriptionOk. destruct text as [|c t]; [discriminate|].
  intros H. apply andb_prop in H as [Hdot _]. intros Hin.
  rewrite forallb_forall in Hdot. apply list_elem_of_In in Hin.
  specialize (Hdot _ Hin). discriminate.
Qed.

Lemma formatEntry_plain cat text repoUrl :
  formatEntry {| category := cat; entryDescription := text; commits := [] |} repoUrl
  = lit "- " ++ text.
Proof. reflexivity. Qed.

Lemma split_bullets cat repoUrl texts :
  forallb descriptionOk texts = true ->
  flat_map (split LF)
    (map (fun description =>
            formatEntry {| category := cat; entryDescription := description;
                           commits := [] |} repoUrl) texts)
  = map (fun text => lit "- " ++ text) texts.
Proof.
  induction texts as [|t ts IH]; cbn [forallb map flat_map]; intros H;
    [reflexivity|].
  apply andb_prop in H as [Ht Hts]. rewrite IH by exact Hts.
  rewrite formatEntry_plain, split_no_sep; [reflexivity|].
  apply descriptionOk_no_LF in Ht. eval_lits. cbn [app].
  rewrite !elem_of_cons. intros [H|[H|H]]; try discriminate. contradiction.
Qed.

(** The lines one category contributes to the rendered block. *)
Lemma categorySections_lines changes repoUrl cat :
  forallb descriptionOk (listed changes cat) = true ->
  flat_map (split LF) (categorySections changes repoUrl cat)
  = match listed changes cat with
    | [] => []
    | _ :: _ =>
        [lit "### " ++ categoryName cat; []]
        ++ map (fun text => lit "- " ++ text) (listed changes cat)
        ++ [[]]
    end.
Proof.
  unfold categorySections, listed.
  destruct (categories changes !! cat) as [[|t ts]|]; cbn [default];
    [reflexivity| |reflexivity].
  intros Hok. rewrite !flat_map_app, split_bullets by exact Hok.
  cbn [flat_map]. rewrite app_nil_r.
  replace (split LF (lit "### " ++ categoryName cat ++ nl))
    with [lit "### " ++ categoryName cat; []] by (now destruct cat).
  reflexivity.
Qed.

Lemma parseLines_category_block changes repoUrl cat i label date es c :
  forallb descriptionOk (listed changes cat) = true ->
  exists c',
    parseLines (flat_map (split LF) (categorySections changes repoUrl cat)) i
      (inVersion label date es c)
    = Returns (inVersion label date (es ++ groupedEntries changes [cat]) c').
Proof.
  intros Hok. rewrite categorySections_lines by exact Hok.
  unfold groupedEntries. cbn [flat_map]. rewrite app_nil_r.
  destruct (listed changes cat) as [|t ts] eqn:E.
  - exists c. cbn [map parseLines]. now rewrite app_nil_r.
  - exists (Some cat). cbn [app parseLines].
    rewrite parseLine_heading. cbn [bind].
    rewrite parseLine_blank. cbn [bind].
    rewrite parseLines_app, parseLines_bullets by exact Hok. cbn [bind parseLines].
    rewrite parseLine_blank. reflexivity.
Qed.

Lemma parseLines_blocks changes repoUrl cats : forall i label date es c,
  forallb (fun cat => forallb descriptionOk (listed changes cat)) cats = true ->
  exists c',
    parseLines
      (flat_map (split LF) (flat_map (categorySections changes repoUrl) cats)) i
      (inVersion label date es c)
    = Returns (inVersion label date (es ++ groupedEntries changes cats) c').
Proof.
  induction cats as [|cat cats IH]; intros i label date es c Hok.
  - exists c. cbn. now rewrite app_nil_r.
  - cbn [forallb] in Hok. apply andb_prop in Hok as [Hcat Hcats].
    cbn [flat_map]. rewrite flat_map_app, parseLines_app.
    destruct (parseLines_category_block changes repoUrl cat i label date es c Hcat)
      as [c1 ->].
    cbn [bind].
    destruct (IH (i + length (flat_map (split LF) (categorySections changes repoUrl cat)))%nat
                label date (es ++ groupedEntries changes [cat]) c1 Hcats)
      as [c2 ->].
    exists c2. f_equal. f_equal. rewrite <- app_assoc. f_equal.
    unfold groupedEntries. cbn [flat_map]. now rewrite app_nil_r.
Qed.

(** The rendered sections, when there are any, start with a heading. *)
Lemma sections_start changes repoUrl cats :
  flat_map (categorySections changes repoUrl) cats <> [] ->
  exists rest, join nl (flat_map (categorySections changes repoUrl) cats) = 35 :: rest.
Proof.
  induction cats as [|cat cats IH]; cbn [flat_map]; [contradiction|].
  unfold categorySections at 1 3.
  destruct (categories changes !! cat) as [[|t ts]|]; cbn [app]; try exact IH.
  intros _. eval_lits. cbn [app].
  match goal with
  | |- context [join nl (?x :: ?y)] => destruct y; cbn [join app]; eauto
  end.
Qed.

Lemma labelOk_facts label :
  labelOk label = true ->
  label <> [] /\ Forall (fun c => notRBracket c = true) label
  /\ (LF ∉ label) /\ trim label = label.
Proof.
  unfold labelOk. destruct label as [|c l]; [discriminate|].
  intros H. apply andb_prop in H as [Hall Htrim].
  split; [discriminate|]. split; [|split; [|now apply isTrimmed_eq]].
  - apply Forall_forall. intros x Hx. rewrite forallb_forall in Hall.
    apply list_elem_of_In in Hx. specialize (Hall _ Hx).
    now apply andb_prop in Hall as [Hall _].
  - intros Hin. rewrite forallb_forall in Hall.
    apply list_elem_of_In in Hin. specialize (Hall _ Hin).
    apply andb_prop in Hall as [_ Hall]. discriminate.
Qed.

Lemma dateOk_facts d :
  dateOk d = true ->
  (0 <= year d <= 9999)%Z /\ (month d < 100) /\ (day d < 100).
Proof.
  intros H. destruct (dateOk_calendar d H) as (Hy & Hm & Hd).
  pose proof (daysInMonth_bounds (Z.to_N (year d)) (month d)). lia.
Qed.

Lemma formatDate_no_LF d : (0 <= year d <= 9999)%Z -> LF ∉ formatDate d.
Proof.
  intros Hy. rewrite formatDate_digits by exact Hy.
  assert (Hdig : forall w n, LF ∉ pad w n).
  { intros w n H. pose proof (pad_isDigit w n) as Hall.
    rewrite Forall_forall in Hall. specialize (Hall _ H). discriminate. }
  rewrite elem_of_app, elem_of_cons, elem_of_app, elem_of_cons.
  intros [H|[H|[H|[H|H]]]]; try discriminate; eapply Hdig; exact H.
Qed.

(** The lines of a rendered, dated version block. *)
Lemma formatVersion_lines label d changes repoUrl :
  LF ∉ label -> (0 <= year d <= 9999)%Z ->
  split LF (formatVersion label (Some d) changes repoUrl)
  = (lit "## [" ++ label ++ lit "]" ++ lit " - " ++ formatDate d)
    :: [] :: flat_map (split LF)
                (flat_map (categorySections changes repoUrl) CATEGORY_ORDER).
Proof.
  intros Hlabel Hy. unfold formatVersion, formatAIEntries.
  set (header := lit "## [" ++ label ++ lit "]" ++ lit " - " ++ formatDate d).
  set (sections := flat_map (categorySections changes repoUrl) CATEGORY_ORDER).
  assert (Hheader : split LF header = [header]).
  { apply split_no_sep. subst header. eval_lits. cbn [app].
    rewrite !elem_of_cons, elem_of_app, !elem_of_cons.
    pose proof (formatDate_no_LF d Hy).
    intros [H'|[H'|[H'|[H'|[H'|[H'|[H'|[H'|[H'|H']]]]]]]]];
      try discriminate; contradiction. }
  destruct sections as [|sec secs] eqn:E.
  - cbn [join]. change (trim []) with (@nil N). cbn [app flat_map].
    rewrite split_join by discriminate. cbn [flat_map]. rewrite Hheader.
    reflexivity.
  - destruct (sections_start changes repoUrl CATEGORY_ORDER) as [rest Hrest].
    { fold sections. rewrite E. discriminate. }
    fold sections in Hrest. rewrite E in Hrest. rewrite Hrest.
    pose proof (trim_visible_head 35 rest eq_refl) as Hvis.
    destruct (trim (35 :: rest)); [contradiction|].
    cbn [app]. rewrite split_join by discriminate.
    cbn [flat_map]. rewrite Hheader, app_nil_r. rewrite <- Hrest.
    rewrite split_join by discriminate. reflexivity.
Qed.

Lemma parseLine_dated_header label d :
  labelOk label = true -> dateOk d = true ->
  parseLine 0 (lit "## [" ++ label ++ lit "]" ++ lit " - " ++ formatDate d)
    initialState
  = Returns (inVersion label (Some (ValidDate (utcMidnight d))) [] None).
Proof.
  intros Hlabel Hdate.
  destruct (labelOk_facts label Hlabel) as (Hne & Hnrb & HLF & Htrim).
  destruct (dateOk_facts d Hdate) as (Hy & Hm & Hd).
  pose proof (newDate_formatDate d Hdate) as Hnew.
  pose proof (formatDate_digits d Hy) as Hfmt.
  pose proof (pad_isDigit 4 (Z.to_N (year d))) as HY.
  pose proof (pad_isDigit 2 (month d)) as HM.
  pose proof (pad_isDigit 2 (day d)) as HD.
  cbn [pad app] in Hfmt, HY, HM, HD.
  repeat match goal with
         | H : Forall _ (_ :: _) |- _ => apply Forall_cons in H as [? H]
         end.
  unfold parseLine.
  assert (Hexec :
    exec VERSION_HEADER_REGEX
      (lit "## [" ++ label ++ lit "]" ++ lit " - " ++ formatDate d)
    = Some (<[2%nat := formatDate d]> (<[1%nat := label]> ∅))).
  { rewrite Hfmt. now apply header_match_digits. }
  rewrite Hexec.
  replace (startsWith (lit "# ") (lit "## [" ++ label ++ lit "]" ++ lit " - " ++ formatDate d))
    with false by reflexivity.
  cbn [andb]. unfold groupTrim, matchedDate.
  rewrite lookup_insert_ne by discriminate. rewrite !lookup_insert_eq.
  rewrite Htrim. cbn [bind].
  rewrite Hnew. rewrite Hfmt. reflexivity.
Qed.

(** C2 (amended). Round-trip stability. For a label that is not empty, has
    no [\]], no line feed and no white space at its ends, a release date that
    is present with a year from 0 to 9999, and descriptions that are not
    empty, stay on one line and have no white space at their ends, parsing the
    text [formatVersion] renders yields exactly one version section: its label
    is the input label, its date is midnight UTC of the input's calendar day,
    and its entries are the input's descriptions grouped by category in the
    order Added, Changed, Deprecated, Removed, Fixed, Security, empty and
    missing categories contributing nothing. *)
Theorem format_parse_roundtrip label d changes repoUrl :
  labelOk label = true -> dateOk d = true -> changesOk changes = true ->
  parseChangelog (formatVersion label (Some d) changes repoUrl)
  = Returns
      {| title := lit "Changelog";
         description := [];
         versions :=
           [ {| version := label;
                date := Some (ValidDate (utcMidnight d));
                entries := groupedEntries changes CATEGORY_ORDER |} ] |}.
Proof.
  intros Hlabel Hdate Hchanges.
  destruct (labelOk_facts label Hlabel) as (_ & _ & HLF & _).
  destruct (dateOk_facts d Hdate) as (Hy & _ & _).
  unfold parseChangelog. rewrite formatVersion_lines by assumption.
  cbn [parseLines]. rewrite parseLine_dated_header by assumption. cbn [bind].
  rewrite parseLine_blank. cbn [bind].
  destruct (parseLines_blocks changes repoUrl CATEGORY_ORDER 2 label
              (Some (ValidDate (utcMidnight d))) [] None Hchanges) as [c ->].
  reflexivity.
Qed.

Lemma format_parse_roundtrip_witness :
  parseChangelog (formatVersion (lit "1.1.0") (Some jan15) changes1 None)
  = Returns
      {| title := lit "Changelog";
         description := [];
         versions :=
           [ {| version := lit "1.1.0";
                date := Some (ValidDate (utcMidnight jan15));
                entries := groupedEntries changes1 CATEGORY_ORDER |} ] |}.
Proof.
  apply (format_parse_roundtrip (lit "1.1.0") jan15 changes1 None);
    reflexivity.
Defined.

(** C2 as stated fails: a description with a space at its end comes back
    without it, so the entries read back are not the input's; and the date
    read back is midnight, not the input's instant. *)
Lemma format_parse_roundtrip_counterexample :
  listed changesPadded Added = [lit "Add login "]
  /\ parseChangelog (formatVersion (lit "1.1.0") (Some jan15) changesPadded None)
     = Returns
         {| title := lit "Changelog";
            description := [];
            versions :=
              [ {| version := lit "1.1.0";
                   date := Some (ValidDate (utcMidnight jan15));
                   entries := [ {| category := Added;
                                   entryDescription := lit "Add login";
                                   commits := [] |} ] |} ] |}
  /\ parseChangelog (formatVersion (lit "1.1.0") (Some jan15) changesPadded None)
     <> Returns
          {| title := lit "Changelog";
             description := [];
             versions :=
               [ {| version := lit "1.1.0";
                    date := Some (ValidDate jan15);
                    entries := groupedEntries changesPadded CATEGORY_ORDER |} ] |}.
Proof.
  split; [reflexivity|]. split; [vm_compute; reflexivity|].
  intros H. vm_compute in H. discriminate H.
Qed.

(** Without a date the rendered header is not read back at all. *)
Example format_parse_undated :
  parseChangelog (formatVersion (lit "1.1.0") None changes1 None)
  = Returns {| title := lit "Changelog"; description := []; versions := [] |}.
Proof. vm_compute. reflexivity. Qed.

End RoundTripFacts.

(** * Further properties *)

(** ** Insertion, continued *)

Section InsertionTwice.

(** *** More on lines *)

Lemma join_app pieces1 pieces2 :
  pieces1 <> [] -> pieces2 <> [] ->
  join nl (pieces1 ++ pieces2) = join nl pieces1 ++ nl ++ join nl pieces2.
Proof.
  induction pieces1 as [|p ps IH]; intros H1 H2; [contradiction|].
  destruct ps as [|q ps].
  - cbn [app]. now rewrite join_cons.
  - cbn [app] in *. rewrite (join_cons nl p) by discriminate.
    rewrite (join_cons nl p (q :: ps)) by discriminate.
    rewrite IH by (discriminate || assumption). now rewrite <- !app_assoc.
Qed.

(** A piece may be given whole or line by line. *)
Lemma join_split_piece before piece after :
  join nl (before ++ split LF piece ++ after)
  = join nl (before ++ [piece] ++ after).
Proof.
  assert (Hmid : forall after',
    join nl (split LF piece ++ after') = join nl ([piece] ++ after')).
  { intros [|a after'].
    - rewrite !app_nil_r. cbn [join]. apply join_split.
    - rewrite !join_app by (discriminate || apply split_nonempty).
      now rewrite join_split. }
  destruct before as [|b before]; [apply Hmid|].
  rewrite !(join_app (b :: before)); try discriminate.
  - now rewrite Hmid.
  - intros H. apply app_eq_nil in H as [H _]. now apply split_nonempty in H.
Qed.

Lemma insertVersion_lines content version date changes repoUrl :
  split LF (insertVersion content version date changes repoUrl)
  = sliceTo (insertIndex (split LF content)) (split LF content)
    ++ split LF (formatVersion version (Some date) changes repoUrl)
    ++ [[]]
    ++ sliceFrom (insertIndex (split LF content)) (split LF content).
Proof.
  unfold insertVersion. rewrite split_join.
  - rewrite !flat_map_app. cbn [flat_map split app].
    pose proof (split_lines_no_LF content) as Hno.
    rewrite !flat_map_split_lines.
    + now rewrite <- app_assoc.
    + now apply Forall_drop.
    + now apply Forall_take.
  - intros Hnil. apply app_eq_nil in Hnil as [_ Hnil]. discriminate.
Qed.

(** *** The first scan on a prefix *)

Lemma scanInsertIndex_prefix_passes pre : forall i f,
  (0 <= i)%Z ->
  scanInsertIndex pre i f = (-1)%Z ->
  exists f', forall rest,
    scanInsertIndex (pre ++ rest) i f
    = scanInsertIndex rest (i + Z.of_nat (length pre)) f'.
Proof.
  induction pre as [|l ls IH]; intros i f Hi H.
  - exists f. intros rest. cbn [app length]. f_equal. lia.
  - cbn [scanInsertIndex] in H. cbn [app scanInsertIndex length].
    assert (Hnext : forall g, scanInsertIndex ls (i + 1) g = (-1)%Z ->
      exists f', forall rest,
        scanInsertIndex (ls ++ rest) (i + 1) g
        = scanInsertIndex rest (i + Z.of_nat (S (length ls))) f').
    { intros g Hg. destruct (IH (i + 1)%Z g ltac:(lia) Hg) as [f' Hf'].
      exists f'. intros rest. rewrite Hf'. f_equal. lia. }
    destruct (test UNRELEASED_REGEX l); [now apply Hnext|].
    destruct (f && test NEXT_VERSION_REGEX l); [lia|].
    destruct (startsWith (lit "## ") l && negb f); [lia|].
    now apply Hnext.
Qed.

Lemma scanInsertIndex_take_passes lines : forall i f k,
  (0 <= i)%Z ->
  scanInsertIndex lines i f = (-1)%Z ->
  scanInsertIndex (take k lines) i f = (-1)%Z.
Proof.
  induction lines as [|l ls IH]; intros i f k Hi H.
  - now rewrite take_nil.
  - destruct k as [|k]; [reflexivity|].
    cbn [take scanInsertIndex] in *.
    destruct (test UNRELEASED_REGEX l); [apply IH; [lia|exact H]|].
    destruct (f && test NEXT_VERSION_REGEX l); [lia|].
    destruct (startsWith (lit "## ") l && negb f); [lia|].
    apply IH; [lia|exact H].
Qed.

Lemma scanInsertIndex_take_found lines : forall i f,
  (0 <= i)%Z ->
  scanInsertIndex lines i f <> (-1)%Z ->
  scanInsertIndex (take (Z.to_nat (scanInsertIndex lines i f - i)) lines) i f
  = (-1)%Z.
Proof.
  induction lines as [|l ls IH]; intros i f Hi H.
  - now rewrite take_nil.
  - cbn [scanInsertIndex] in *.
    assert (Hstep : forall g, scanInsertIndex ls (i + 1) g <> (-1)%Z ->
      scanInsertIndex
        (take (Z.to_nat (scanInsertIndex ls (i + 1) g - i)) (l :: ls)) i f
      = scanInsertIndex
          (l :: take (Z.to_nat (scanInsertIndex ls (i + 1) g - (i + 1))) ls)
          i f).
    { intros g Hg.
      destruct (scanInsertIndex_range ls (i + 1) g) as [E|E]; [contradiction|].
      replace (Z.to_nat (scanInsertIndex ls (i + 1) g - i))
        with (S (Z.to_nat (scanInsertIndex ls (i + 1) g - (i + 1)))) by lia.
      reflexivity. }
    destruct (test UNRELEASED_REGEX l) eqn:Eu.
    + rewrite Hstep by exact H. cbn [scanInsertIndex]. rewrite Eu.
      apply IH; [lia|exact H].
    + destruct (f && test NEXT_VERSION_REGEX l) eqn:En.
      { now rewrite Z.sub_diag. }
      destruct (startsWith (lit "## ") l && negb f) eqn:Eh.
      { now rewrite Z.sub_diag. }
      rewrite Hstep by exact H. cbn [scanInsertIndex]. rewrite Eu, En, Eh.
      apply IH; [lia|exact H].
Qed.

(** The scan does not stop before the insertion point. *)
Lemma scanInsertIndex_before_insertIndex lines :
  scanInsertIndex (sliceTo (insertIndex lines) lines) 0 false = (-1)%Z.
Proof.
  unfold sliceTo, insertIndex.
  destruct (Z.eqb_spec (scanInsertIndex lines 0 false) (-1)) as [E|E].
  - now apply scanInsertIndex_take_passes.
  - pose proof (scanInsertIndex_take_found lines 0 false ltac:(lia) E) as H.
    now rewrite Z.sub_0_r in H.
Qed.

(** *** The header line of a rendered block *)

Lemma star_always {A} p s caps (k : jsstring -> captures -> option A) :
  (forall s', is_Some (k s' caps)) -> is_Some (star p s caps k).
Proof.
  intros Hk. induction s as [|c s IH]; cbn [star]; [apply Hk|].
  destruct (p c); [|apply Hk].
  destruct (star p s caps k); [eauto|apply Hk].
Qed.

(** A line that starts with ["## ["] is a version header for the writer. *)
Lemma bracket_line_is_version_header rest :
  isVersionHeader (35 :: 35 :: 32 :: 91 :: rest) = true.
Proof.
  unfold isVersionHeader, test.
  assert (H : is_Some (exec NEXT_VERSION_REGEX (35 :: 35 :: 32 :: 91 :: rest))).
  { open_patterns. cbn [seqs foldr map].
    repeat (first [rewrite run_Seq | rewrite run_Eps
                  | rewrite run_Chr_hit by reflexivity]; cbv beta).
    rewrite run_Plus_cons. change (isWhiteSpace 32) with true.
    cbv iota. rewrite star_stop by reflexivity. rewrite run_Seq.
    assert (Hskip : is_Some
      (run (Seq (Plus notRBracket) (Seq (Opt (Chr (N.eqb 93))) Eps))
         (91 :: rest) ∅ (fun _ caps => Some caps))).
    { rewrite run_Seq, run_Plus_cons. change (notRBracket 91) with true.
      cbv iota. apply star_always. intros s'. rewrite run_Seq.
      cbn [run]. destruct s' as [|c s']; [eauto|].
      destruct (93 =? c); eauto. }
    cbn [run] in *.
    match goal with
    | |- is_Some (match ?x with Some a => Some a | None => _ end) =>
        destruct x; [eauto|exact Hskip]
    end. }
  destruct H as [m ->]. reflexivity.
Qed.

Lemma split_head_cons c s :
  c <> LF ->
  exists first others,
    split LF s = first :: others /\ split LF (c :: s) = (c :: first) :: others.
Proof.
  intros Hc. cbn [split]. destruct (N.eqb_spec c LF) as [E|_]; [contradiction|].
  pose proof (split_nonempty LF s) as Hne.
  destruct (split LF s) as [|first others]; [contradiction|]. eauto.
Qed.

(** The first line of a rendered block starts with ["## ["]. *)
Lemma formatVersion_first_line version date changes repoUrl :
  exists first others,
    split LF (formatVersion version date changes repoUrl)
    = (35 :: 35 :: 32 :: 91 :: first) :: others.
Proof.
  unfold formatVersion.
  match goal with
  | |- context [join nl ([?h; []] ++ ?more)] =>
      set (header := h); set (extra := more)
  end.
  assert (Hjoin : exists tail, join nl ([header; []] ++ extra)
                               = 35 :: 35 :: 32 :: 91 :: tail).
  { subst header. eval_lits. cbn [app join]. destruct extra; cbn [app]; eauto. }
  destruct Hjoin as [tail ->].
  destruct (split_head_cons 91 tail ltac:(discriminate)) as (f1 & o1 & _ & E1).
  destruct (split_head_cons 32 (91 :: tail) ltac:(discriminate))
    as (f2 & o2 & E2' & E2).
  rewrite E1 in E2'. injection E2' as <- <-.
  destruct (split_head_cons 35 (32 :: 91 :: tail) ltac:(discriminate))
    as (f3 & o3 & E3' & E3).
  rewrite E2 in E3'. injection E3' as <- <-.
  destruct (split_head_cons 35 (35 :: 32 :: 91 :: tail) ltac:(discriminate))
    as (f4 & o4 & E4' & E4).
  rewrite E3 in E4'. injection E4' as <- <-.
  eauto.
Qed.

(** Any line that is a version header and starts with ["## "], and is not
    an Unreleased header, stops the first scan where it stands. *)
Lemma scanInsertIndex_stops_at line rest i f :
  isUnreleasedHeader line = false ->
  isVersionHeader line = true ->
  isSecondLevel line = true ->
  scanInsertIndex (line :: rest) i f = i.
Proof.
  unfold isUnreleasedHeader, isVersionHeader, isSecondLevel.
  intros Hu Hv Hs. cbn [scanInsertIndex]. rewrite Hu, Hv, Hs.
  now destruct f.
Qed.

(** X1. A text with no Unreleased header and no line that starts with
    ["## "] has no insertion point: [insertVersion] appends a line feed, the
    rendered block and a last line feed to it, whatever the text is. *)
Theorem insertVersion_appends_without_headings
    content version date changes repoUrl :
  forallb (fun l => negb (isUnreleasedHeader l) && negb (isSecondLevel l))
          (split LF content) = true ->
  insertVersion content version date changes repoUrl
  = content ++ nl ++ formatVersion version (Some date) changes repoUrl ++ nl.
Proof.
  intros Hnone.
  pose proof (insertVersion_at content version date changes repoUrl
                (split LF content) []) as Hat.
  rewrite !app_nil_r in Hat. rewrite Hat; [|reflexivity|].
  - rewrite join_app by (discriminate || apply split_nonempty).
    rewrite join_split. cbn [join]. now rewrite app_nil_r.
  - unfold insertIndex.
    pose proof (scanInsertIndex_skip_before (split LF content) [] 0 Hnone) as H1.
    rewrite app_nil_r in H1. rewrite H1. cbn [scanInsertIndex].
    rewrite Z.eqb_refl.
    assert (Hpre : forallb (fun l => negb (isSecondLevel l)) (split LF content)
                   = true).
    { revert Hnone. apply forallb_weaken. intros l H.
      now apply andb_prop in H as [_ H]. }
    pose proof (scanPreambleEnd_skip (split LF content) [] 0 Hpre) as H2.
    rewrite app_nil_r in H2. rewrite H2. reflexivity.
Qed.

End InsertionTwice.

(** ** The lines of a rendered block *)

Section BlockLines.

(** X2. Two insertions in a row. When the block of the first version does
    not itself read as an Unreleased header, the second version goes to the
    same place as the first: its block and a blank line stand immediately
    before the block of the first, and the text around them is the original
    text cut where the first insertion cut it. *)
Theorem insertVersion_twice_newest_first
    content version1 date1 changes1 repoUrl1 version2 date2 changes2 repoUrl2 :
  isUnreleasedHeader
    (default [] (head (split LF (formatVersion version1 (Some date1) changes1
                                   repoUrl1)))) = false ->
  insertVersion
    (insertVersion content version1 date1 changes1 repoUrl1)
    version2 date2 changes2 repoUrl2
  = join nl
      (sliceTo (insertIndex (split LF content)) (split LF content)
       ++ [ formatVersion version2 (Some date2) changes2 repoUrl2; [];
            formatVersion version1 (Some date1) changes1 repoUrl1; [] ]
       ++ sliceFrom (insertIndex (split LF content)) (split LF content)).
Proof.
  intros Hrel.
  set (lines := split LF content) in *.
  set (block1 := formatVersion version1 (Some date1) changes1 repoUrl1) in *.
  destruct (formatVersion_first_line version1 (Some date1) changes1 repoUrl1)
    as (first & others & Hblock).
  fold block1 in Hblock. rewrite Hblock in Hrel. cbn [head default] in Hrel.
  pose proof (insertIndex_range lines) as Hrange.
  assert (Hlen : length (sliceTo (insertIndex lines) lines)
                 = Z.to_nat (insertIndex lines)).
  { unfold sliceTo. rewrite length_take. lia. }
  rewrite (insertVersion_at _ version2 date2 changes2 repoUrl2
             (sliceTo (insertIndex lines) lines)
             (split LF block1 ++ [[]] ++ sliceFrom (insertIndex lines) lines)).
  - rewrite (app_assoc (sliceTo (insertIndex lines) lines)).
    rewrite (join_split_piece
               (sliceTo (insertIndex lines) lines
                ++ [formatVersion version2 (Some date2) changes2 repoUrl2; []])
               block1 ([[]] ++ sliceFrom (insertIndex lines) lines)).
    now rewrite <- !app_assoc.
  - apply insertVersion_lines.
  - unfold insertIndex at 1.
    destruct (scanInsertIndex_prefix_passes (sliceTo (insertIndex lines) lines)
                0 false ltac:(lia) (scanInsertIndex_before_insertIndex lines))
      as [f' ->].
    rewrite Hblock. cbn [app].
    rewrite scanInsertIndex_stops_at;
      [|exact Hrel|apply bracket_line_is_version_header|reflexivity].
    rewrite Hlen.
    destruct (Z.eqb_spec (0 + Z.of_nat (Z.to_nat (insertIndex lines))) (-1)); lia.
Qed.


Lemma oneLine_no_LF text : oneLine text = true -> LF ∉ text.
Proof.
  unfold oneLine. intros H Hin. rewrite forallb_forall in H.
  apply list_elem_of_In in Hin. specialize (H _ Hin).
  now rewrite N.eqb_refl in H.
Qed.

Lemma pad_no_LF w n : LF ∉ pad w n.
Proof.
  intros H. pose proof (pad_isDigit w n) as Hall.
  rewrite Forall_forall in Hall. specialize (Hall _ H). discriminate.
Qed.

Lemma pad_all_not_LF w n : Forall (fun c => c <> LF) (pad w n).
Proof.
  apply Forall_forall. intros c Hc Heq. subst. now apply pad_no_LF in Hc.
Qed.

#[local] Opaque pad.

Lemma toISOString_one_line d : Forall (fun c => c <> LF) (toISOString d).
Proof.
  unfold toISOString. eval_lits.
  repeat (apply Forall_app; split);
    try apply pad_all_not_LF;
    try (repeat constructor; discriminate).
  destruct ((0 <=? year d)%Z && (year d <=? 9999)%Z);
    [apply pad_all_not_LF|].
  apply Forall_app. split; [|apply pad_all_not_LF].
  destruct (year d <? 0)%Z; repeat constructor; discriminate.
Qed.

#[local] Transparent pad.

(** A formatted date holds no line feed, whatever the year. *)
Lemma formatDate_one_line d : LF ∉ formatDate d.
Proof.
  unfold formatDate.
  pose proof (split_nonempty 84 (toISOString d)) as Hne.
  destruct (split 84 (toISOString d)) as [|piece pieces] eqn:E; [contradiction|].
  intros Hin.
  assert (Hiso : LF ∈ toISOString d).
  { apply (split_piece_elem 84 _ piece); [rewrite E; left|exact Hin]. }
  pose proof (toISOString_one_line d) as Hall.
  rewrite Forall_forall in Hall. now apply (Hall LF).
Qed.

Lemma headerLine_one_line label date :
  oneLine label = true -> LF ∉ headerLine label date.
Proof.
  intros Hlabel. apply oneLine_no_LF in Hlabel. unfold headerLine. eval_lits.
  rewrite !elem_of_app. intros [H|[H|[H|H]]].
  - repeat (apply elem_of_cons in H as [H|H]; [discriminate|]).
    now apply not_elem_of_nil in H.
  - contradiction.
  - apply list_elem_of_singleton in H. discriminate.
  - destruct date as [d|]; [|now apply not_elem_of_nil in H].
    apply elem_of_app in H as [H|H]; [|now apply formatDate_one_line in H].
    repeat (apply elem_of_cons in H as [H|H]; [discriminate|]).
    now apply not_elem_of_nil in H.
Qed.

Lemma split_bullets_one_line cat repoUrl texts :
  forallb oneLine texts = true ->
  flat_map (split LF)
    (map (fun description =>
            formatEntry {| category := cat; entryDescription := description;
                           commits := [] |} repoUrl) texts)
  = map (fun text => lit "- " ++ text) texts.
Proof.
  induction texts as [|t ts IH]; cbn [forallb map flat_map]; intros H;
    [reflexivity|].
  apply andb_prop in H as [Ht Hts]. rewrite IH by exact Hts.
  rewrite formatEntry_plain, split_no_sep; [reflexivity|].
  apply oneLine_no_LF in Ht. eval_lits. cbn [app].
  rewrite !elem_of_cons. intros [H|[H|H]]; try discriminate. contradiction.
Qed.

Lemma categorySections_one_line changes repoUrl cat :
  forallb oneLine (listed changes cat) = true ->
  flat_map (split LF) (categorySections changes repoUrl cat)
  = categoryLines changes cat.
Proof.
  unfold categorySections, categoryLines, listed.
  destruct (categories changes !! cat) as [[|t ts]|]; cbn [default];
    [reflexivity| |reflexivity].
  intros Hok. rewrite !flat_map_app, split_bullets_one_line by exact Hok.
  cbn [flat_map]. rewrite app_nil_r.
  replace (split LF (lit "### " ++ categoryName cat ++ nl))
    with [lit "### " ++ categoryName cat; []] by (now destruct cat).
  reflexivity.
Qed.

Lemma sections_one_line changes repoUrl cats :
  forallb (fun cat => forallb oneLine (listed changes cat)) cats = true ->
  flat_map (split LF) (flat_map (categorySections changes repoUrl) cats)
  = flat_map (categoryLines changes) cats.
Proof.
  induction cats as [|cat cats IH]; cbn [forallb flat_map]; intros H;
    [reflexivity|].
  apply andb_prop in H as [Hcat Hcats].
  now rewrite flat_map_app, categorySections_one_line, IH.
Qed.

(** The lines of a rendered block, for any header that stays on one line. *)
Lemma formatVersion_lines_any label date changes repoUrl :
  LF ∉ headerLine label date ->
  split LF (formatVersion label date changes repoUrl)
  = headerLine label date
    :: [] :: flat_map (split LF)
                (flat_map (categorySections changes repoUrl) CATEGORY_ORDER).
Proof.
  intros Hheader. unfold formatVersion, formatAIEntries.
  fold (headerLine label date).
  set (header := headerLine label date) in *.
  set (sections := flat_map (categorySections changes repoUrl) CATEGORY_ORDER).
  assert (Hsplit : split LF header = [header]) by now apply split_no_sep.
  destruct sections as [|sec secs] eqn:E.
  - cbn [join]. change (trim []) with (@nil N). cbn [app flat_map].
    rewrite split_join by discriminate. cbn [flat_map]. rewrite Hsplit.
    reflexivity.
  - destruct (sections_start changes repoUrl CATEGORY_ORDER) as [rest Hrest].
    { fold sections. rewrite E. discriminate. }
    fold sections in Hrest. rewrite E in Hrest. rewrite Hrest.
    pose proof (trim_visible_head 35 rest eq_refl) as Hvis.
    destruct (trim (35 :: rest)); [contradiction|].
    cbn [app]. rewrite split_join by discriminate.
    cbn [flat_map]. rewrite Hsplit, app_nil_r. rewrite <- Hrest.
    rewrite split_join by discriminate. reflexivity.
Qed.

End BlockLines.

(** ** Replacing the Unreleased section *)

Section UnreleasedSection.

(** X3. The lines of a rendered block. For a label and descriptions without
    a line feed, [formatVersion] yields the header line, one empty line, and
    for every category with at least one description, in the fixed category
    order, its heading, an empty line, one bullet per description in input
    order, and an empty line. Categories with no description leave no line. *)
Theorem formatVersion_line_structure label date changes repoUrl :
  oneLine label = true ->
  changesOneLine changes = true ->
  split LF (formatVersion label date changes repoUrl)
  = headerLine label date
    :: [] :: flat_map (categoryLines changes) CATEGORY_ORDER.
Proof.
  intros Hlabel Hchanges.
  rewrite formatVersion_lines_any by now apply headerLine_one_line.
  now rewrite sections_one_line.
Qed.


Lemma scanUnreleased_section section : forall rest i start,
  forallb isSectionLine section = true ->
  scanUnreleased (section ++ rest) i start
  = scanUnreleased rest (i + Z.of_nat (length section)) start.
Proof.
  induction section as [|l ls IH]; intros rest i start H;
    cbn [app scanUnreleased length].
  - f_equal. lia.
  - cbn [forallb] in H. apply andb_prop in H as [Hl Hls].
    unfold isSectionLine, isUnreleasedHeader, isVersionHeader in Hl.
    apply andb_prop in Hl as [Hu Hv]. apply negb_true_iff in Hu, Hv.
    rewrite Hu, Hv, andb_false_r, IH by exact Hls. f_equal. lia.
Qed.

Lemma scanUnreleased_end after i start :
  (0 <= start)%Z ->
  startsWithNextVersion after = true ->
  scanUnreleased after i start
  = (start, match after with [] => (-1)%Z | _ :: _ => i end).
Proof.
  intros Hstart H. destruct after as [|v rest]; [reflexivity|].
  cbn [startsWithNextVersion] in H. cbn [scanUnreleased].
  unfold isNextVersion, isUnreleasedHeader, isVersionHeader in H.
  apply andb_prop in H as [Hu Hv]. apply negb_true_iff in Hu.
  rewrite Hu, Hv. destruct (Z.eqb_spec start (-1)); [lia|reflexivity].
Qed.

(** How the scan of [updateUnreleasedSection] cuts the lines: either it
    finds an Unreleased header, the section below it and what follows the
    section, or it meets no Unreleased header. *)
Lemma scanUnreleased_cut lines : forall i start,
  (0 <= i)%Z -> (start = -1 \/ 0 <= start)%Z ->
  (exists before u section after start',
      lines = before ++ u :: section ++ after
      /\ isUnreleasedHeader u = true
      /\ forallb isSectionLine section = true
      /\ startsWithNextVersion after = true
      /\ (forall rest, scanUnreleased (before ++ rest) i start
                       = scanUnreleased rest (i + Z.of_nat (length before))
                           start'))
  \/ (exists section after,
         lines = section ++ after
         /\ forallb (fun l => negb (isUnreleasedHeader l)) section = true
         /\ (start = (-1)%Z -> after = [])
         /\ (start <> (-1)%Z ->
             forallb isSectionLine section = true
             /\ startsWithNextVersion after = true)).
Proof.
  induction lines as [|l ls IH]; intros i start Hi Hstart.
  - right. exists [], []. repeat split; reflexivity.
  - destruct (isUnreleasedHeader l) eqn:Eu.
    + left. destruct (IH (i + 1)%Z i ltac:(lia) ltac:(lia))
        as [(before & u & section & after & start' & -> & Hu & Hsec & Hafter & Hpass)
           |(section & after & -> & Hnone & _ & Hrest)].
      * exists (l :: before), u, section, after, start'.
        repeat split; try assumption. intros rest.
        cbn [app scanUnreleased length]. unfold isUnreleasedHeader in Eu.
        rewrite Eu, Hpass. f_equal. lia.
      * destruct Hrest as [Hsec Hafter]; [lia|].
        exists [], l, section, after, start.
        repeat split; try assumption. intros rest. cbn [app length].
        f_equal. lia.
    + destruct (negb (start =? -1)%Z && isVersionHeader l) eqn:Estop.
      * right. exists [], (l :: ls). apply andb_prop in Estop as [Es Ev].
        apply negb_true_iff in Es. apply Z.eqb_neq in Es.
        repeat split; try reflexivity; try contradiction.
        cbn [startsWithNextVersion]. unfold isNextVersion.
        now rewrite Eu, Ev.
      * destruct (IH (i + 1)%Z start ltac:(lia) Hstart)
          as [(before & u & section & after & start' & -> & Hu & Hsec & Hafter & Hpass)
             |(section & after & -> & Hnone & Hno & Hyes)].
        -- left. exists (l :: before), u, section, after, start'.
           repeat split; try assumption. intros rest.
           cbn [app scanUnreleased length].
           unfold isUnreleasedHeader, isVersionHeader in Eu, Estop.
           rewrite Eu, Estop, Hpass. f_equal. lia.
        -- right. exists (l :: section), after.
           repeat split.
           ++ cbn [forallb]. now rewrite Eu, Hnone.
           ++ exact Hno.
           ++ cbn [forallb]. unfold isSectionLine at 1. rewrite Eu.
              destruct (Z.eqb_spec start (-1)) as [->|_]; [contradiction|].
              cbn [negb andb] in Estop. rewrite Estop.
              now apply Hyes.
           ++ now apply Hyes.
Qed.

(** The cut, when some line is an Unreleased header. *)
Lemma scanUnreleased_found lines :
  forallb (fun l => negb (isUnreleasedHeader l)) lines = false ->
  exists before u section after start',
    lines = before ++ u :: section ++ after
    /\ isUnreleasedHeader u = true
    /\ forallb isSectionLine section = true
    /\ startsWithNextVersion after = true
    /\ (forall rest, scanUnreleased (before ++ rest) 0 (-1)
                     = scanUnreleased rest (Z.of_nat (length before)) start').
Proof.
  intros Hsome.
  destruct (scanUnreleased_cut lines 0 (-1) ltac:(lia) ltac:(lia))
    as [(before & u & section & after & start' & H)
       |(section & after & -> & Hnone & Hafter & _)].
  - exists before, u, section, after, start'. exact H.
  - rewrite (Hafter eq_refl), app_nil_r in Hsome. congruence.
Qed.

(** What the scan returns on lines cut that way. *)
Lemma scanUnreleased_on_cut before u section after start' :
  isUnreleasedHeader u = true ->
  forallb isSectionLine section = true ->
  startsWithNextVersion after = true ->
  (forall rest, scanUnreleased (before ++ rest) 0 (-1)
                = scanUnreleased rest (Z.of_nat (length before)) start') ->
  scanUnreleased (before ++ u :: section ++ after) 0 (-1)
  = (Z.of_nat (length before),
     match after with
     | [] => (-1)%Z
     | _ :: _ => Z.of_nat (length before + 1 + length section)
     end).
Proof.
  intros Hu Hsec Hafter Hpass. rewrite Hpass. cbn [scanUnreleased].
  unfold isUnreleasedHeader in Hu. rewrite Hu.
  rewrite scanUnreleased_section by exact Hsec.
  rewrite scanUnreleased_end by (lia || exact Hafter).
  destruct after; f_equal; lia.
Qed.

Lemma updateUnreleasedSection_on_cut content changes before u section after start' :
  split LF content = before ++ u :: section ++ after ->
  isUnreleasedHeader u = true ->
  forallb isSectionLine section = true ->
  startsWithNextVersion after = true ->
  (forall rest, scanUnreleased (before ++ rest) 0 (-1)
                = scanUnreleased rest (Z.of_nat (length before)) start') ->
  updateUnreleasedSection content changes
  = join nl (before
             ++ [formatVersion (lit "Unreleased") None changes None; []]
             ++ after).
Proof.
  intros Hsplit Hu Hsec Hafter Hpass. unfold updateUnreleasedSection.
  rewrite Hsplit, (scanUnreleased_on_cut _ _ _ _ start') by assumption.
  destruct (Z.eqb_spec (Z.of_nat (length before)) (-1)); [lia|].
  f_equal. f_equal; [unfold sliceTo; rewrite Nat2Z.id; apply take_app_length|].
  f_equal. unfold sliceFrom.
  destruct after as [|v rest].
  - rewrite Z.eqb_refl, Nat2Z.id, app_nil_r. apply drop_all.
  - destruct (Z.eqb_spec (Z.of_nat (length before + 1 + length section)) (-1));
      [lia|].
    rewrite Nat2Z.id.
    replace (before ++ u :: section ++ v :: rest)
      with ((before ++ u :: section) ++ v :: rest)
      by (now rewrite <- app_assoc).
    apply drop_app_length'. rewrite length_app. cbn [length]. lia.
Qed.

(** X4. Replacing the Unreleased section. When some line is an Unreleased
    header, the lines split as [before ++ u :: section ++ after], where [u] is
    an Unreleased header, no line of [section] stops the scan, and [after] is
    empty or starts at the next version header; the result keeps [before] and
    [after] and puts the freshly rendered Unreleased block and one empty line
    in place of [u] and [section]. *)
Theorem updateUnreleasedSection_frame content changes :
  forallb (fun l => negb (isUnreleasedHeader l)) (split LF content) = false ->
  exists before u section after,
    split LF content = before ++ u :: section ++ after
    /\ isUnreleasedHeader u = true
    /\ forallb isSectionLine section = true
    /\ startsWithNextVersion after = true
    /\ updateUnreleasedSection content changes
       = join nl (before
                  ++ [formatVersion (lit "Unreleased") None changes None; []]
                  ++ after).
Proof.
  intros Hsome.
  destruct (scanUnreleased_found _ Hsome)
    as (before & u & section & after & start' & Hsplit & Hu & Hsec & Hafter & Hpass).
  exists before, u, section, after. repeat split; try assumption.
  now apply (updateUnreleasedSection_on_cut _ _ _ u section _ start').
Qed.

Lemma not_hash_is_section c rest :
  c <> 35 -> isSectionLine (c :: rest) = true.
Proof.
  intros Hc. unfold isSectionLine, isUnreleasedHeader, isVersionHeader.
  assert (H1 : exec UNRELEASED_REGEX (c :: rest) = None).
  { open_patterns. cbn [seqs foldr map]. rewrite !run_Seq.
    apply run_Chr_miss. cbn [stopsAt]. now apply N.eqb_neq. }
  assert (H2 : exec NEXT_VERSION_REGEX (c :: rest) = None).
  { open_patterns. cbn [seqs foldr map]. rewrite !run_Seq.
    apply run_Chr_miss. cbn [stopsAt]. now apply N.eqb_neq. }
  unfold test. now rewrite H1, H2.
Qed.

Lemma categoryLines_are_section changes cat :
  forallb isSectionLine (categoryLines changes cat) = true.
Proof.
  unfold categoryLines. destruct (listed changes cat) as [|t ts]; [reflexivity|].
  rewrite !forallb_app. cbn [forallb].
  replace (isSectionLine (lit "### " ++ categoryName cat)) with true
    by (now destruct cat).
  replace (isSectionLine []) with true by reflexivity.
  rewrite !andb_true_r. cbn [andb].
  generalize (t :: ts). intros texts.
  induction texts as [|x xs IH]; [reflexivity|]. cbn [map forallb].
  rewrite IH, andb_true_r. eval_lits. cbn [app].
  now apply not_hash_is_section.
Qed.

Lemma all_categoryLines_are_section changes cats :
  forallb isSectionLine (flat_map (categoryLines changes) cats) = true.
Proof.
  induction cats as [|cat cats IH]; [reflexivity|]. cbn [flat_map].
  now rewrite forallb_app, categoryLines_are_section, IH.
Qed.

End UnreleasedSection.

(** ** The versions the parser reads *)

Section ParsedVersions.

(** X5. Updating the Unreleased section twice keeps only the second update:
    when the descriptions of the first hold no line feed, nothing of the first
    update is left in the result. *)
Theorem updateUnreleasedSection_last_wins content changes1 changes2 :
  changesOneLine changes1 = true ->
  updateUnreleasedSection (updateUnreleasedSection content changes1) changes2
  = updateUnreleasedSection content changes2.
Proof.
  intros Hone.
  destruct (forallb (fun l => negb (isUnreleasedHeader l)) (split LF content))
    eqn:Hany.
  - unfold updateUnreleasedSection at 2.
    now rewrite scanUnreleased_none by exact Hany.
  - destruct (scanUnreleased_found _ Hany)
      as (before & u & section & after & start' & Hsplit & Hu & Hsec & Hafter & Hpass).
    rewrite (updateUnreleasedSection_on_cut content changes1 before u section
               after start' Hsplit Hu Hsec Hafter Hpass).
    rewrite (updateUnreleasedSection_on_cut content changes2 before u section
               after start' Hsplit Hu Hsec Hafter Hpass).
    pose proof (split_lines_no_LF content) as Hno. rewrite Hsplit in Hno.
    apply Forall_app in Hno as [Hbefore Hno].
    apply Forall_cons in Hno as [_ Hno].
    apply Forall_app in Hno as [_ Hafter'].
    apply (updateUnreleasedSection_on_cut _ changes2 before
             (headerLine (lit "Unreleased") None)
             ([] :: flat_map (categoryLines changes1) CATEGORY_ORDER ++ [[]])
             after start').
    + rewrite split_join
        by (intros H; apply app_eq_nil in H as [_ H]; discriminate).
      rewrite !flat_map_app. cbn [flat_map split app].
      rewrite !flat_map_split_lines by assumption.
      rewrite formatVersion_lines_any, sections_one_line
        by (exact Hone || now apply headerLine_one_line).
      cbn [app]. now rewrite <- !app_assoc.
    + reflexivity.
    + cbn [forallb]. rewrite forallb_app, all_categoryLines_are_section.
      reflexivity.
    + exact Hafter.
    + exact Hpass.
Qed.


Lemma title_line_not_header line :
  startsWith (lit "# ") line = true -> exec VERSION_HEADER_REGEX line = None.
Proof.
  eval_lits. destruct line as [|c1 [|c2 rest]]; cbn [startsWith];
    try discriminate.
  { now rewrite andb_false_r. }
  destruct (N.eqb_spec 35 c1) as [<-|]; [|discriminate].
  destruct (N.eqb_spec 32 c2) as [<-|]; [|discriminate].
  intros _. open_patterns. cbn [seqs foldr map]. rx. now apply run_Chr_miss.
Qed.

Lemma parseLine_versions i line st st' :
  parseLine i line st = Returns st' ->
  map versionKey (openedVersions st')
  = map versionKey (openedVersions st)
    ++ (if isParsedHeader line then [headerOf line] else [])
  /\ st_description st'
     = (if isParsedHeader line && inPreamble st
        then trim (join nl (preambleLines st))
        else st_description st).
Proof.
  unfold parseLine, isParsedHeader, headerOf, test.
  destruct (startsWith (lit "# ") line && (i <? 5)%nat) eqn:Et.
  { apply andb_prop in Et as [Et _]. rewrite (title_line_not_header _ Et).
    intros [= <-]. cbn. now rewrite app_nil_r. }
  destruct (exec VERSION_HEADER_REGEX line) as [vm|] eqn:Ev.
  { destruct (groupTrim_defined _ _ _ 1%nat Ev eq_refl) as (text & _ & ->).
    cbn [bind]. intros [= <-]. cbn [andb].
    unfold openedVersions, openVersion. cbn.
    split; [|reflexivity].
    destruct (currentVersion st); now rewrite map_app. }
  cbv iota. cbn [andb]. rewrite app_nil_r.
  unfold bind, groupTrim, collectPreamble.
  repeat case_match; intros [= <-]; cbn;
    try (split; reflexivity).
  all: unfold openedVersions, pushEntry; cbn;
    repeat match goal with H : currentVersion _ = _ |- _ => rewrite H end;
    rewrite ?map_app; split; reflexivity.
Qed.

Lemma parseLines_versions lines : forall i st st',
  parseLines lines i st = Returns st' ->
  map versionKey (openedVersions st')
  = map versionKey (openedVersions st)
    ++ map headerOf (List.filter isParsedHeader lines)
  /\ (forallb (fun l => negb (isParsedHeader l)) lines = true ->
      st_description st' = st_description st).
Proof.
  induction lines as [|line rest IH]; intros i st st' H; cbn [parseLines] in H.
  - injection H as <-. cbn. now rewrite app_nil_r.
  - destruct (parseLine i line st) as [st1|] eqn:E; [|discriminate].
    cbn [bind] in H. apply IH in H as [Hv Hd].
    apply parseLine_versions in E as [Ev Ed].
    cbn [List.filter forallb]. rewrite Hv, Ev. split.
    + destruct (isParsedHeader line); cbn [map app];
        now rewrite <- app_assoc.
    + intros Hnone. apply andb_prop in Hnone as [Hl Hrest].
      apply negb_true_iff in Hl. rewrite Hl in Ed. cbn [andb] in Ed.
      rewrite Hd by exact Hrest. exact Ed.
Qed.


(** X7. A text in which no line matches the version-header pattern parses
    to a document with no versions and an empty description: the preamble
    lines are collected but only stored when a first version header is
    met. *)
Theorem parseChangelog_without_headers content :
  forallb (fun l => negb (isParsedHeader l)) (split LF content) = true ->
  exists doc,
    parseChangelog content = Returns doc
    /\ versions doc = []
    /\ description doc = [].
Proof.
  intros Hnone. unfold parseChangelog.
  destruct (parseLines_total (split LF content) 0 initialState) as [st Hst].
  rewrite Hst. cbn [bind]. eexists. split; [reflexivity|].
  apply parseLines_versions in Hst as [Hv Hd]. cbn [versions description].
  split; [|now apply Hd].
  assert (Hfilter : List.filter isParsedHeader (split LF content) = []).
  { clear -Hnone. induction (split LF content) as [|l ls IH]; [reflexivity|].
    cbn [forallb List.filter] in *. apply andb_prop in Hnone as [Hl Hls].
    apply negb_true_iff in Hl. rewrite Hl. now apply IH. }
  rewrite Hfilter in Hv. cbn in Hv. unfold openedVersions in Hv.
  now apply map_eq_nil in Hv.
Qed.

(** The dates behind [headerOf]: a day past the end of its month is counted
    on, and a month that does not exist gives an Invalid Date. *)
Example parseChangelog_date_rolls_over :
  parseChangelog Scenarios.docFebruary30
  = Returns
      {| title := lit "Changelog";
         description := [];
         versions :=
           [ {| version := lit "1.0.0";
                date := Some (ValidDate
                                {| year := 2024; month := 3; day := 1;
                                   hours := 0; minutes := 0; seconds := 0;
                                   milliseconds := 0 |});
                entries := [] |} ] |}.
Proof. vm_compute. reflexivity. Qed.

Example parseChangelog_invalid_date :
  parseChangelog Scenarios.docMonth13
  = Returns
      {| title := lit "Changelog";
         description := [];
         versions :=
           [ {| version := lit "1.0.0";
                date := Some InvalidDate;
                entries := [] |} ] |}.
Proof. vm_compute. reflexivity. Qed.

Example newDate_calendar :
  newDate (lit "2023-02-29")
  = ValidDate {| year := 2023; month := 3; day := 1;
                 hours := 0; minutes := 0; seconds := 0; milliseconds := 0 |}
  /\ newDate (lit "2024-02-29")
     = ValidDate {| year := 2024; month := 2; day := 29;
                    hours := 0; minutes := 0; seconds := 0; milliseconds := 0 |}
  /\ newDate (lit "1900-02-29")
     = ValidDate {| year := 1900; month := 3; day := 1;
                    hours := 0; minutes := 0; seconds := 0; milliseconds := 0 |}
  /\ newDate (lit "2024-04-31")
     = ValidDate {| year := 2024; month := 5; day := 1;
                    hours := 0; minutes := 0; seconds := 0; milliseconds := 0 |}
  /\ newDate (lit "2024-01-00") = InvalidDate
  /\ newDate (lit "2024-00-10") = InvalidDate
  /\ newDate (lit "2024-01-32") = InvalidDate.
Proof. repeat split; vm_compute; reflexivity. Qed.

End ParsedVersions.

(** ** Trimmed fields of the parsed document *)

Section TrimmedFields.

(** *** [trim] is idempotent *)

Lemma trimStart_stops s : stopsAt isWhiteSpace (trimStart s).
Proof.
  induction s as [|c s IH]; cbn [trimStart]; [exact I|].
  destruct (isWhiteSpace c) eqn:E; [exact IH|exact E].
Qed.

Lemma trimStart_fixed s : stopsAt isWhiteSpace s -> trimStart s = s.
Proof. destruct s as [|c s]; cbn [stopsAt trimStart]; [reflexivity|]. now intros ->. Qed.

Lemma trimStart_suffix s : exists dropped, s = dropped ++ trimStart s.
Proof.
  induction s as [|c s [dropped IH]]; cbn [trimStart]; [now exists []|].
  destruct (isWhiteSpace c); [|now exists []].
  exists (c :: dropped). cbn [app]. now f_equal.
Qed.

Lemma trimEnd_prefix s : exists dropped, s = trimEnd s ++ dropped.
Proof.
  destruct (trimStart_suffix (rev s)) as [dropped H].
  exists (rev dropped). unfold trimEnd.
  rewrite <- rev_app_distr, <- H. now rewrite rev_involutive.
Qed.

Lemma trimEnd_stops s : stopsAt isWhiteSpace s -> stopsAt isWhiteSpace (trimEnd s).
Proof.
  intros Hs. destruct (trimEnd_prefix s) as [dropped H].
  destruct (trimEnd s) as [|c r]; [exact I|].
  rewrite H in Hs. exact Hs.
Qed.

Lemma trim_idempotent s : trim (trim s) = trim s.
Proof.
  unfold trim at 1.
  rewrite (trimStart_fixed (trim s))
    by (unfold trim; apply trimEnd_stops, trimStart_stops).
  unfold trimEnd at 1.
  assert (Hrev : rev (trim s) = trimStart (rev (trimStart s))).
  { unfold trim, trimEnd. apply rev_involutive. }
  rewrite Hrev, trimStart_fixed by apply trimStart_stops.
  rewrite <- Hrev. apply rev_involutive.
Qed.

(** *** Trimmed fields *)

Lemma parseLine_trimmed i line st st' :
  stateTrimmed st -> parseLine i line st = Returns st' -> stateTrimmed st'.
Proof.
  intros (Ht & Hd & Hv). unfold parseLine.
  destruct (startsWith (lit "# ") line && (i <? 5)%nat).
  { intros [= <-]. repeat split; cbn; [apply trim_idempotent|exact Hd|exact Hv]. }
  destruct (exec VERSION_HEADER_REGEX line) as [vm|] eqn:Ev.
  { destruct (groupTrim_defined _ _ _ 1%nat Ev eq_refl) as (text & _ & ->).
    cbn [bind]. intros [= <-]. repeat split; cbn.
    - exact Ht.
    - destruct (inPreamble st); [apply trim_idempotent|exact Hd].
    - unfold openedVersions in *. cbn.
      apply Forall_app. split.
      + destruct (currentVersion st); exact Hv.
      + repeat constructor. cbn. apply trim_idempotent. }
  unfold bind, groupTrim, collectPreamble.
  repeat case_match; intros [= <-]; repeat split; cbn; try assumption;
    unfold openedVersions in *; cbn;
    repeat match goal with H : currentVersion _ = _ |- _ => rewrite H in * end;
    try assumption;
    try match goal with
        | H : ThrowsTypeError = Returns _ |- _ => discriminate H
        end.
  apply Forall_app in Hv as [Hvs Hc]. apply Forall_app. split; [exact Hvs|].
  apply Forall_cons in Hc as [[Hlabel Hentries] _].
  repeat constructor; cbn; [exact Hlabel|].
  apply Forall_app. split; [exact Hentries|].
  repeat constructor.
  match goal with H : Returns _ = Returns _ |- _ => injection H as <- end.
  exact (trim_idempotent _).
Qed.

Lemma parseLines_trimmed lines : forall i st st',
  stateTrimmed st -> parseLines lines i st = Returns st' -> stateTrimmed st'.
Proof.
  induction lines as [|line rest IH]; intros i st st' Hst H;
    cbn [parseLines] in H.
  - now injection H as <-.
  - destruct (parseLine i line st) as [st1|] eqn:E; [|discriminate].
    cbn [bind] in H. eapply IH; [|exact H]. eapply parseLine_trimmed; eauto.
Qed.

End TrimmedFields.

(** ** A freshly created changelog *)

Section NewChangelog.

(** X8. Every string of a parsed document is trimmed: the title, the
    description, every version label and every entry description has no white
    space at either end. *)
Theorem parseChangelog_fields_trimmed content :
  exists doc,
    parseChangelog content = Returns doc
    /\ trim (title doc) = title doc
    /\ trim (description doc) = description doc
    /\ Forall versionTrimmed (versions doc).
Proof.
  unfold parseChangelog.
  destruct (parseLines_total (split LF content) 0 initialState) as [st Hst].
  rewrite Hst. cbn [bind]. eexists. split; [reflexivity|].
  apply parseLines_trimmed in Hst; [exact Hst|].
  repeat split; cbn; try reflexivity. constructor.
Qed.


Lemma parseLine_dated_header_any i st label d :
  labelOk label = true -> dateOk d = true ->
  parseLine i (headerLine label (Some d)) st
  = Returns (openVersion label (Some (ValidDate (utcMidnight d))) st).
Proof.
  intros Hlabel Hdate. unfold headerLine.
  destruct (labelOk_facts label Hlabel) as (Hne & Hnrb & HLF & Htrim).
  destruct (dateOk_facts d Hdate) as (Hy & Hm & Hd).
  pose proof (newDate_formatDate d Hdate) as Hnew.
  pose proof (formatDate_digits d Hy) as Hfmt.
  pose proof (pad_isDigit 4 (Z.to_N (year d))) as HY.
  pose proof (pad_isDigit 2 (month d)) as HM.
  pose proof (pad_isDigit 2 (day d)) as HD.
  cbn [pad app] in Hfmt, HY, HM, HD.
  repeat match goal with
         | H : Forall _ (_ :: _) |- _ => apply Forall_cons in H as [? H]
         end.
  unfold parseLine.
  assert (Hexec :
    exec VERSION_HEADER_REGEX
      (lit "## [" ++ label ++ lit "]" ++ lit " - " ++ formatDate d)
    = Some (<[2%nat := formatDate d]> (<[1%nat := label]> ∅))).
  { rewrite Hfmt. now apply header_match_digits. }
  rewrite Hexec.
  replace (startsWith (lit "# ")
             (lit "## [" ++ label ++ lit "]" ++ lit " - " ++ formatDate d))
    with false by reflexivity.
  cbn [andb]. unfold groupTrim, matchedDate.
  rewrite lookup_insert_ne by discriminate. rewrite !lookup_insert_eq.
  rewrite Htrim. cbn [bind].
  rewrite Hnew. rewrite Hfmt. reflexivity.
Qed.

Lemma parseLine_heading_any i cat base label date es c :
  parseLine i (lit "### " ++ categoryName cat)
    (inVersionOf base label date es c)
  = Returns (inVersionOf base label date es (Some cat)).
Proof.
  rewrite (parseLine_category i _ _ (<[1%nat := categoryName cat]> ∅)
             (categoryName cat)
             {| version := label; date := date; entries := es |}).
  - replace (findCategory (trim (categoryName cat))) with (Some cat)
      by (now destruct cat). reflexivity.
  - destruct cat; reflexivity.
  - apply lookup_insert_eq.
  - reflexivity.
Qed.

Lemma parseLine_bullet_any i text base label date es cat :
  descriptionOk text = true ->
  parseLine i (lit "- " ++ text) (inVersionOf base label date es (Some cat))
  = Returns (inVersionOf base label date
               (es ++ [ {| category := cat;
                           entryDescription := text;
                           commits := [] |} ])
               (Some cat)).
Proof.
  intros Hok. unfold descriptionOk in Hok.
  destruct text as [|c text']; [discriminate|].
  apply andb_prop in Hok as [Hdot Htrim]. apply isTrimmed_eq in Htrim.
  rewrite (parseLine_entry i _ _ (<[1%nat := c :: text']> ∅) (c :: text')
             {| version := label; date := date; entries := es |} cat).
  - rewrite Htrim. reflexivity.
  - apply entry_match; [discriminate|now apply (trimmed_head c text')|].
    apply Forall_forall. intros x Hx. rewrite forallb_forall in Hdot.
    apply Hdot. now apply list_elem_of_In.
  - apply lookup_insert_eq.
  - reflexivity.
  - reflexivity.
Qed.

Lemma parseLines_bullets_any texts : forall i base label date es cat,
  forallb descriptionOk texts = true ->
  parseLines (map (fun text => lit "- " ++ text) texts) i
    (inVersionOf base label date es (Some cat))
  = Returns (inVersionOf base label date
               (es ++ map (fun text => {| category := cat;
                                          entryDescription := text;
                                          commits := [] |}) texts)
               (Some cat)).
Proof.
  induction texts as [|t ts IH]; intros i base label date es cat Hok;
    cbn [map parseLines].
  - now rewrite app_nil_r.
  - cbn [forallb] in Hok. apply andb_prop in Hok as [Ht Hts].
    rewrite parseLine_bullet_any by exact Ht. cbn [bind].
    rewrite IH by exact Hts. now rewrite <- app_assoc.
Qed.

Lemma parseLines_category_block_any changes repoUrl cat i base label date es c :
  forallb descriptionOk (listed changes cat) = true ->
  exists c',
    parseLines (flat_map (split LF) (categorySections changes repoUrl cat)) i
      (inVersionOf base label date es c)
    = Returns (inVersionOf base label date
                 (es ++ groupedEntries changes [cat]) c').
Proof.
  intros Hok. rewrite categorySections_lines by exact Hok.
  unfold groupedEntries. cbn [flat_map]. rewrite app_nil_r.
  destruct (listed changes cat) as [|t ts] eqn:E.
  - exists c. cbn [map parseLines]. now rewrite app_nil_r.
  - exists (Some cat). cbn [app parseLines].
    rewrite parseLine_heading_any. cbn [bind].
    rewrite parseLine_blank. cbn [bind].
    rewrite parseLines_app, parseLines_bullets_any by exact Hok.
    cbn [bind parseLines]. rewrite parseLine_blank. reflexivity.
Qed.

Lemma parseLines_blocks_any changes repoUrl cats :
  forall i base label date es c,
  forallb (fun cat => forallb descriptionOk (listed changes cat)) cats = true ->
  exists c',
    parseLines
      (flat_map (split LF) (flat_map (categorySections changes repoUrl) cats))
      i (inVersionOf base label date es c)
    = Returns (inVersionOf base label date
                 (es ++ groupedEntries changes cats) c').
Proof.
  induction cats as [|cat cats IH]; intros i base label date es c Hok.
  - exists c. cbn. now rewrite app_nil_r.
  - cbn [forallb] in Hok. apply andb_prop in Hok as [Hcat Hcats].
    cbn [flat_map]. rewrite flat_map_app, parseLines_app.
    destruct (parseLines_category_block_any changes repoUrl cat i base label
                date es c Hcat) as [c1 ->].
    cbn [bind].
    destruct (IH (i + length (flat_map (split LF)
                                (categorySections changes repoUrl cat)))%nat
                base label date (es ++ groupedEntries changes [cat]) c1 Hcats)
      as [c2 ->].
    exists c2. f_equal. f_equal. rewrite <- app_assoc. f_equal.
    unfold groupedEntries. cbn [flat_map]. now rewrite app_nil_r.
Qed.

(** A rendered, dated block read from line [i] on, in any state: the open
    version is closed and the block's version is opened and filled. *)
Lemma parseLines_dated_block i st label d changes repoUrl :
  labelOk label = true -> dateOk d = true -> changesOk changes = true ->
  exists c',
    parseLines (split LF (formatVersion label (Some d) changes repoUrl)) i st
    = Returns (inVersionOf (openVersion label (Some (ValidDate (utcMidnight d))) st)
                 label (Some (ValidDate (utcMidnight d)))
                 (groupedEntries changes CATEGORY_ORDER) c').
Proof.
  intros Hlabel Hdate Hchanges.
  destruct (labelOk_facts label Hlabel) as (_ & _ & HLF & _).
  destruct (dateOk_facts d Hdate) as (Hy & _ & _).
  rewrite formatVersion_lines by assumption.
  cbn [parseLines].
  change (lit "## [" ++ label ++ lit "]" ++ lit " - " ++ formatDate d)
    with (headerLine label (Some d)).
  rewrite parseLine_dated_header_any by assumption. cbn [bind].
  rewrite parseLine_blank. cbn [bind].
  change (openVersion label (Some (ValidDate (utcMidnight d))) st)
    with (inVersionOf (openVersion label (Some (ValidDate (utcMidnight d))) st)
            label (Some (ValidDate (utcMidnight d))) [] None) at 1.
  destruct (parseLines_blocks_any changes repoUrl CATEGORY_ORDER (S (S i))
              (openVersion label (Some (ValidDate (utcMidnight d))) st) label
              (Some (ValidDate (utcMidnight d))) [] None Hchanges) as [c ->].
  exists c. reflexivity.
Qed.

Lemma createNewChangelog_lines label d changes repoUrl :
  split LF (createNewChangelog label d changes repoUrl)
  = newChangelogHead
    ++ split LF (formatVersion label (Some d) changes repoUrl).
Proof.
  unfold createNewChangelog. rewrite split_join by discriminate.
  cbn [flat_map]. rewrite app_nil_r. unfold newChangelogHead, formatUnreleasedHeader.
  repeat match goal with
         | |- context [split LF ?x ++ _] =>
             lazymatch x with
             | formatVersion _ _ _ _ => fail
             | _ => let v := eval vm_compute in (split LF x) in
                    change (split LF x) with v
             end
         end.
  eval_lits. reflexivity.
Qed.

(** The loop on a freshly created changelog: the head leaves the preamble
    collected, the block opens and fills the one version. *)
Lemma parseLines_new_changelog label d changes repoUrl :
  labelOk label = true -> dateOk d = true -> changesOk changes = true ->
  exists c,
    parseLines (split LF (createNewChangelog label d changes repoUrl)) 0
      initialState
    = Returns
        (inVersionOf
           (openVersion label (Some (ValidDate (utcMidnight d))) newChangelogPreamble)
           label (Some (ValidDate (utcMidnight d)))
           (groupedEntries changes CATEGORY_ORDER) c).
Proof.
  intros Hlabel Hdate Hchanges.
  rewrite createNewChangelog_lines, parseLines_app.
  replace (parseLines newChangelogHead 0 initialState)
    with (Returns newChangelogPreamble) by (vm_compute; reflexivity).
  cbn [bind].
  apply parseLines_dated_block; assumption.
Qed.


End NewChangelog.

(** ** Versions read after an insertion *)

Section AfterInsertion.

Lemma parseChangelog_versions content :
  exists doc,
    parseChangelog content = Returns doc
    /\ map versionKey (versions doc)
       = map headerOf (List.filter isParsedHeader (split LF content)).
Proof.
  unfold parseChangelog.
  destruct (parseLines_total (split LF content) 0 initialState) as [st Hst].
  rewrite Hst. cbn [bind]. eexists. split; [reflexivity|].
  apply parseLines_versions in Hst as [Hv _]. exact Hv.
Qed.

Lemma headerOf_dated label d :
  labelOk label = true -> dateOk d = true ->
  isParsedHeader (headerLine label (Some d)) = true
  /\ headerOf (headerLine label (Some d)) = (label, Some (ValidDate (utcMidnight d))).
Proof.
  intros Hlabel Hdate. unfold headerLine.
  destruct (labelOk_facts label Hlabel) as (Hne & Hnrb & HLF & Htrim).
  destruct (dateOk_facts d Hdate) as (Hy & Hm & Hd).
  pose proof (newDate_formatDate d Hdate) as Hnew.
  pose proof (formatDate_digits d Hy) as Hfmt.
  pose proof (pad_isDigit 4 (Z.to_N (year d))) as HY.
  pose proof (pad_isDigit 2 (month d)) as HM.
  pose proof (pad_isDigit 2 (day d)) as HD.
  cbn [pad app] in Hfmt, HY, HM, HD.
  repeat match goal with
         | H : Forall _ (_ :: _) |- _ => apply Forall_cons in H as [? H]
         end.
  assert (Hexec :
    exec VERSION_HEADER_REGEX
      (lit "## [" ++ label ++ lit "]" ++ lit " - " ++ formatDate d)
    = Some (<[2%nat := formatDate d]> (<[1%nat := label]> ∅))).
  { rewrite Hfmt. now apply header_match_digits. }
  unfold isParsedHeader, headerOf, test. rewrite Hexec.
  split; [reflexivity|].
  unfold groupTrim, matchedDate.
  rewrite lookup_insert_ne by discriminate. rewrite !lookup_insert_eq.
  rewrite Htrim, Hnew. rewrite Hfmt. reflexivity.
Qed.

Lemma dash_not_header rest : exec VERSION_HEADER_REGEX (45 :: rest) = None.
Proof.
  open_patterns. cbn [seqs foldr map]. rx. now apply run_Chr_miss.
Qed.

Lemma categoryLines_no_header changes cats :
  List.filter isParsedHeader (flat_map (categoryLines changes) cats) = [].
Proof.
  induction cats as [|cat cats IH]; [reflexivity|].
  cbn [flat_map]. rewrite List.filter_app, IH, app_nil_r.
  unfold categoryLines. destruct (listed changes cat) as [|t ts]; [reflexivity|].
  generalize (t :: ts). intros texts.
  cbn [app List.filter].
  replace (isParsedHeader (lit "### " ++ categoryName cat)) with false
    by (now destruct cat).
  replace (isParsedHeader []) with false by reflexivity.
  induction texts as [|x xs IHx]; cbn [map app List.filter].
  - now replace (isParsedHeader []) with false by reflexivity.
  - replace (isParsedHeader (lit "- " ++ x)) with false; [exact IHx|].
    symmetry. unfold isParsedHeader, test.
    change (lit "- " ++ x) with (45 :: 32 :: x).
    now rewrite dash_not_header.
Qed.

(** X10. Inserting a version adds exactly one version to what the parser
    reads, for a label that is not empty, has no white space at its ends, no
    [\]] and no line feed, a date in a year from 0 to 9999, and descriptions
    without a line feed: the labels and dates of the document parsed after
    the insertion are those parsed before it, in the same order, with the new
    label and its date at midnight UTC put in at one place. *)
Theorem insertVersion_adds_one_version content label d changes repoUrl :
  labelOk label = true -> dateOk d = true -> changesOneLine changes = true ->
  exists doc doc' before after,
    parseChangelog content = Returns doc
    /\ parseChangelog (insertVersion content label d changes repoUrl)
       = Returns doc'
    /\ map versionKey (versions doc) = before ++ after
    /\ map versionKey (versions doc')
       = before ++ (label, Some (ValidDate (utcMidnight d))) :: after.
Proof.
  intros Hlabel Hdate Hchanges.
  destruct (parseChangelog_versions content) as (doc & Hdoc & Hkeys).
  destruct (parseChangelog_versions
              (insertVersion content label d changes repoUrl))
    as (doc' & Hdoc' & Hkeys').
  set (lines := split LF content) in *.
  set (idx := insertIndex lines).
  exists doc, doc',
    (map headerOf (List.filter isParsedHeader (sliceTo idx lines))),
    (map headerOf (List.filter isParsedHeader (sliceFrom idx lines))).
  split; [exact Hdoc|]. split; [exact Hdoc'|]. split.
  - rewrite Hkeys, <- map_app, <- List.filter_app.
    unfold sliceTo, sliceFrom. now rewrite take_drop.
  - rewrite Hkeys', insertVersion_lines. fold lines. fold idx.
    destruct (labelOk_facts label Hlabel) as (_ & _ & HLF & _).
    assert (Hone : oneLine label = true).
    { unfold oneLine. apply forallb_forall. intros c Hc.
      apply negb_true_iff, N.eqb_neq. intros ->.
      apply HLF. now apply list_elem_of_In. }
    rewrite formatVersion_lines_any by now apply headerLine_one_line.
    rewrite sections_one_line by exact Hchanges.
    destruct (headerOf_dated label d Hlabel Hdate) as [Hp Hh].
    rewrite !List.filter_app. cbn [List.filter]. rewrite Hp.
    replace (isParsedHeader []) with false by reflexivity.
    rewrite categoryLines_no_header. cbn [app].
    rewrite !map_app. cbn [map app]. now rewrite Hh.
Qed.

End AfterInsertion.

(** ** Reading a changelog back *)

Section ReadingBack.

Lemma jsstring_eqb_spec a b : reflect (a = b) (jsstring_eqb a b).
Proof.
  unfold jsstring_eqb. destruct (bool_decide_reflect (a = b)); now constructor.
Qed.

(** X11. [loadChangelog] yields [null] exactly when the path holds no file:
    for a file that is there the parser returns a document and the [catch]
    is never entered. *)
Theorem loadChangelog_none_iff_absent (fs : fileSystem) filePath :
  loadChangelog fs filePath = None <-> fs !! filePath = None.
Proof.
  unfold loadChangelog. destruct (fs !! filePath) as [content|]; [|tauto].
  unfold parseChangelog.
  destruct (parseLines_total (split LF content) 0 initialState) as [st ->].
  cbn [bind]. split; discriminate.
Qed.

(** X12. The version [getLatestVersion] returns is the first one in the
    document whose label, in lower case, is not "unreleased": every version
    before it is an Unreleased one. *)
Theorem getLatestVersion_first_released doc v :
  getLatestVersion doc = Some v ->
  isReleased v = true
  /\ exists before after,
       versions doc = before ++ v :: after
       /\ forallb (fun u => negb (isReleased u)) before = true.
Proof.
  unfold getLatestVersion. induction (versions doc) as [|u us IH];
    cbn [List.filter head]; [discriminate|].
  destruct (isReleased u) eqn:Eu.
  - cbn [head]. intros [= ->]. split; [exact Eu|]. now exists [], us.
  - intros H. destruct (IH H) as (Hv & before & after & -> & Hb).
    split; [exact Hv|]. exists (u :: before), after. split; [reflexivity|].
    cbn [forallb]. now rewrite Eu.
Qed.

(** X13. [getLatestVersion] returns [null] exactly when every version of
    the document is labelled "unreleased" in some letter case; in particular
    for a document without versions. *)
Theorem getLatestVersion_none_iff_unreleased doc :
  getLatestVersion doc = None
  <-> Forall (fun v => toLowerCase (version v) = lit "unreleased")
        (versions doc).
Proof.
  unfold getLatestVersion. induction (versions doc) as [|u us IH];
    cbn [List.filter head].
  - split; [constructor|reflexivity].
  - unfold isReleased at 1.
    destruct (jsstring_eqb_spec (toLowerCase (version u)) (lit "unreleased"))
      as [E|E]; cbn [negb head].
    + rewrite IH. split; [now constructor|]. intros H. now inversion H.
    + split; [discriminate|]. intros H. now inversion H.
Qed.

(** X14. Writing to a path that holds no file and loading it again. Take a
    label that is not empty, has no white space at its ends, no [\]], no line
    feed and no lone surrogate, and is not "unreleased" in any letter case; a
    date in a year from 0 to 9999; and descriptions that are not empty, have
    no white space at their ends, no line terminator and no lone surrogate.
    Then the document loaded has the written version as its latest version,
    with its entries in category order, and the date of the latest version is
    the written date at midnight UTC. *)
Theorem first_write_then_load (fs : fileSystem) filePath label d changes repoUrl :
  fs !! filePath = None ->
  labelOk label = true -> dateOk d = true -> changesOk changes = true ->
  isWellFormed label = true -> changesWellFormed changes = true ->
  toLowerCase label <> lit "unreleased" ->
  exists doc,
    loadChangelog (writeChangelog fs filePath label d changes repoUrl) filePath
    = Some doc
    /\ getLatestVersion doc
       = Some {| version := label;
                 date := Some (ValidDate (utcMidnight d));
                 entries := groupedEntries changes CATEGORY_ORDER |}
    /\ getLatestVersionDate doc = Some (ValidDate (utcMidnight d)).
Proof.
  intros Hfs Hlabel Hdate Hchanges Hwf Hwfs Hrel.
  unfold loadChangelog, writeChangelog, writeFileSync.
  rewrite Hfs, lookup_insert_eq.
  rewrite toWellFormed_fixed by now apply createNewChangelog_wellFormed.
  assert (Hparsed :
    parseChangelog (createNewChangelog label d changes repoUrl)
    = Returns
        {| title := lit "Changelog";
           description := newChangelogDescription;
           versions :=
             [ {| version := label;
                  date := Some (ValidDate (utcMidnight d));
                  entries := groupedEntries changes CATEGORY_ORDER |} ] |}).
  { unfold parseChangelog.
    destruct (parseLines_new_changelog label d changes repoUrl
                Hlabel Hdate Hchanges) as [c ->].
    reflexivity. }
  rewrite Hparsed. eexists. split; [reflexivity|].
  unfold getLatestVersionDate, getLatestVersion. cbn [versions List.filter].
  unfold isReleased. cbn [version].
  destruct (jsstring_eqb_spec (toLowerCase label) (lit "unreleased"));
    [contradiction|].
  cbn [negb head date]. split; reflexivity.
Qed.

End ReadingBack.

(** ** Truncating a diff *)

Section Truncation.


Lemma joinedCost_app a b : joinedCost (a ++ b) = (joinedCost a + joinedCost b)%Z.
Proof.
  induction a as [|x a IH]; cbn [app joinedCost foldr]; [reflexivity|].
  fold (joinedCost (a ++ b)). fold (joinedCost a). lia.
Qed.

Lemma joinedCost_nonneg a : (0 <= joinedCost a)%Z.
Proof.
  induction a as [|x a IH]; cbn [joinedCost foldr]; [lia|].
  fold (joinedCost a). lia.
Qed.

Lemma join_length_cost pieces :
  (Z.of_nat (length (join nl pieces)) <= joinedCost pieces)%Z.
Proof.
  induction pieces as [|x [|y rest] IH].
  - cbn. lia.
  - cbn. lia.
  - change (join nl (x :: y :: rest)) with (x ++ nl ++ join nl (y :: rest)).
    rewrite !length_app. change (joinedCost (x :: y :: rest))
      with (Z.of_nat (length x) + 1 + joinedCost (y :: rest))%Z.
    change (length nl) with 1%nat. lia.
Qed.

Lemma startsWith_length p s :
  startsWith p s = true -> (length p <= length s)%nat.
Proof.
  revert s. induction p as [|a p IH]; intros [|b s]; cbn [startsWith length];
    try lia; try discriminate.
  intros H. apply andb_prop in H as [_ H]. apply IH in H. lia.
Qed.

(** The loop keeps the joined length within what it has counted: every
    hunk marker costs one code unit more than the 20 it counts, and is paid
    for by the 43 code units counted for its hunk and itself. *)
Lemma truncateLoop_cost maxLength lines :
  forall result currentLength inHunk hunkLines markers,
  (0 <= markers)%Z -> (0 <= hunkLines)%Z ->
  joinedCost result = (currentLength + markers)%Z ->
  (43 * markers
   + (if inHunk && (hunkLines <=? 20)%Z then 3 + hunkLines else 0)
   <= currentLength)%Z ->
  ((currentLength <= maxLength - 100)%Z
   \/ ((currentLength <= maxLength - 80)%Z
       /\ inHunk = true /\ (21 <= hunkLines)%Z)) ->
  (43 * joinedCost
          (truncateLoop maxLength lines result currentLength inHunk hunkLines)
   <= 44 * maxLength)%Z.
Proof.
  induction lines as [|line rest IH];
    intros result A h n m Hm Hn Hcost Hpaid Hroom; cbn [truncateLoop].
  { destruct (h && (n <=? 20)%Z); lia. }
  assert (Hbreak :
    (43 * joinedCost (result ++ [diffTruncatedMarker]) <= 44 * maxLength)%Z).
  { rewrite joinedCost_app, Hcost.
    change (joinedCost [diffTruncatedMarker]) with 32%Z.
    destruct (h && (n <=? 20)%Z); lia. }
  assert (Hpushed :
    joinedCost (result ++ [line]) = (A + Z.of_nat (length line) + 1 + m)%Z).
  { rewrite joinedCost_app, Hcost. cbn [joinedCost foldr]. lia. }
  destruct (isDiffHeader line) eqn:Eheader.
  { destruct (Z.gtb_spec (A + Z.of_nat (length line) + 1) (maxLength - 100));
      [exact Hbreak|].
    apply (IH _ _ _ _ m); [lia|lia|exact Hpushed| |left; lia].
    destruct (startsWith (lit "@@") line) eqn:Eat; cbn [andb].
    - apply startsWith_length in Eat.
      change (length (lit "@@")) with 2%nat in Eat.
      change (0 <=? 20)%Z with true. cbv iota.
      destruct (h && (n <=? 20)%Z); lia.
    - destruct (h && (n <=? 20)%Z); lia. }
  destruct h.
  2:{ apply (IH _ _ _ _ m); assumption. }
  cbn [andb] in Hpaid. cbv zeta.
  destruct (Z.leb_spec (n + 1) 20) as [Hle|Hgt].
  { assert (En : (n <=? 20)%Z = true) by (apply Z.leb_le; lia).
    rewrite En in Hpaid.
    destruct (Z.gtb_spec (A + Z.of_nat (length line) + 1) (maxLength - 100));
      [exact Hbreak|].
    apply (IH _ _ _ _ m); [lia|lia|exact Hpushed| |left; lia].
    cbn [andb]. assert (E1 : (n + 1 <=? 20)%Z = true) by (apply Z.leb_le; lia).
    rewrite E1. lia. }
  assert (E1 : (n + 1 <=? 20)%Z = false) by (apply Z.leb_gt; lia).
  destruct (Z.eqb_spec (n + 1) (20 + 1)) as [E21|N21].
  { assert (En : (n <=? 20)%Z = true) by (apply Z.leb_le; lia).
    rewrite En in Hpaid.
    assert (HA : (A <= maxLength - 100)%Z) by (destruct Hroom; lia).
    apply (IH _ _ _ _ (m + 1)%Z); [lia|lia| | |].
    - rewrite joinedCost_app, Hcost.
      change (joinedCost [hunkTruncatedMarker]) with 21%Z. lia.
    - cbn [andb]. rewrite E1. lia.
    - right. split; [lia|]. split; [reflexivity|lia]. }
  assert (En : (n <=? 20)%Z = false) by (apply Z.leb_gt; lia).
  rewrite En in Hpaid.
  apply (IH _ _ _ _ m); [lia|lia|exact Hcost| |].
  - cbn [andb]. rewrite E1. lia.
  - destruct Hroom as [?|(? & _ & ?)]; [left; lia|right].
    split; [lia|]. split; [reflexivity|lia].
Qed.

(** X15. The length of what [truncateDiff] returns, for [maxLength] of at
    least 100, is at most [maxLength + maxLength / 43] code units. It is not
    bounded by [maxLength] itself: see [truncateDiff_longer_than_maxLength]. *)
Theorem truncateDiff_length_bound diff maxLength :
  (100 <= maxLength)%Z ->
  (Z.of_nat (length (truncateDiff diff maxLength))
   <= maxLength + maxLength / 43)%Z.
Proof.
  intros Hmax. unfold truncateDiff.
  assert (Hdiv : (0 <= maxLength / 43)%Z) by (apply Z.div_pos; lia).
  destruct (Z.leb_spec (Z.of_nat (length diff)) maxLength) as [Hle|Hgt]; [lia|].
  pose proof (join_length_cost (truncatedLines diff maxLength)) as Hjoin.
  pose proof (truncateLoop_cost maxLength (split LF diff) [] 0 false 0 0) as H.
  unfold truncatedLines in *.
  specialize (H ltac:(lia) ltac:(lia) eq_refl ltac:(cbn; lia) ltac:(left; lia)).
  pose proof (Z.div_mod maxLength 43 ltac:(lia)) as Hdm.
  pose proof (Z.mod_pos_bound maxLength 43 ltac:(lia)) as Hmod.
  revert H Hjoin Hdm Hmod Hdiv.
  generalize (maxLength / 43)%Z (maxLength mod 43)%Z
    (joinedCost (truncateLoop maxLength (split LF diff) [] 0 false 0))
    (Z.of_nat (length (join nl (truncateLoop maxLength (split LF diff) [] 0 false 0)))).
  intros. lia.
Qed.

Lemma keptLines_app a b : keptLines (a ++ b) = keptLines a ++ keptLines b.
Proof. apply List.filter_app. Qed.

Lemma keptLines_marker result marker :
  isTruncationMarker marker = true ->
  keptLines (result ++ [marker]) = keptLines result.
Proof.
  intros H. rewrite keptLines_app. unfold keptLines at 2. cbn [List.filter].
  rewrite H. cbn [negb]. apply app_nil_r.
Qed.

Lemma keptLines_line result line :
  sublist (keptLines (result ++ [line])) (keptLines result ++ [line]).
Proof.
  rewrite keptLines_app. apply sublist_app; [reflexivity|].
  unfold keptLines. cbn [List.filter].
  destruct (negb (isTruncationMarker line)); [reflexivity|].
  now apply sublist_cons.
Qed.

Lemma truncateLoop_keeps maxLength lines :
  forall result currentLength inHunk hunkLines before,
  sublist (keptLines result) before ->
  sublist
    (keptLines
       (truncateLoop maxLength lines result currentLength inHunk hunkLines))
    (before ++ lines).
Proof.
  induction lines as [|line rest IH]; intros result A h n before Hsub;
    cbn [truncateLoop].
  { now rewrite app_nil_r. }
  assert (Hbreak :
    sublist (keptLines (result ++ [diffTruncatedMarker]))
            (before ++ line :: rest)).
  { rewrite keptLines_marker by reflexivity.
    now apply sublist_inserts_r. }
  assert (Hskip : sublist (keptLines result) (before ++ [line])).
  { now apply sublist_inserts_r. }
  assert (Hpush : sublist (keptLines (result ++ [line])) (before ++ [line])).
  { etransitivity; [apply keptLines_line|].
    apply sublist_app; [exact Hsub|reflexivity]. }
  replace (before ++ line :: rest) with ((before ++ [line]) ++ rest)
    by now rewrite <- app_assoc.
  replace (before ++ line :: rest) with ((before ++ [line]) ++ rest) in Hbreak
    by now rewrite <- app_assoc.
  repeat case_match; try exact Hbreak; apply IH;
    try exact Hskip; try exact Hpush.
  now rewrite keptLines_marker by reflexivity.
Qed.

(** X16. A truncated diff is made of lines of the input: for a diff longer
    than [maxLength] the result is the join of an array of lines which, the
    two marker lines left out, is a subsequence of the input's lines. Nothing
    is reordered, altered or invented. *)
Theorem truncateDiff_keeps_input_lines diff maxLength :
  (maxLength < Z.of_nat (length diff))%Z ->
  exists result,
    truncateDiff diff maxLength = join nl result
    /\ sublist (keptLines result) (split LF diff).
Proof.
  intros Hlong. exists (truncatedLines diff maxLength). split.
  - unfold truncateDiff.
    destruct (Z.leb_spec (Z.of_nat (length diff)) maxLength); [lia|reflexivity].
  - apply (truncateLoop_keeps maxLength (split LF diff) [] 0 false 0 []).
    constructor.
Qed.

(** X17. A text longer than [maxLength] in which no line starts with
    [diff --git], [---], [+++] or [@@] is truncated to the empty string: lines
    outside a hunk are never kept. *)
Theorem truncateDiff_without_headers diff maxLength :
  (maxLength < Z.of_nat (length diff))%Z ->
  forallb (fun line => negb (isDiffHeader line)) (split LF diff) = true ->
  truncateDiff diff maxLength = [].
Proof.
  intros Hlong Hnone. unfold truncateDiff, truncatedLines.
  destruct (Z.leb_spec (Z.of_nat (length diff)) maxLength); [lia|].
  assert (Hloop : forall lines n,
    forallb (fun line => negb (isDiffHeader line)) lines = true ->
    truncateLoop maxLength lines [] 0 false n = []).
  { induction lines as [|line rest IH]; intros n Hall; [reflexivity|].
    cbn [forallb] in Hall. apply andb_prop in Hall as [Hline Hrest].
    apply negb_true_iff in Hline. cbn [truncateLoop]. rewrite Hline.
    now apply IH. }
  now rewrite Hloop.
Qed.

End Truncation.

(** ** Commit messages *)

Section CommitMessages.

(** X18. The message of a parsed commit. The subject holds no line feed
    and is a prefix of the message; what follows it is empty or starts with a
    line feed; the body is that remainder without its first code unit,
    trimmed, so it has no white space at either end. *)
Theorem parseCommitLog_message {D : Type} (newDateOf : jsstring -> D)
    hash author date message files diff :
  let commit := parseCommitLog newDateOf hash author date message files diff in
  ((LF ∉ subject commit)
   /\ trim (body commit) = body commit
   /\ exists rest,
        message = subject commit ++ rest
        /\ body commit = trim (drop 1 rest)
        /\ (rest = [] \/ head rest = Some LF)).
Proof.
  cbv zeta. unfold parseCommitLog. cbn [subject body].
  pose proof (join_split message) as Hjoin.
  pose proof (split_lines_no_LF message) as Hno.
  destruct (split LF message) as [|first others] eqn:E.
  { now apply split_nonempty in E. }
  apply Forall_cons in Hno as [Hfirst _].
  assert (Hsubject :
    match first with _ :: _ => first | [] => [] end = first)
    by now destruct first.
  replace (match first with _ :: _ => first | [] => [] end) with first.
  split; [exact Hfirst|]. split; [apply trim_idempotent|].
  cbn [drop]. destruct others as [|second others].
  - exists []. cbn [join] in Hjoin. rewrite app_nil_r.
    split; [now symmetry|]. split; [reflexivity|now left].
  - exists (nl ++ join nl (second :: others)).
    split; [now symmetry|]. split; [reflexivity|now right].
Qed.

End CommitMessages.

(** ** Compare links *)

Section CompareLinks.

Lemma startsWith_app p s : startsWith p (p ++ s) = true.
Proof.
  induction p as [|a p IH]; [reflexivity|].
  cbn [app startsWith]. now rewrite N.eqb_refl.
Qed.

Lemma startsWith_prefix p s k : s = p ++ k -> startsWith p s = true.
Proof. intros ->. apply startsWith_app. Qed.

Lemma compareLines_prefixes versions repoUrl :
  Forall2
    (fun v line => startsWith (lit "[" ++ v ++ lit "]: " ++ repoUrl) line = true)
    (take (length versions - 1) versions) (compareLines versions repoUrl).
Proof.
  induction versions as [|current [|previous rest] IH];
    cbn [compareLines length Nat.sub take]; try constructor.
  - eapply startsWith_prefix. rewrite <- !app_assoc. reflexivity.
  - cbn [length Nat.sub] in IH. now rewrite Nat.sub_0_r in *.
Qed.

(** X19. For a non-empty repository URL and at least two versions, none
    of them holding a line feed, [generateCompareLinks] yields exactly one
    line per version, in order, each starting with the version in brackets, a
    colon, a space and the URL; the last line is the release-tag link of the
    last version. *)
Theorem generateCompareLinks_one_line_per_version versions repoUrl :
  repoUrl <> [] -> (2 <= length versions)%nat ->
  forallb oneLine versions = true -> oneLine repoUrl = true ->
  exists lines,
    split LF (generateCompareLinks versions repoUrl) = lines
    /\ Forall2
         (fun v line =>
            startsWith (lit "[" ++ v ++ lit "]: " ++ repoUrl) line = true)
         versions lines
    /\ last lines
       = Some (lit "[" ++ default [] (last versions) ++ lit "]: " ++ repoUrl
               ++ lit "/releases/tag/" ++ default [] (last versions)).
Proof.
  intros Hurl Hlen Hall Hone.
  assert (Hversions : Forall (fun v => LF ∉ v) versions).
  { apply Forall_forall. intros v Hv. apply oneLine_no_LF.
    rewrite forallb_forall in Hall. apply Hall. now apply list_elem_of_In. }
  assert (HLF : LF ∉ repoUrl) by now apply oneLine_no_LF.
  clear Hall Hone.
  eexists. split; [reflexivity|].
  unfold generateCompareLinks.
  destruct repoUrl as [|c u]; [contradiction|]. cbn [truthy negb orb].
  destruct (Nat.ltb_spec (length versions) 2) as [?|_]; [lia|]. cbv zeta.
  set (url := c :: u) in *.
  set (lastLine := lit "[" ++ default [] (last versions) ++ lit "]: " ++ url
                   ++ lit "/releases/tag/" ++ default [] (last versions)).
  assert (Hlast : LF ∉ default [] (last versions)).
  { destruct (last versions) as [v|] eqn:E; cbn [default].
    - apply last_Some_elem_of in E.
      rewrite Forall_forall in Hversions. now apply Hversions.
    - apply not_elem_of_nil. }
  assert (Hlit : forall text, LF ∉ text -> forall rest, LF ∉ rest -> LF ∉ text ++ rest).
  { intros text Ht rest Hr Hin. apply elem_of_app in Hin as [?|?]; tauto. }
  assert (Hlines :
    Forall (fun l => LF ∉ l) (compareLines versions url ++ [lastLine])).
  { apply Forall_app. split.
    - clear Hlen Hlast lastLine.
      induction Hversions as [|current rest Hc Hrest IH]; [constructor|].
      destruct rest as [|previous rest]; [constructor|].
      cbn [compareLines]. apply Forall_cons in Hrest as Hp. destruct Hp as [Hp _].
      constructor; [|exact IH].
      repeat (apply Hlit; [first [assumption
        | apply (bool_decide_eq_false_1 (_ ∈ _)); vm_compute; reflexivity]|]).
      exact Hc.
    - constructor; [|constructor]. unfold lastLine.
      repeat (apply Hlit; [first [assumption
        | apply (bool_decide_eq_false_1 (_ ∈ _)); vm_compute; reflexivity]|]).
      exact Hlast. }
  rewrite split_join.
  2:{ intros Hnil. apply app_eq_nil in Hnil as [_ Hnil]. discriminate. }
  rewrite flat_map_split_lines by exact Hlines.
  split; [|apply last_snoc].
  replace versions with (take (length versions - 1) versions
                         ++ [default [] (last versions)]) at 1.
  - apply Forall2_app; [apply compareLines_prefixes|].
    constructor; [|constructor].
    eapply startsWith_prefix. unfold lastLine. rewrite <- !app_assoc.
    reflexivity.
  - clear -Hlen. destruct versions as [|v vs] using rev_ind; [cbn in *; lia|].
    rewrite last_snoc, length_app. cbn [length default].
    replace (length vs + 1 - 1)%nat with (length vs) by lia.
    now rewrite take_app_length.
Qed.

End CompareLinks.

(** ** The remote URL *)

Section RemoteUrl.

Lemma stripGitSuffix_strips url : stripGitSuffix (url ++ lit ".git") = url.
Proof.
  unfold stripGitSuffix. rewrite rev_app_distr.
  change (rev (lit ".git")) with [116; 105; 103; 46]. cbn [app].
  apply rev_involutive.
Qed.

(** X20. An SSH remote. When the fetch URL of [origin] is [git@] followed
    by [rest], [getRepoUrl] yields [https///] followed by [rest], less a final
    [.git]: the second replacement hits the colon of [https:] that the first
    one has just written, and the colon after the host stays. *)
Theorem getRepoUrl_ssh_remote remotes origin rest :
  List.find (fun r => jsstring_eqb (remoteName r) (lit "origin")) remotes
  = Some origin ->
  refsFetch origin = lit "git@" ++ rest ->
  getRepoUrl (Some remotes) = Some (stripGitSuffix (lit "https///" ++ rest)).
Proof.
  intros Hfind Hfetch. unfold getRepoUrl. rewrite Hfind, Hfetch.
  change (lit "git@" ++ rest) with (103 :: 105 :: 116 :: 64 :: rest).
  cbv iota. rewrite (startsWith_app (lit "git@") rest : startsWith (lit "git@") (103 :: 105 :: 116 :: 64 :: rest) = true).
  reflexivity.
Qed.

(** X21. A remote that does not start with [git@] and ends in [.git]:
    [getRepoUrl] yields the fetch URL of [origin] without that suffix. *)
Theorem getRepoUrl_https_remote remotes origin url :
  List.find (fun r => jsstring_eqb (remoteName r) (lit "origin")) remotes
  = Some origin ->
  refsFetch origin = url ++ lit ".git" ->
  startsWith (lit "git@") (url ++ lit ".git") = false ->
  getRepoUrl (Some remotes) = Some url.
Proof.
  intros Hfind Hfetch Hssh. unfold getRepoUrl. rewrite Hfind, Hfetch, Hssh.
  rewrite stripGitSuffix_strips.
  destruct (url ++ lit ".git") eqn:E; [|reflexivity].
  apply app_eq_nil in E as [_ E]. discriminate.
Qed.

End RemoteUrl.

(** ** A second release written to a fresh file *)

Section SecondWrite.

Lemma insertIndex_new_changelog line rest :
  isUnreleasedHeader line = false ->
  isVersionHeader line = true ->
  isSecondLevel line = true ->
  insertIndex (newChangelogHead ++ line :: rest)
  = Z.of_nat (length newChangelogHead).
Proof.
  intros Hu Hv Hs. unfold insertIndex.
  assert (Hscan : scanInsertIndex (newChangelogHead ++ line :: rest) 0 false
                  = 10%Z).
  { change newChangelogHead
      with (take 7 newChangelogHead
            ++ lit "## [Unreleased]" :: [[]; []]).
    assert (Hstep : forall l i,
      scanInsertIndex (lit "## [Unreleased]" :: l) i false
      = scanInsertIndex l (i + 1) true).
    { intros l i. cbn [scanInsertIndex].
      now replace (test UNRELEASED_REGEX (lit "## [Unreleased]")) with true
        by (vm_compute; reflexivity). }
    rewrite <- app_assoc.
    rewrite scanInsertIndex_skip_before by (vm_compute; reflexivity).
    change ((lit "## [Unreleased]" :: [[]; []]) ++ line :: rest)
      with (lit "## [Unreleased]" :: ([[]; []] ++ line :: rest)).
    rewrite Hstep.
    rewrite (scanInsertIndex_skip_after [[]; []]) by (vm_compute; reflexivity).
    rewrite (scanInsertIndex_stops_at line rest _ true Hu Hv Hs).
    reflexivity. }
  rewrite Hscan. reflexivity.
Qed.

Lemma headerLine_shape label date :
  exists rest, headerLine label date = 35 :: 35 :: 32 :: 91 :: rest.
Proof. unfold headerLine. eval_lits. cbn [app]. eauto. Qed.

Lemma second_write_content label1 d1 changes1 repoUrl1
    label2 d2 changes2 repoUrl2 :
  labelOk label1 = true -> dateOk d1 = true -> changesOk changes1 = true ->
  isUnreleasedHeader (headerLine label1 (Some d1)) = false ->
  insertVersion (createNewChangelog label1 d1 changes1 repoUrl1)
    label2 d2 changes2 repoUrl2
  = join nl (newChangelogHead
             ++ [formatVersion label2 (Some d2) changes2 repoUrl2; []]
             ++ split LF (formatVersion label1 (Some d1) changes1 repoUrl1)).
Proof.
  intros Hlabel Hdate Hchanges Hu.
  apply insertVersion_at; [apply createNewChangelog_lines|].
  destruct (labelOk_facts label1 Hlabel) as (_ & _ & HLF & _).
  destruct (dateOk_facts d1 Hdate) as (Hy & _ & _).
  rewrite formatVersion_lines by assumption.
  change (lit "## [" ++ label1 ++ lit "]" ++ lit " - " ++ formatDate d1)
    with (headerLine label1 (Some d1)).
  apply insertIndex_new_changelog; [exact Hu| |].
  - destruct (headerLine_shape label1 (Some d1)) as [rest ->].
    apply bracket_line_is_version_header.
  - destruct (headerLine_shape label1 (Some d1)) as [rest ->]. reflexivity.
Qed.

Lemma second_write_parsed label1 d1 changes1 repoUrl1
    label2 d2 changes2 repoUrl2 :
  labelOk label1 = true -> dateOk d1 = true -> changesOk changes1 = true ->
  labelOk label2 = true -> dateOk d2 = true -> changesOk changes2 = true ->
  isUnreleasedHeader (headerLine label1 (Some d1)) = false ->
  parseChangelog
    (insertVersion (createNewChangelog label1 d1 changes1 repoUrl1)
       label2 d2 changes2 repoUrl2)
  = Returns
      {| title := lit "Changelog";
         description := newChangelogDescription;
         versions :=
           [ {| version := label2;
                date := Some (ValidDate (utcMidnight d2));
                entries := groupedEntries changes2 CATEGORY_ORDER |};
             {| version := label1;
                date := Some (ValidDate (utcMidnight d1));
                entries := groupedEntries changes1 CATEGORY_ORDER |} ] |}.
Proof.
  intros Hlabel1 Hdate1 Hchanges1 Hlabel2 Hdate2 Hchanges2 Hu.
  rewrite second_write_content by assumption.
  unfold parseChangelog. rewrite split_join.
  2:{ unfold newChangelogHead. discriminate. }
  rewrite !flat_map_app.
  replace (flat_map (split LF) newChangelogHead) with newChangelogHead
    by (vm_compute; reflexivity).
  rewrite (flat_map_split_lines (split LF _)) by apply split_lines_no_LF.
  cbn [flat_map]. rewrite app_nil_r. change (split LF []) with [@nil N].
  rewrite !parseLines_app.
  let r := eval vm_compute in (parseLines newChangelogHead 0 initialState) in
  replace (parseLines newChangelogHead 0 initialState) with r
    by (vm_compute; reflexivity).
  cbn [bind]. rewrite !parseLines_app.
  match goal with
  | |- context [parseLines (split LF (formatVersion label2 _ _ _)) ?i ?st] =>
      destruct (parseLines_dated_block i st label2 d2 changes2 repoUrl2
                  Hlabel2 Hdate2 Hchanges2) as [c ->]
  end.
  cbn [bind parseLines]. rewrite parseLine_blank. cbn [bind].
  match goal with
  | |- context [parseLines (split LF (formatVersion label1 _ _ _)) ?i ?st] =>
      destruct (parseLines_dated_block i st label1 d1 changes1 repoUrl1
                  Hlabel1 Hdate1 Hchanges1) as [c' ->]
  end.
  cbn [bind]. reflexivity.
Qed.

(** X22. Two releases written one after the other to a path that held no
    file, then loaded. Take, for both releases, a label that is not empty, has
    no white space at its ends, no [\]], no line feed and no lone surrogate; a
    date in a year from 0 to 9999; and descriptions that are not empty, have
    no white space at their ends, no line terminator and no lone surrogate;
    and let the header line of the first release not match the Unreleased
    pattern (its label does not begin with "unreleased" in any letter case).
    Then the document loaded has exactly the two versions, the second one
    written first, each with its date at midnight UTC and its entries in
    category order. *)
Theorem second_write_newest_first (fs : fileSystem) filePath
    label1 d1 changes1 repoUrl1 label2 d2 changes2 repoUrl2 :
  fs !! filePath = None ->
  labelOk label1 = true -> dateOk d1 = true -> changesOk changes1 = true ->
  isWellFormed label1 = true -> changesWellFormed changes1 = true ->
  labelOk label2 = true -> dateOk d2 = true -> changesOk changes2 = true ->
  isWellFormed label2 = true -> changesWellFormed changes2 = true ->
  isUnreleasedHeader (headerLine label1 (Some d1)) = false ->
  loadChangelog
    (writeChangelog
       (writeChangelog fs filePath label1 d1 changes1 repoUrl1)
       filePath label2 d2 changes2 repoUrl2)
    filePath
  = Some
      {| title := lit "Changelog";
         description := newChangelogDescription;
         versions :=
           [ {| version := label2;
                date := Some (ValidDate (utcMidnight d2));
                entries := groupedEntries changes2 CATEGORY_ORDER |};
             {| version := label1;
                date := Some (ValidDate (utcMidnight d1));
                entries := groupedEntries changes1 CATEGORY_ORDER |} ] |}.
Proof.
  intros Hfs Hlabel1 Hdate1 Hchanges1 Hwf1 Hwfs1
    Hlabel2 Hdate2 Hchanges2 Hwf2 Hwfs2 Hu.
  assert (Hfirst :
    isWellFormed (createNewChangelog label1 d1 changes1 repoUrl1) = true)
    by now apply createNewChangelog_wellFormed.
  unfold loadChangelog, writeChangelog, writeFileSync.
  rewrite !lookup_insert_eq, Hfs.
  rewrite (toWellFormed_fixed (createNewChangelog _ _ _ _)) by exact Hfirst.
  rewrite toWellFormed_fixed by now apply insertVersion_wellFormed.
  now rewrite second_write_parsed.
Qed.

End SecondWrite.

(** ** The repository URL is not used in what is written *)

Section RepoUrlUnused.

Lemma formatVersion_any_repoUrl version date changes repoUrl1 repoUrl2 :
  formatVersion version date changes repoUrl1
  = formatVersion version date changes repoUrl2.
Proof.
  unfold formatVersion, formatAIEntries.
  assert (Hsections : forall cat,
    categorySections changes repoUrl1 cat
    = categorySections changes repoUrl2 cat).
  { intros cat. unfold categorySections.
    destruct (categories changes !! cat) as [[|t ts]|]; reflexivity. }
  assert (Hall : forall cats,
    flat_map (categorySections changes repoUrl1) cats
    = flat_map (categorySections changes repoUrl2) cats).
  { induction cats as [|cat cats IH]; [reflexivity|].
    cbn [flat_map]. now rewrite Hsections, IH. }
  now rewrite Hall.
Qed.

(** X23. The repository URL does not reach the text: [writeChangelog]
    leaves the same files, and [previewChangelog] returns the same text,
    whatever URL is passed, since the entries rendered carry no commits. *)
Theorem writeChangelog_ignores_repoUrl (fs : fileSystem) filePath version date
    changes repoUrl1 repoUrl2 :
  writeChangelog fs filePath version date changes repoUrl1
  = writeChangelog fs filePath version date changes repoUrl2
  /\ previewChangelog fs filePath version date changes repoUrl1
     = previewChangelog fs filePath version date changes repoUrl2.
Proof.
  unfold writeChangelog, writeFileSync, previewChangelog, insertVersion,
    createNewChangelog.
  rewrite (formatVersion_any_repoUrl version (Some date) changes
             repoUrl1 repoUrl2).
  split; reflexivity.
Qed.

End RepoUrlUnused.

(** ** A date written and read again *)

Section DateRoundTrip.

(** X24. A date written by [formatDate] and read by [new Date]: for a year
    from 0 to 9999 the text has ten code units and reads back as the same day
    at midnight UTC; the time of day is lost. *)
Theorem formatDate_then_newDate d :
  dateOk d = true ->
  length (formatDate d) = 10%nat
  /\ newDate (formatDate d) = ValidDate (utcMidnight d).
Proof.
  intros Hdate. destruct (dateOk_facts d Hdate) as (Hy & Hm & Hd).
  split; [|now apply newDate_formatDate].
  rewrite formatDate_digits by exact Hy.
  rewrite length_app. cbn [length]. rewrite length_app. cbn [length].
  rewrite !pad_length. reflexivity.
Qed.

End DateRoundTrip.

(** ** Instances *)

Section Instances.

Import Samples Scenarios.

Lemma insertVersion_appends_without_headings_witness :
  insertVersion docNotes (lit "1.1.0") jan15 changes1 None
  = docNotes ++ nl ++ formatVersion (lit "1.1.0") (Some jan15) changes1 None
    ++ nl.
Proof.
  apply (insertVersion_appends_without_headings docNotes (lit "1.1.0") jan15
           changes1 None).
  vm_compute. reflexivity.
Defined.

Lemma insertVersion_twice_newest_first_witness :
  insertVersion
    (insertVersion docWithRelease (lit "1.1.0") jan15 changes1 None)
    (lit "1.2.0") feb01 changes2 None
  = join nl
      (sliceTo (insertIndex (split LF docWithRelease)) (split LF docWithRelease)
       ++ [ formatVersion (lit "1.2.0") (Some feb01) changes2 None; [];
            formatVersion (lit "1.1.0") (Some jan15) changes1 None; [] ]
       ++ sliceFrom (insertIndex (split LF docWithRelease))
            (split LF docWithRelease)).
Proof.
  apply (insertVersion_twice_newest_first docWithRelease
           (lit "1.1.0") jan15 changes1 None (lit "1.2.0") feb01 changes2 None).
  vm_compute. reflexivity.
Defined.

Lemma formatVersion_line_structure_witness :
  split LF (formatVersion (lit "1.1.0") (Some jan15) changes1 None)
  = headerLine (lit "1.1.0") (Some jan15)
    :: [] :: flat_map (categoryLines changes1) CATEGORY_ORDER.
Proof.
  apply (formatVersion_line_structure (lit "1.1.0") (Some jan15) changes1 None);
    vm_compute; reflexivity.
Defined.

Lemma updateUnreleasedSection_frame_witness :
  exists before u section after,
    split LF docWithRelease = before ++ u :: section ++ after
    /\ isUnreleasedHeader u = true
    /\ forallb isSectionLine section = true
    /\ startsWithNextVersion after = true
    /\ updateUnreleasedSection docWithRelease changes1
       = join nl (before
                  ++ [formatVersion (lit "Unreleased") None changes1 None; []]
                  ++ after).
Proof.
  apply (updateUnreleasedSection_frame docWithRelease changes1).
  vm_compute. reflexivity.
Defined.

Lemma updateUnreleasedSection_last_wins_witness :
  updateUnreleasedSection (updateUnreleasedSection docWithRelease changes1)
    changes2
  = updateUnreleasedSection docWithRelease changes2.
Proof.
  apply (updateUnreleasedSection_last_wins docWithRelease changes1 changes2).
  vm_compute. reflexivity.
Defined.

Lemma parseChangelog_without_headers_witness :
  exists doc,
    parseChangelog docNotes = Returns doc
    /\ versions doc = []
    /\ description doc = [].
Proof.
  apply (parseChangelog_without_headers docNotes). vm_compute. reflexivity.
Defined.


Lemma insertVersion_adds_one_version_witness :
  exists doc doc' before after,
    parseChangelog docWithRelease = Returns doc
    /\ parseChangelog
         (insertVersion docWithRelease (lit "1.1.0") jan15 changes1 None)
       = Returns doc'
    /\ map versionKey (versions doc) = before ++ after
    /\ map versionKey (versions doc')
       = before ++ (lit "1.1.0", Some (ValidDate (utcMidnight jan15))) :: after.
Proof.
  apply (insertVersion_adds_one_version docWithRelease (lit "1.1.0") jan15
           changes1 None); vm_compute; reflexivity.
Defined.

Lemma getLatestVersion_first_released_witness :
  isReleased release110 = true
  /\ exists before after,
       versions parsedWithUnreleased = before ++ release110 :: after
       /\ forallb (fun u => negb (isReleased u)) before = true.
Proof.
  apply (getLatestVersion_first_released parsedWithUnreleased release110).
  vm_compute. reflexivity.
Defined.

Lemma first_write_then_load_witness :
  exists doc,
    loadChangelog
      (writeChangelog ∅ changelogPath (lit "1.1.0") jan15 changes1 None)
      changelogPath
    = Some doc
    /\ getLatestVersion doc
       = Some {| version := lit "1.1.0";
                 date := Some (ValidDate (utcMidnight jan15));
                 entries := groupedEntries changes1 CATEGORY_ORDER |}
    /\ getLatestVersionDate doc = Some (ValidDate (utcMidnight jan15)).
Proof.
  apply (first_write_then_load ∅ changelogPath (lit "1.1.0") jan15 changes1
           None); try (vm_compute; reflexivity).
  vm_compute. discriminate.
Defined.

Lemma second_write_newest_first_witness :
  loadChangelog
    (writeChangelog
       (writeChangelog ∅ changelogPath (lit "1.1.0") jan15 changes1 None)
       changelogPath (lit "1.2.0") feb01 changes2 None)
    changelogPath
  = Some
      {| title := lit "Changelog";
         description := newChangelogDescription;
         versions :=
           [ {| version := lit "1.2.0";
                date := Some (ValidDate (utcMidnight feb01));
                entries := groupedEntries changes2 CATEGORY_ORDER |};
             {| version := lit "1.1.0";
                date := Some (ValidDate (utcMidnight jan15));
                entries := groupedEntries changes1 CATEGORY_ORDER |} ] |}.
Proof.
  apply (second_write_newest_first ∅ changelogPath
           (lit "1.1.0") jan15 changes1 None (lit "1.2.0") feb01 changes2 None);
    vm_compute; reflexivity.
Defined.

Lemma truncateDiff_length_bound_witness :
  (Z.of_nat (length (truncateDiff manyHunks 4000)) <= 4000 + 4000 / 43)%Z.
Proof. apply (truncateDiff_length_bound manyHunks 4000). lia. Defined.

Lemma truncateDiff_keeps_input_lines_witness :
  exists result,
    truncateDiff diffSample 10 = join nl result
    /\ sublist (keptLines result) (split LF diffSample).
Proof.
  apply (truncateDiff_keeps_input_lines diffSample 10). vm_compute. reflexivity.
Defined.

Lemma truncateDiff_without_headers_witness :
  truncateDiff proseSample 10 = [].
Proof.
  apply (truncateDiff_without_headers proseSample 10); vm_compute; reflexivity.
Defined.

(** The result can be longer than [maxLength]: every hunk marker is counted
    one code unit short, and the closing marker is not counted at all. *)
Example truncateDiff_longer_than_maxLength :
  length (truncateDiff manyHunks 4000) = 4035%nat.
Proof. vm_compute. reflexivity. Qed.

Lemma generateCompareLinks_one_line_per_version_witness :
  exists lines,
    split LF (generateCompareLinks [lit "1.1.0"; lit "1.0.0"]
                (lit "https://github.com/owner/repo"))
    = lines
    /\ Forall2
         (fun v line =>
            startsWith (lit "[" ++ v ++ lit "]: "
                        ++ lit "https://github.com/owner/repo") line = true)
         [lit "1.1.0"; lit "1.0.0"] lines
    /\ last lines
       = Some (lit "[" ++ default [] (last [lit "1.1.0"; lit "1.0.0"])
               ++ lit "]: " ++ lit "https://github.com/owner/repo"
               ++ lit "/releases/tag/"
               ++ default [] (last [lit "1.1.0"; lit "1.0.0"])).
Proof.
  apply (generateCompareLinks_one_line_per_version [lit "1.1.0"; lit "1.0.0"]
           (lit "https://github.com/owner/repo"));
    [discriminate|cbn; lia|vm_compute; reflexivity|vm_compute; reflexivity].
Defined.

Lemma getRepoUrl_ssh_remote_witness :
  getRepoUrl (Some [upstream; sshOrigin])
  = Some (stripGitSuffix (lit "https///" ++ lit "github.com:owner/repo.git")).
Proof.
  apply (getRepoUrl_ssh_remote [upstream; sshOrigin] sshOrigin
           (lit "github.com:owner/repo.git")); reflexivity.
Defined.

Lemma getRepoUrl_https_remote_witness :
  getRepoUrl (Some [upstream; httpsOrigin])
  = Some (lit "https://github.com/owner/repo").
Proof.
  apply (getRepoUrl_https_remote [upstream; httpsOrigin] httpsOrigin
           (lit "https://github.com/owner/repo")); reflexivity.
Defined.

Lemma formatDate_then_newDate_witness :
  length (formatDate jan15) = 10%nat
  /\ newDate (formatDate jan15) = ValidDate (utcMidnight jan15).
Proof. apply (formatDate_then_newDate jan15). reflexivity. Defined.

End Instances.
